(** * rsg-release-monitoring: a shallow embedding of [rsg-release-monitoring.py]

    The script polls an XL Release server, collects the failed releases of
    three tag groups and writes a Markdown report.  This file embeds the
    identifier parser [u_parse_xlr_id], the entity constructors, the paginated
    search, the report section builder and the poll loop, and states the
    properties of the specification over them.

    Conventions.
    - A Python [str] is a [list ascii], one [ascii] per character: the
      characters of the model are the code points U+0000 to U+00FF, not the
      bytes of an encoding, and text that holds a character above U+00FF is
      outside the model.  On this range the class [\d] of [re] is exactly
      the ten digits ['0'] to ['9'] (the only characters of the Unicode
      category Nd below U+0100), and [.] is every character but the line
      feed.
    - [re.sub] is run by a small backtracking matcher for the fragment of the
      [re] syntax that the three patterns of the program use.
    - Effects (log records, HTTP requests, sleeps, file writes, the wall
      clock, [sys.exit], exceptions) are threaded through a state monad [M]
      over a [world]; the unbounded [while True] loops take fuel.
    - A Python [float] is a binary64 number of [SpecFloat], with its
      arithmetic rounded to nearest even; the end time of the poll loop is
      computed in it.
    - The XL Release server, the Markdown table library, the process
      environment and the file system are an oracle record [env]. *)

From Stdlib Require Import String Ascii ZArith QArith Lia Bool Arith List.
From Stdlib Require Import DecimalString Lqa Qround Qpower Qfield SpecFloat.
Import ListNotations.

Close Scope Q_scope.
Close Scope Z_scope.

Set Implicit Arguments.

(** ** Strings *)

Definition str := list ascii.

Notation "` x" := (list_ascii_of_string x%string)
  (at level 1, x at level 0, format "` x").

Definition LF : ascii := "010"%char.

Fixpoint str_eqb (a b : str) : bool :=
  match a, b with
  | [], [] => true
  | x :: a', y :: b' => Ascii.eqb x y && str_eqb a' b'
  | _, _ => false
  end.

(** Python's [x in l] on a list of strings. *)
Definition str_in (x : str) (l : list str) : bool := existsb (str_eqb x) l.

(** [s.startswith(p)], returning what follows the prefix. *)
Fixpoint strip_prefix (p s : str) : option str :=
  match p with
  | [] => Some s
  | x :: p' =>
      match s with
      | y :: s' => if Ascii.eqb x y then strip_prefix p' s' else None
      | [] => None
      end
  end.

Definition starts_with (p s : str) : Prop := exists t, s = p ++ t.

(** [s.find(c)] for a one-character needle: the index of the first
    occurrence, [-1] when there is none. *)
Fixpoint find_char (c : ascii) (s : str) : Z :=
  match s with
  | [] => -1
  | x :: s' =>
      if Ascii.eqb x c then 0
      else let i := find_char c s' in if i <? 0 then -1 else i + 1
  end%Z.

Definition str_of_Z (z : Z) : str :=
  list_ascii_of_string (NilZero.string_of_int (Z.to_int z)).

Definition str_of_nat (n : nat) : str := str_of_Z (Z.of_nat n).

(** ** The fragment of Python's [re] used by the program *)

Module Re.

(** Character classes: [.] (anything but a line feed, no DOTALL flag),
    [[...]], [[^...]] and [\d] (a Unicode decimal digit: among the
    characters of the model, ['0'] to ['9']). *)
Inductive cls :=
| Dot
| OneOf (cs : list ascii)
| NoneOf (cs : list ascii)
| Digit.

Definition mem (a : ascii) (cs : list ascii) : bool := existsb (Ascii.eqb a) cs.

Definition is_digit (a : ascii) : bool :=
  let n := nat_of_ascii a in (48 <=? n) && (n <=? 57).

Definition cls_in (c : cls) (a : ascii) : bool :=
  match c with
  | Dot => negb (Ascii.eqb a LF)
  | OneOf cs => mem a cs
  | NoneOf cs => negb (mem a cs)
  | Digit => is_digit a
  end.

(** Patterns: [^], one character of a class, a greedy starred class,
    literal text, concatenation and a capturing group. *)
Inductive re :=
| Bol
| Chr (c : cls)
| Star (c : cls)
| Lit (l : str)
| Seq (r1 r2 : re)
| Group (r : re).

(** A match in progress: the position in the subject, what is left of the
    subject there, and the groups closed so far. *)
Definition cont (R : Type) := nat -> str -> list str -> option R.

(** Greedy [c*]: take as many characters as the class allows, and give one
    back at a time while the rest of the pattern fails. *)
Fixpoint star (R : Type) (c : cls) (k : nat -> str -> option R)
         (pos : nat) (s : str) : option R :=
  match s with
  | a :: s' =>
      if cls_in c a then
        match star c k (S pos) s' with
        | Some r => Some r
        | None => k pos s
        end
      else k pos s
  | [] => k pos s
  end.

Fixpoint matchk (R : Type) (r : re) (k : cont R)
         (pos : nat) (s : str) (caps : list str) : option R :=
  match r with
  | Bol => if pos =? 0 then k pos s caps else None
  | Chr c =>
      match s with
      | a :: s' => if cls_in c a then k (S pos) s' caps else None
      | [] => None
      end
  | Star c => star c (fun pos' s' => k pos' s' caps) pos s
  | Lit l =>
      match strip_prefix l s with
      | Some s' => k (pos + length l) s' caps
      | None => None
      end
  | Seq r1 r2 => matchk r1 (matchk r2 k) pos s caps
  | Group r1 =>
      matchk r1 (fun pos' s' caps' => k pos' s' (caps' ++ [firstn (pos' - pos) s]))
             pos s caps
  end.

(** [pattern.match] at position [pos]: the end of the preferred match and
    its groups. *)
Definition match_at (r : re) (pos : nat) (s : str) : option (nat * list str) :=
  matchk r (fun pos' _ caps => Some (pos', caps)) pos s [].

(** [re.sub(r, repl, subject)]: every leftmost non-overlapping match is
    replaced.  [skip] counts the characters of the current match that are
    still to be passed over.  After an empty match the scan copies one
    character and goes on, as Python 3.7 does. *)
Fixpoint sub_from (r : re) (repl : list str -> str)
         (skip pos : nat) (s : str) : str :=
  match skip with
  | S n =>
      match s with
      | _ :: s' => sub_from r repl n (S pos) s'
      | [] => []
      end
  | 0 =>
      match match_at r pos s with
      | Some (e, caps) =>
          repl caps ++
          match s with
          | a :: s' =>
              match e - pos with
              | 0 => a :: sub_from r repl 0 (S pos) s'
              | S n => sub_from r repl n (S pos) s'
              end
          | [] => []
          end
      | None =>
          match s with
          | a :: s' => a :: sub_from r repl 0 (S pos) s'
          | [] => []
          end
      end
  end.

Definition sub (r : re) (repl : list str -> str) (s : str) : str :=
  sub_from r repl 0 0 s.

(** The replacement template [r"\1"]. *)
Definition group1 (caps : list str) : str := nth 0 caps [].

(** The replacement template [r""]. *)
Definition nothing (caps : list str) : str := [].

End Re.

Import Re.

(** ** The world and the monad of effects *)

Inductive level := DEBUG | INFO | WARNING | ERROR.

(** The body of a release search, [json.dumps(data)]. *)
Record search_data := {
  sd_title : str;
  sd_tags : list str;
  sd_failed : bool;
  sd_planned : bool;
  sd_paused : bool;
  sd_inProgress : bool;
  sd_completed : bool;
  sd_aborted : bool
}.

(** The four endpoints the program calls, with the variable parts of their
    URLs. *)
Inductive request :=
| Login (user pw : str)
| Search (page resultsPerPage : nat) (pageIsOffset : bool) (data : search_data)
| ActiveTasks (release_id : str)
| PhaseById (phase_id : str).

Inductive event :=
| Log (lv : level) (msg : str)
| Print (msg : str)
| Http (r : request)
| Sleep (seconds : Z)
| WriteFile (name content : str)
| CopyFile (src dst : str).

Record world := { clock : Z; trace : list event }.

(** The one exception the program lets through: [requests.HTTPError]. *)
Inductive exn := HTTPError.

(** How a computation ends: with a value, by [sys.exit(code)], by an uncaught
    exception, or not within the fuel given to its loops. *)
Inductive res (A : Type) :=
| Val (a : A)
| Exit (code : Z)
| Raise (e : exn)
| OutOfFuel.

Arguments Val {A} a.
Arguments Exit {A} code.
Arguments Raise {A} e.
Arguments OutOfFuel {A}.

Definition M (A : Type) := world -> world * res A.

Definition ret {A} (a : A) : M A := fun w => (w, Val a).

Definition bind {A B} (m : M A) (f : A -> M B) : M B :=
  fun w =>
    match m w with
    | (w', Val a) => f a w'
    | (w', Exit c) => (w', Exit c)
    | (w', Raise e) => (w', Raise e)
    | (w', OutOfFuel) => (w', OutOfFuel)
    end.

Notation "x <- m ;; k" := (bind m (fun x => k))
  (at level 61, m at next level, right associativity).
Notation "m ;;; k" := (bind m (fun _ => k))
  (at level 61, right associativity).

Definition emit (e : event) : M unit :=
  fun w => ({| clock := clock w; trace := trace w ++ [e] |}, Val tt).

Definition logger (lv : level) (msg : str) : M unit := emit (Log lv msg).

Definition sys_exit {A} (code : Z) : M A := fun w => (w, Exit code).

Definition out_of_fuel {A} : M A := fun w => (w, OutOfFuel).

(** [int(time.time())] *)
Definition time_now : M Z := fun w => (w, Val (clock w)).

Definition elapse (d : Z) : M unit :=
  fun w => ({| clock := (clock w + d)%Z; trace := trace w |}, Val tt).

(** A list comprehension whose element expression has effects. *)
Fixpoint map_m {A B} (f : A -> M B) (l : list A) : M (list B) :=
  match l with
  | [] => ret []
  | x :: l' => y <- f x ;; ys <- map_m f l' ;; ret (y :: ys)
  end.

(** ** IdentifierParser: [u_parse_xlr_id] *)

Definition recognized_parts : list str := [`"Release"; `"Phase"; `"Task"].

Definition delims : list ascii := ["-"%char; "/"%char].

(** The first pattern of the function: anchored at the start, one group
    holding [.*], a delimiter of [[-\/]], the part name and [[^-\/]*], and a
    final [.*] after the group.  The three part names hold no metacharacter,
    so the interpolated text stands for itself. *)
Definition pattern_upto (part : str) : re :=
  Seq Bol
      (Seq (Group (Seq (Star Dot)
                       (Seq (Chr (OneOf delims))
                            (Seq (Lit part) (Star (NoneOf delims))))))
           (Star Dot)).

(** The second pattern: [.*], a delimiter, one group holding the part name
    and [[^-\/]*], and a final [.*]; not anchored. *)
Definition pattern_last (part : str) : re :=
  Seq (Star Dot)
      (Seq (Chr (OneOf delims))
           (Seq (Group (Seq (Lit part) (Star (NoneOf delims))))
                (Star Dot))).

(** The sentinel appended to the id: ['-'] when the first hyphen of the id
    is not its first character, ['/'] otherwise. *)
Definition sentinel (id : str) : ascii :=
  if (0 <? find_char "-"%char id)%Z then "-"%char else "/"%char.

Definition u_parse_xlr_id (id part : str) (last_part_only : bool) : M str :=
  if negb (str_in part recognized_parts) then
    logger ERROR (`"(I am) unable to get " ++ part ++
                  `" from id: it's not implemented.") ;;;
    sys_exit 1
  else
    let id := id ++ [sentinel id] in
    let retval := sub (pattern_upto part) group1 id in
    let retval :=
      if last_part_only then sub (pattern_last part) group1 id else retval in
    ret retval.

(** ** The outside of the program *)

(** What a request comes back with: the seconds it took, and the decoded
    JSON body, or nothing when the status is an error
    ([raise_for_status] then raises). *)
Record reply (A : Type) := { took : Z; body : option A }.

(** The JSON objects of the server, by the attributes the program reads. *)
Record phase_json := { pj_id : str; pj_title : str }.
Record task_json := { tj_id : str; tj_title : str; tj_status : str; tj_type : str }.
Record release_json :=
  { rj_id : str; rj_title : str; rj_status : str; rj_currentPhase : str }.

(** The oracle: the server's answers (which may change with time), the
    table renderer of [markdown_table_generator]
    ([generate_markdown] after [table_from_string_list] with left
    alignment), [os.environ], [os.path.exists] and
    [datetime.now().strftime]. *)
Record env := {
  srv_login : Z -> str -> str -> reply unit;
  srv_search : Z -> nat -> nat -> search_data -> reply (list release_json);
  srv_active_tasks : Z -> str -> reply (list task_json);
  srv_phase : Z -> str -> reply phase_json;
  generate_markdown : list (list str) -> str;
  environ : str -> option str;
  path_exists : str -> bool;
  strftime : str -> Z -> str
}.

(** One blocking request: it is recorded, the clock moves on, and an error
    status raises. *)
Definition http {A} (r : request) (ans : Z -> reply A) : M A :=
  fun w =>
    let rp := ans (clock w) in
    let w' := {| clock := (clock w + took rp)%Z; trace := trace w ++ [Http r] |} in
    match body rp with
    | Some a => (w', Val a)
    | None => (w', Raise HTTPError)
    end.

(** ** Constants *)

Definition DQ : ascii := "034"%char.

Definition MARKDEEP_FOOTER : str :=
  `"<!-- Markdeep: --><style class=" ++ [DQ] ++ `"fallback" ++ [DQ] ++
  `">body{visibility:hidden;white-space:pre;font-family:monospace}</style><script src=" ++
  [DQ] ++ `"markdeep.min.js" ++ [DQ] ++ `" charset=" ++ [DQ] ++ `"utf-8" ++ [DQ] ++
  `"></script><script src=" ++ [DQ] ++
  `"https://morgan3d.github.io/markdeep/latest/markdeep.min.js?" ++ [DQ] ++
  `" charset=" ++ [DQ] ++ `"utf-8" ++ [DQ] ++
  `"></script><script>window.alreadyProcessedMarkdeep||(document.body.style.visibility=" ++
  [DQ] ++ `"visible" ++ [DQ] ++ `")</script>".

(** A Python [dict] from status names to booleans, in insertion order. *)
Definition status_dict := list (str * bool).

Definition STATUS_ONLY_FAILED : status_dict :=
  [(`"planned", false); (`"paused", false); (`"inProgress", false);
   (`"completed", false); (`"aborted", false); (`"failed", true)].

Definition STATUS_ALL : status_dict :=
  [(`"planned", true); (`"paused", true); (`"inProgress", true);
   (`"completed", true); (`"aborted", true); (`"failed", true)].

(** [d.get(key, default)] *)
Fixpoint dict_get (d : status_dict) (key : str) (default : bool) : bool :=
  match d with
  | [] => default
  | (k, v) :: d' => if str_eqb k key then v else dict_get d' key default
  end.

(** [sep.join(l)] *)
Fixpoint join (sep : str) (l : list str) : str :=
  match l with
  | [] => []
  | [x] => x
  | x :: l' => x ++ sep ++ join sep l'
  end.

Definition BACKSLASH : ascii := "092"%char.
Definition TAB : ascii := "009"%char.
Definition CR : ascii := "013"%char.

(** [str.isprintable] on one character of the model: the ASCII characters
    from the space to the tilde, and the characters from U+00A1 on but the
    soft hyphen U+00AD. *)
Definition printable (a : ascii) : bool :=
  let n := nat_of_ascii a in
  ((32 <=? n) && (n <? 127)) || ((161 <=? n) && negb (n =? 173)).

Definition hex_digit (n : nat) : ascii := nth n `"0123456789abcdef" "0"%char.

(** One character inside [repr(s)]: the quote in use and the backslash are
    escaped, so are the tab, the line feed and the carriage return; a
    character that is not printable is written as a two-digit hexadecimal
    escape. *)
Definition repr_char (quote a : ascii) : str :=
  if Ascii.eqb a quote || Ascii.eqb a BACKSLASH then [BACKSLASH; a]
  else if Ascii.eqb a TAB then [BACKSLASH; "t"%char]
  else if Ascii.eqb a LF then [BACKSLASH; "n"%char]
  else if Ascii.eqb a CR then [BACKSLASH; "r"%char]
  else if printable a then [a]
  else [BACKSLASH; "x"%char;
        hex_digit (nat_of_ascii a / 16); hex_digit (nat_of_ascii a mod 16)].

(** [repr(s)] of a [str]: between single quotes, or between double quotes
    when the string holds an apostrophe and no double quote. *)
Definition repr (s : str) : str :=
  let quote := if mem "'"%char s && negb (mem DQ s) then DQ else "'"%char in
  [quote] ++ flat_map (repr_char quote) s ++ [quote].

(** How [str.format] shows a list of strings: the [repr] of each. *)
Definition repr_list (l : list str) : str :=
  `"[" ++ join `", " (map repr l) ++ `"]".

Definition str_of_bool (b : bool) : str := if b then `"True" else `"False".

Definition xlr_servers_prod : str := `"https://xlrelease.rbgooe.at".

(** The module-level [server]: its [url] is a constant of the script. *)
Definition server_url : str := xlr_servers_prod.

(** ** EntityModel *)

Module Phase.

Record t := { id : str; title : str }.

(** [Phase.__init__], on the keys of the JSON object. *)
Definition init (j : phase_json) : t := {| id := pj_id j; title := pj_title j |}.

Definition get_phase_by_id (E : env) (phase_id_long : str) : M t :=
  resp_json <- http (PhaseById phase_id_long)
                    (fun now => srv_phase E now phase_id_long) ;;
  ret (init resp_json).

End Phase.

Module Task.

Record t := {
  id_long : str;
  id : str;
  phase_id : str;
  release_id : str;
  title : str;
  status : str;
  type : str;
  phase : Phase.t
}.

(** [Task.__init__], on the keys of the JSON object. *)
Definition init (E : env) (j : task_json) : M t :=
  let id_long := tj_id j in
  id <- u_parse_xlr_id id_long `"Task" false ;;
  phase_id <- u_parse_xlr_id id_long `"Phase" false ;;
  release_id <- u_parse_xlr_id id_long `"Release" true ;;
  phase <- Phase.get_phase_by_id E phase_id ;;
  ret {| id_long := id_long; id := id; phase_id := phase_id;
         release_id := release_id; title := tj_title j;
         status := tj_status j; type := tj_type j; phase := phase |}.

End Task.

Module Release.

(** [url] is set by [search_releases] once the whole result is there; the
    program reads it only after that, so the model keeps it as a plain
    field, empty until set.  The back-reference [server] is the
    module-level constant. *)
Record t := {
  id_long : str;
  id : str;
  title : str;
  status : str;
  currentPhase : str;
  active_tasks : list Task.t;
  url : str
}.

Definition get_active_tasks (E : env) (self_id : str) : M (list Task.t) :=
  resp_json <- http (ActiveTasks self_id)
                    (fun now => srv_active_tasks E now self_id) ;;
  map_m (Task.init E) resp_json.

(** [Release.__init__], on the keys of the JSON object. *)
Definition init (E : env) (j : release_json) : M t :=
  let id_long := rj_id j in
  id <- u_parse_xlr_id id_long `"Release" true ;;
  active_tasks <- get_active_tasks E id ;;
  ret {| id_long := id_long; id := id; title := rj_title j;
         status := rj_status j; currentPhase := rj_currentPhase j;
         active_tasks := active_tasks; url := [] |}.

Definition set_url (u : str) (r : t) : t :=
  {| id_long := id_long r; id := id r; title := title r; status := status r;
     currentPhase := currentPhase r; active_tasks := active_tasks r; url := u |}.

(** *** ReportBuilder: one section *)

(** The pattern [\d*A\d*-] that strips the ticket number from a title. *)
Definition ticket_prefix : re :=
  Seq (Star Digit) (Seq (Lit `"A") (Seq (Star Digit) (Lit `"-"))).

Definition header_row : list str :=
  [`"Release"; `"Status"; `"Active Phase"; `"Active task"; `"Task type"].

(** The inner loop over the active tasks: each turn assigns [v3], [v4] and
    [v5] anew. *)
Definition active_cells (tasks : list Task.t) : str * str * str :=
  fold_left
    (fun (v : str * str * str) (active_task : Task.t) =>
       (Phase.title (Task.phase active_task),
        Task.title active_task,
        Task.type active_task))
    tasks (`"-", `"-", `"-").

(** The body of the loop over the releases: the row it appends. *)
Definition row (release : t) : list str :=
  let v1 := `" [" ++ sub ticket_prefix nothing (title release) ++ `"](" ++
            url release ++ `")" in
  let v2 := status release in
  let '(v3, v4, v5) := active_cells (active_tasks release) in
  [v1; v2; v3; v4; v5].

Definition get_md_from_releases (E : env) (releases : list t) (title : str) : str :=
  let output_md := `"## " ++ title ++ [LF] in
  if 0 <? length releases then
    let rows := [header_row] ++ map row releases in
    output_md ++ generate_markdown E rows ++ [LF]
  else
    output_md ++ `"No releases found." ++ [LF; LF].

(** *** SearchAggregator *)

Definition resultsPerPage : nat := 15.

(** The figure [int(dt / n)] of the closing log record, on the model's
    clock of whole seconds. *)
Definition ms_per (dt : Z) (n : nat) : Z := Z.quot dt (Z.of_nat n).

(** The [while True] loop of [search_releases]; [fuel] bounds the number of
    pages requested. *)
Fixpoint search_pages (E : env) (fuel : nat) (data : search_data)
         (exceptPhases : list str) (releases : list t) (page : nat)
  : M (list t) :=
  match fuel with
  | 0 => out_of_fuel
  | S fuel' =>
      cis <- http (Search page resultsPerPage false data)
                  (fun now => srv_search E now page resultsPerPage data) ;;
      new_releases <- map_m (init E) cis ;;
      if length new_releases =? 0 then ret releases
      else
        let new_releases_len_unfiltered := length new_releases in
        let new_releases :=
          filter (fun x => negb (str_in (currentPhase x) exceptPhases))
                 new_releases in
        logger INFO (str_of_nat (length new_releases) ++ `" found.") ;;;
        let new_releases_len_filtered := length new_releases in
        (if negb (new_releases_len_unfiltered =? new_releases_len_filtered) then
           logger INFO
             (str_of_nat (new_releases_len_unfiltered - new_releases_len_filtered)
              ++ `" releases filtered out: their phases are not important for us.")
         else ret tt) ;;;
        search_pages E fuel' data exceptPhases (releases ++ new_releases) (S page)
  end.

Definition search_releases (E : env) (fuel : nat) (title : str)
           (tags : list str) (statuses : status_dict)
           (exceptPhases : list str) : M (list t) :=
  l_run_start <- time_now ;;
  let data :=
    {| sd_title := title;
       sd_tags := tags;
       sd_failed := dict_get statuses `"failed" true;
       sd_planned := dict_get statuses `"planned" true;
       sd_paused := dict_get statuses `"paused" true;
       sd_inProgress := dict_get statuses `"inProgress" true;
       sd_completed := dict_get statuses `"completed" true;
       sd_aborted := dict_get statuses `"aborted" true |} in
  let f := filter (fun kv => snd kv) statuses in
  logger INFO (`"search_releases(title='" ++ title ++ `"', tags:" ++
               repr_list tags ++ `", statuses: [" ++
               join `", " (map fst f) ++ `"])") ;;;
  releases <- search_pages E fuel data exceptPhases [] 0 ;;
  l_run_end <- time_now ;;
  let dt := (1000 * (l_run_end - l_run_start))%Z in
  (if length releases =? 0 then logger INFO `"No release found."
   else if length releases =? 1 then
     logger INFO (`"One release found. (" ++ str_of_Z dt ++ `"ms/release)")
   else
     logger INFO (str_of_nat (length releases) ++ `" releases found " ++
                  str_of_Z (ms_per dt (length releases)) ++ `"ms/release.")) ;;;
  ret (map (fun release =>
              set_url (server_url ++ `"/#/releases/" ++ id_long release) release)
           releases).

End Release.

(** ** SessionClient *)

Definition get_env_var (E : env) (var_name : str) : M str :=
  match environ E var_name with
  | None =>
      logger ERROR (`"Please set " ++ var_name ++
                    `" as environment variable. Aborting.") ;;;
      sys_exit 1
  | Some v => ret v
  end.

Module Server.

(** [Server.__init__]: the login request; the headers and cookies it
    copies into the session are transport details outside the model, and
    the [logger.debug] calls are below the logger's level. *)
Definition init (E : env) (user pw url : str) : M unit :=
  logger INFO (`"Connecting to " ++ url ++ `" with user " ++ user ++ `"...") ;;;
  http (Login user pw) (fun now => srv_login E now user pw) ;;;
  logger INFO `"Connection OK.".

End Server.

(** ** ReportBuilder and ReportWriter: [generate_report] *)

Record collected := {
  releases_tag_release : list Release.t;
  releases_tag_rollout : list Release.t;
  releases_tag_applikationstests : list Release.t
}.

Definition collecting_info (E : env) (fuel : nat) (release_title : str) : M collected :=
  r1 <- Release.search_releases E fuel release_title [`"drb"; `"release"]
          STATUS_ONLY_FAILED [] ;;
  r2 <- Release.search_releases E fuel release_title [`"drb"; `"rollout"]
          STATUS_ONLY_FAILED [`"tstux - Qualitycheck"] ;;
  r3 <- Release.search_releases E fuel release_title [`"drb"; `"applikationstests"]
          STATUS_ONLY_FAILED [`"TSTUX"] ;;
  ret {| releases_tag_release := r1;
         releases_tag_rollout := r2;
         releases_tag_applikationstests := r3 |}.

Definition generate_report (E : env) (fuel : nat)
           (release_title out_dir : str) (keep_files : bool) : M unit :=
  l_ts_start <- time_now ;;
  now <- time_now ;;
  let now_yyyymmdd_hhmm := strftime E `"%Y.%m.%d %H:%M" now in
  let now_yyyymmdd_hhmm_ := strftime E `"%Y%m%d_%H%M" now in
  releases <- collecting_info E fuel release_title ;;
  let output_md_header := `"# " ++ release_title ++ [LF; LF] in
  let output_md := output_md_header in
  let output_md := output_md ++
    Release.get_md_from_releases E (releases_tag_release releases)
      `"Failed items with tag: [release]" in
  let output_md := output_md ++
    Release.get_md_from_releases E (releases_tag_applikationstests releases)
      `"Failed items with tag: [applikationstests]" in
  let output_md := output_md ++
    Release.get_md_from_releases E (releases_tag_rollout releases)
      `"Failed items with tag: [rollout]" in
  let output_md := output_md ++ `"Time of generation: " ++ now_yyyymmdd_hhmm ++ [LF] in
  let output_md_html := output_md in
  let output_md_html := output_md_html ++ [LF] in
  let output_md_html := output_md_html ++ MARKDEEP_FOOTER in
  let file_name := out_dir ++ `"/" ++ release_title ++ `"_LATEST.md" in
  emit (WriteFile file_name output_md) ;;;
  (if keep_files then
     emit (CopyFile file_name
             (out_dir ++ `"/" ++ release_title ++ `"_" ++ now_yyyymmdd_hhmm_ ++ `".md"))
   else ret tt) ;;;
  let file_name := out_dir ++ `"/" ++ release_title ++ `"_LATEST.md.html" in
  emit (WriteFile file_name output_md_html) ;;;
  (if keep_files then
     emit (CopyFile file_name
             (out_dir ++ `"/" ++ release_title ++ `"_" ++ now_yyyymmdd_hhmm_ ++ `".md.html"))
   else ret tt) ;;;
  l_ts_end <- time_now ;;
  logger INFO (`"generate_report(): returning after " ++
               str_of_Z (l_ts_end - l_ts_start) ++ `"seconds.").

(** ** PollLoop and CLI: [main] *)

(** *** Floats

    [--hours] goes through [float], which also takes [inf] and [nan], and
    the end time of the loop is computed from it in binary64 arithmetic:
    each operation gives the float nearest to the exact result, ties to
    even. *)
Definition float := spec_float.

Definition fmul (x y : float) : float := SFmul 53 1024 x y.
Definition fadd (x y : float) : float := SFadd 53 1024 x y.

(** The conversion of an [int] operand of a float operation, to the nearest
    float.  The ints converted by the program are [60] and
    [int(time.time())]: the latter is the integer part of a float, hence a
    float itself, so that the conversion is exact and never overflows. *)
Definition float_of_int (z : Z) : float := binary_normalize 53 1024 z 0 false.

(** What a float is worth in a comparison with an [int], which Python
    carries out exactly: a rational, an infinity, or not a number. *)
Inductive fvalue :=
| Finite (q : Q)
| PosInf
| NegInf
| NaN.

Coercion Finite : Q >-> fvalue.

Definition value (x : float) : fvalue :=
  match x with
  | S754_zero _ => Finite 0
  | S754_infinity s => if s then NegInf else PosInf
  | S754_nan => NaN
  | S754_finite s m e => Finite (inject_Z (cond_Zopp s (Z.pos m)) * (2 # 1) ^ e)%Q
  end.

(** The result of [parser.parse_args()]; [run_hours] is a float. *)
Record args := {
  out_dir : str;
  keep_files : bool;
  release_title : str;
  run_hours : float;
  call_every_min : Z
}.

Definition parser_usage : str := `"usage: TODO".

(** [time.sleep(seconds)] *)
Definition sleep (seconds : Z) : M unit :=
  emit (Sleep seconds) ;;; elapse seconds.

(** [a > run_end] between an [int] and the float end time, by the value of
    the float: no int is greater than [inf], none compares with [nan], and
    every int is greater than [-inf]. *)
Definition gt_end (a : Z) (run_end : fvalue) : bool :=
  match run_end with
  | Finite q => negb (Qle_bool (inject_Z a) q)
  | PosInf => false
  | NegInf => true
  | NaN => false
  end.

(** One turn of the [while True] loop of [main]: [false] stands for
    [break]. *)
Definition poll_cycle (E : env) (fuel : nat) (a : args) (run_end : fvalue) : M bool :=
  now <- time_now ;;
  let next_run := (now + call_every_min a * 60)%Z in
  now <- time_now ;;
  if gt_end now run_end then ret false
  else
    generate_report E fuel (release_title a) (out_dir a) (keep_files a) ;;;
    now <- time_now ;;
    let sleep_time_s := (now - next_run)%Z in
    if gt_end next_run run_end then ret false
    else
      (if (0 <? sleep_time_s)%Z then
         logger INFO (`"Waiting " ++ str_of_Z sleep_time_s ++ `" seconds...") ;;;
         sleep sleep_time_s
       else
         logger WARNING (`"Wait time too low. (" ++ str_of_Z sleep_time_s ++ `")")) ;;;
      ret true.

(** The [while True] loop of [main]: [turns] bounds the number of its
    turns, [fuel] the pages of each search inside a turn. *)
Fixpoint poll_loop (E : env) (fuel turns : nat) (a : args) (run_end : fvalue)
  : M unit :=
  match turns with
  | 0 => out_of_fuel
  | S turns' =>
      continue <- poll_cycle E fuel a run_end ;;
      if continue then poll_loop E fuel turns' a run_end else ret tt
  end.

(** The six [logger.info] lines that announce the run (the last one shows
    the release title, as the source does). *)
Definition log_run_parameters (a : args) : M unit :=
  logger INFO `"Run parameters:" ;;;
  logger INFO (`" - Collecting info every " ++ str_of_Z (call_every_min a) ++
               `" minutes.") ;;;
  logger INFO (`" - Keep files historical: " ++ str_of_bool (keep_files a)) ;;;
  logger INFO (`" - Output directory: " ++ out_dir a) ;;;
  logger INFO (`" - Release to be monitored: " ++ release_title a) ;;;
  logger INFO (`" - Run time: " ++ release_title a).

Definition main (E : env) (fuel : nat) (a : args) : M unit :=
  if match release_title a with [] => true | _ => false end then
    logger ERROR `"Release title not given." ;;;
    emit (Print parser_usage) ;;;
    sys_exit 1
  else if negb (path_exists E (out_dir a)) then
    logger ERROR (`"Directory '" ++ out_dir a ++ `"' does not exist, aborting.") ;;;
    sys_exit 1
  else
    log_run_parameters a ;;;
    now <- time_now ;;
    let run_end :=
      fadd (float_of_int now)
           (fmul (fmul (run_hours a) (float_of_int 60)) (float_of_int 60)) in
    poll_loop E fuel fuel a (value run_end).

(** The module-level statement [server = Server(...)]: the keyword
    arguments are evaluated in the order written. *)
Definition module_init (E : env) : M unit :=
  user <- get_env_var E `"XLR_USER" ;;
  pw <- get_env_var E `"XLR_PASSWORD" ;;
  Server.init E user pw xlr_servers_prod.

(** The module run as a script: the module-level statements, then the two
    statements under [if __name__ == '__main__']. *)
Definition script (E : env) (fuel : nat) (a : args) : M unit :=
  module_init E ;;;
  main E fuel a ;;;
  main E fuel a.

(** ** Vocabulary of the specification *)

Definition is_delim (a : ascii) : bool := mem a delims.

(** The delimiter-separated segments of a composite id. *)
Fixpoint segments (s : str) : list str :=
  match s with
  | [] => [[]]
  | a :: s' =>
      if is_delim a then [] :: segments s'
      else match segments s' with
           | x :: l => (a :: x) :: l
           | [] => [[a]]
           end
  end.

(** A delimiter followed by the part name occurs somewhere in [s]. *)
Definition occurs (part s : str) : Prop :=
  exists u d v, s = u ++ d :: part ++ v /\ is_delim d = true.

(** An id on one line: it holds no line feed. *)
Definition single_line (s : str) : Prop := Forall (fun a => a <> LF) s.

(** [a] occurs in [b] as a run of consecutive characters. *)
Definition substring (a b : str) : Prop := exists u v, b = u ++ a ++ v.

(** [a] is what [b] ends with, and [b] is longer. *)
Definition strict_suffix (a b : str) : Prop := exists u, u <> [] /\ b = u ++ a.

(** The pages requested from the search endpoint, in order. *)
Fixpoint search_pages_of (tr : list event) : list nat :=
  match tr with
  | [] => []
  | Http (Search page _ _ _) :: tr' => page :: search_pages_of tr'
  | _ :: tr' => search_pages_of tr'
  end.

(** The seconds slept, in order. *)
Fixpoint sleeps_of (tr : list event) : list Z :=
  match tr with
  | [] => []
  | Sleep n :: tr' => n :: sleeps_of tr'
  | _ :: tr' => sleeps_of tr'
  end.

(** The records logged at level [lv], in order. *)
Fixpoint logged_at (lv : level) (tr : list event) : list str :=
  match tr with
  | [] => []
  | Log lv' msg :: tr' =>
      match lv, lv' with
      | DEBUG, DEBUG | INFO, INFO | WARNING, WARNING | ERROR, ERROR =>
          msg :: logged_at lv tr'
      | _, _ => logged_at lv tr'
      end
  | _ :: tr' => logged_at lv tr'
  end.

(** The lines of a text, as [s.split] at line feeds gives them. *)
Fixpoint lines (s : str) : list str :=
  match s with
  | [] => [[]]
  | a :: s' =>
      if Ascii.eqb a LF then [] :: lines s'
      else match lines s' with
           | x :: l => (a :: x) :: l
           | [] => [[a]]
           end
  end.

(** The same release with other active tasks. *)
Definition with_active_tasks (tasks : list Task.t) (r : Release.t) : Release.t :=
  {| Release.id_long := Release.id_long r; Release.id := Release.id r;
     Release.title := Release.title r; Release.status := Release.status r;
     Release.currentPhase := Release.currentPhase r;
     Release.active_tasks := tasks; Release.url := Release.url r |}.

(** The two hydration endpoints always answer with a success status. *)
Definition hydration_ok (E : env) : Prop :=
  (forall now i, body (srv_active_tasks E now i) <> None) /\
  (forall now i, body (srv_phase E now i) <> None).

(** The search endpoint serves [items] page by page. *)
Definition serves (E : env) (items : list release_json) : Prop :=
  forall now page n data,
    body (srv_search E now page n data) = Some (firstn n (skipn (page * n) items)).

(** Nothing was asked of the search endpoint between [w] and [w']. *)
Definition quiet (w w' : world) : Prop :=
  search_pages_of (trace w') = search_pages_of (trace w).

(** What a constructed release keeps of the JSON object it was built from. *)
Definition built_from (j : release_json) (r : Release.t) : Prop :=
  Release.id_long r = rj_id j /\ Release.currentPhase r = rj_currentPhase j.

(** The patterns that cannot match the empty string: some character or
    non-empty literal stands outside every star. *)
Fixpoint consumes (r : re) : bool :=
  match r with
  | Bol | Star _ => false
  | Chr _ => true
  | Lit l => match l with [] => false | _ => true end
  | Seq r1 r2 => consumes r1 || consumes r2
  | Group r1 => consumes r1
  end.

(** The requests of a trace, in order. *)
Fixpoint requests_of (tr : list event) : list request :=
  match tr with
  | [] => []
  | Http r :: tr' => r :: requests_of tr'
  | _ :: tr' => requests_of tr'
  end.

(** The file writes and copies of a trace, in order. *)
Fixpoint files_of (tr : list event) : list event :=
  match tr with
  | [] => []
  | WriteFile n c :: tr' => WriteFile n c :: files_of tr'
  | CopyFile a b :: tr' => CopyFile a b :: files_of tr'
  | _ :: tr' => files_of tr'
  end.

(** However it ends, [m] adds to the trace only events that satisfy [P]. *)
Definition emits_only {A} (P : event -> Prop) (m : M A) : Prop :=
  forall w, exists tr, trace (fst (m w)) = trace w ++ tr /\ Forall P tr.

(** The body that [search_releases] posts for its arguments. *)
Definition data_of (title : str) (tags : list str) (statuses : status_dict)
  : search_data :=
  {| sd_title := title;
     sd_tags := tags;
     sd_failed := dict_get statuses `"failed" true;
     sd_planned := dict_get statuses `"planned" true;
     sd_paused := dict_get statuses `"paused" true;
     sd_inProgress := dict_get statuses `"inProgress" true;
     sd_completed := dict_get statuses `"completed" true;
     sd_aborted := dict_get statuses `"aborted" true |}.

(** What a search may add to the trace: INFO records, page requests of 15
    results with the body [data], and the two hydration requests. *)
Definition search_event (data : search_data) (e : event) : Prop :=
  match e with
  | Log INFO _ => True
  | Http (Search _ n off d) => n = 15 /\ off = false /\ d = data
  | Http (ActiveTasks _) => True
  | Http (PhaseById _) => True
  | _ => False
  end.

(** A search body that asks for failed releases only. *)
Definition failed_only (d : search_data) : Prop :=
  sd_failed d = true /\ sd_planned d = false /\ sd_paused d = false /\
  sd_inProgress d = false /\ sd_completed d = false /\ sd_aborted d = false.

(** What a run of [main] may add to the trace: log records, the usage
    text, sleeps, searches for failed releases with the title of the run, the
    two hydration requests, and files whose names start with
    [out_dir/release_title_]. *)
Definition run_event (a : args) (e : event) : Prop :=
  match e with
  | Log _ _ => True
  | Print _ => True
  | Sleep _ => True
  | Http (Login _ _) => False
  | Http (Search _ n off d) =>
      n = 15 /\ off = false /\ sd_title d = release_title a /\ failed_only d
  | Http (ActiveTasks _) => True
  | Http (PhaseById _) => True
  | WriteFile name _ =>
      starts_with (out_dir a ++ `"/" ++ release_title a ++ `"_") name
  | CopyFile src dst =>
      starts_with (out_dir a ++ `"/" ++ release_title a ++ `"_") src /\
      starts_with (out_dir a ++ `"/" ++ release_title a ++ `"_") dst
  end.

(** A string of decimal digits. *)
Definition digits (s : str) : Prop := Forall (fun a => is_digit a = true) s.

(** A character of ASCII. *)
Definition is_ascii (a : ascii) : bool := nat_of_ascii a <? 128.

(** [m'] does what [m] does whenever [m] ends within its fuel. *)
Definition refines {A} (m m' : M A) : Prop :=
  forall w w' r, m w = (w', r) -> r <> OutOfFuel -> m' w = (w', r).

(** The end time that [main] computes when it starts at [now] with
    [--hours h]. *)
Definition run_end_at (now : Z) (h : float) : fvalue :=
  value (fadd (float_of_int now)
              (fmul (fmul h (float_of_int 60)) (float_of_int 60))).

(** An end time that no clock ever passes: [inf] and [nan]. *)
Definition endless (run_end : fvalue) : bool :=
  match run_end with
  | PosInf | NaN => true
  | Finite _ | NegInf => false
  end.

(** [v * 2^s] on positive numbers, for [0 <= s]. *)
Definition shl (v : positive) (s : Z) : positive :=
  match s with
  | Z.pos d => Pos.iter xO v d
  | _ => v
  end.

(** The float that [float] parses from a decimal literal [m / 10^k] whose
    numerator and denominator are floats themselves: their quotient, rounded
    once. *)
Definition decimal (m : Z) (k : nat) : float :=
  SFdiv 53 1024 (float_of_int m) (float_of_int (10 ^ Z.of_nat k)).

Definition float_inf : float := S754_infinity false.
Definition float_nan : float := S754_nan.

(** ** Fixtures of the examples *)

(** A renderer for the examples: one line per row, cells between pipes. *)
Definition pipe_table (rows : list (list str)) : str :=
  join [LF] (map (fun cells => `"|" ++ join `"|" cells ++ `"|") rows).

(** A server that holds [items], answers every page request with the slice
    of that page, reports no active task and any phase asked for; every
    request takes [rtt] seconds. *)
Definition paging_server (items : list release_json) (rtt : Z) : env :=
  {| srv_login := fun _ _ _ => {| took := rtt; body := Some tt |};
     srv_search := fun _ page n _ =>
       {| took := rtt; body := Some (firstn n (skipn (page * n) items)) |};
     srv_active_tasks := fun _ _ => {| took := rtt; body := Some [] |};
     srv_phase := fun _ i =>
       {| took := rtt; body := Some {| pj_id := i; pj_title := `"Deploy" |} |};
     generate_markdown := pipe_table;
     environ := fun _ => Some `"secret";
     path_exists := fun _ => true;
     strftime := fun _ _ => `"2022.05.19 10:00" |}.

Definition release_json_ex (i : str) : release_json :=
  {| rj_id := i; rj_title := `"220519A00-Rollout"; rj_status := `"failed";
     rj_currentPhase := `"Deploy" |}.

Definition task_ex (name kind phase_title : str) : Task.t :=
  {| Task.id_long := `"Applications/Release1/Phase1/" ++ name;
     Task.id := `"Applications/Release1/Phase1/" ++ name;
     Task.phase_id := `"Applications/Release1/Phase1";
     Task.release_id := `"Release1";
     Task.title := name; Task.status := `"failed"; Task.type := kind;
     Task.phase := {| Phase.id := `"Applications/Release1/Phase1";
                      Phase.title := phase_title |} |}.

Definition release_ex (tasks : list Task.t) : Release.t :=
  {| Release.id_long := `"Applications/Release1"; Release.id := `"Release1";
     Release.title := `"220519A00-Rollout"; Release.status := `"failed";
     Release.currentPhase := `"Deploy"; Release.active_tasks := tasks;
     Release.url := `"https://xlrelease.rbgooe.at/#/releases/Applications/Release1" |}.

(** Thirty items, two full pages. *)
Definition items_ex : list release_json :=
  map (fun n => release_json_ex (`"Applications/Folder1/Release" ++ str_of_nat n))
      (seq 0 30).

(** A run of six minutes, [--hours 0.1], that collects every three
    minutes. *)
Definition args_ex : args :=
  {| out_dir := `"."; keep_files := false; release_title := `"220519A00";
     run_hours := decimal 1 1; call_every_min := 3 |}.

(** A run of one hour, the default, every three minutes. *)
Definition args_hour : args :=
  {| out_dir := `"."; keep_files := false; release_title := `"220519A00";
     run_hours := float_of_int 1; call_every_min := 3 |}.

Definition at_clock (t : Z) : world := {| clock := t; trace := [] |}.

Definition w0 : world := {| clock := 0; trace := [] |}.

Definition value_of {A} (m : M A) (w : world) : option A :=
  match snd (m w) with Val a => Some a | _ => None end.

(** A pattern that can only match text starting with [part]. *)
Definition needs_prefix (part : str) (r : re) : Prop :=
  forall R (k : cont R) pos s caps,
    strip_prefix part s = None -> matchk r k pos s caps = None.

(** ** More fixtures and vocabulary *)

Definition no_user_env (E : env) : env :=
  {| srv_login := srv_login E; srv_search := srv_search E;
     srv_active_tasks := srv_active_tasks E; srv_phase := srv_phase E;
     generate_markdown := generate_markdown E;
     environ := fun v => if str_eqb v `"XLR_USER" then None else environ E v;
     path_exists := path_exists E; strftime := strftime E |}.

Definition login_refused (E : env) : env :=
  {| srv_login := fun _ _ _ => {| took := 2; body := None |};
     srv_search := srv_search E;
     srv_active_tasks := srv_active_tasks E; srv_phase := srv_phase E;
     generate_markdown := generate_markdown E; environ := environ E;
     path_exists := path_exists E; strftime := strftime E |}.

Definition no_out_dir (E : env) : env :=
  {| srv_login := srv_login E; srv_search := srv_search E;
     srv_active_tasks := srv_active_tasks E; srv_phase := srv_phase E;
     generate_markdown := generate_markdown E; environ := environ E;
     path_exists := fun _ => false; strftime := strftime E |}.

Definition release_json_in (i phase : str) : release_json :=
  {| rj_id := i; rj_title := `"220519A00-Rollout"; rj_status := `"failed";
     rj_currentPhase := phase |}.

Definition items_mixed : list release_json :=
  [release_json_in `"Applications/Release1" `"TSTUX";
   release_json_in `"Applications/Release2" `"Deploy";
   release_json_in `"Applications/Release3" `"TSTUX"].

Definition same_page_server (items : list release_json) : env :=
  {| srv_login := fun _ _ _ => {| took := 0; body := Some tt |};
     srv_search := fun _ _ _ _ => {| took := 1; body := Some items |};
     srv_active_tasks := fun _ _ => {| took := 0; body := Some [] |};
     srv_phase := fun _ i =>
       {| took := 0; body := Some {| pj_id := i; pj_title := `"Deploy" |} |};
     generate_markdown := pipe_table;
     environ := fun _ => Some `"secret";
     path_exists := fun _ => true;
     strftime := fun _ _ => `"2022.05.19 10:00" |}.

Definition breaks_at_page (j : nat) (items : list release_json) : env :=
  {| srv_login := fun _ _ _ => {| took := 0; body := Some tt |};
     srv_search := fun _ page _ _ =>
       {| took := 1; body := if page <? j then Some items else None |};
     srv_active_tasks := fun _ _ => {| took := 0; body := Some [] |};
     srv_phase := fun _ i =>
       {| took := 0; body := Some {| pj_id := i; pj_title := `"Deploy" |} |};
     generate_markdown := pipe_table;
     environ := fun _ => Some `"secret";
     path_exists := fun _ => true;
     strftime := fun _ _ => `"2022.05.19 10:00" |}.

Definition task_json_ex (i : str) : task_json :=
  {| tj_id := i; tj_title := `"Deploy to prod"; tj_status := `"failed";
     tj_type := `"xlrelease.ScriptTask" |}.

Definition two_tasks_server : env :=
  {| srv_login := fun _ _ _ => {| took := 0; body := Some tt |};
     srv_search := fun _ _ _ _ => {| took := 1; body := Some [] |};
     srv_active_tasks := fun _ _ =>
       {| took := 1;
          body := Some [task_json_ex `"Applications/Release1/Phase2/Task3";
                        task_json_ex `"Applications/Release1/Phase2/Task4"] |};
     srv_phase := fun _ i =>
       {| took := 1; body := Some {| pj_id := i; pj_title := `"Deploy" |} |};
     generate_markdown := pipe_table;
     environ := fun _ => Some `"secret";
     path_exists := fun _ => true;
     strftime := fun _ _ => `"2022.05.19 10:00" |}.

(** The Markdown text of a report, from what was collected and the clock at
    the start of the report. *)
Definition report_md (E : env) (release_title : str) (c : collected) (now : Z) : str :=
  ((((`"# " ++ release_title ++ [LF; LF]) ++
    Release.get_md_from_releases E (releases_tag_release c)
      `"Failed items with tag: [release]") ++
   Release.get_md_from_releases E (releases_tag_applikationstests c)
     `"Failed items with tag: [applikationstests]") ++
  Release.get_md_from_releases E (releases_tag_rollout c)
    `"Failed items with tag: [rollout]") ++
  `"Time of generation: " ++ strftime E `"%Y.%m.%d %H:%M" now ++ [LF].

(** The file events of one report: the two latest files, each followed by
    its time-stamped copy when old files are kept. *)
Definition report_files (E : env) (release_title out_dir : str) (keep_files : bool)
           (md : str) (now : Z) : list event :=
  let stamp := strftime E `"%Y%m%d_%H%M" now in
  let latest := out_dir ++ `"/" ++ release_title ++ `"_LATEST.md" in
  let latest_html := out_dir ++ `"/" ++ release_title ++ `"_LATEST.md.html" in
  [WriteFile latest md] ++
  (if keep_files
   then [CopyFile latest (out_dir ++ `"/" ++ release_title ++ `"_" ++ stamp ++ `".md")]
   else []) ++
  [WriteFile latest_html ((md ++ [LF]) ++ MARKDEEP_FOOTER)] ++
  (if keep_files
   then [CopyFile latest_html
                  (out_dir ++ `"/" ++ release_title ++ `"_" ++ stamp ++ `".md.html")]
   else []).

(** [--hours -0.5] *)
Definition args_negative : args :=
  {| out_dir := `"."; keep_files := false; release_title := `"220519A00";
     run_hours := decimal (-5) 1; call_every_min := 3 |}.

(** [--hours 0.01]: 36 seconds, less than the interval. *)
Definition args_short : args :=
  {| out_dir := `"."; keep_files := false; release_title := `"220519A00";
     run_hours := decimal 1 2; call_every_min := 3 |}.

(** * Properties *)

(** ** The parser and the title pattern on sample strings *)

Example parse_ex1 :
  value_of (u_parse_xlr_id `"Applications/Folder1/Release1/Phase2/Task3/Task4" `"Release" true) w0
  = Some `"Release1".
Proof. vm_compute. reflexivity. Qed.

Example parse_ex2 :
  value_of (u_parse_xlr_id `"Applications/Folder1/Release1/Phase2/Task3/Task4" `"Phase" false) w0
  = Some `"Applications/Folder1/Release1/Phase2".
Proof. vm_compute. reflexivity. Qed.

Example parse_ex3 :
  value_of (u_parse_xlr_id (`"a/Release1" ++ [LF] ++ `"zz" ++ [LF] ++ `"b/Release2" ++ [LF] ++ `"q") `"Release" false) w0
  = Some (`"a/Release1" ++ [LF] ++ `"zz" ++ [LF] ++ `"b" ++ [LF] ++ `"q/").
Proof. vm_compute. reflexivity. Qed.

Example parse_ex4 :
  value_of (u_parse_xlr_id (`"x" ++ [LF] ++ `"a/Release1") `"Release" true) w0
  = Some (`"x" ++ [LF] ++ `"Release1").
Proof. vm_compute. reflexivity. Qed.

Example parse_ex5 :
  value_of (u_parse_xlr_id `"Applications/Release1-Phase2" `"Task" true) w0
  = Some `"Applications/Release1-Phase2-".
Proof. vm_compute. reflexivity. Qed.

Example parse_ex6 :
  value_of (u_parse_xlr_id `"-a/Release1" `"Task" true) w0 = Some `"-a/Release1/".
Proof. vm_compute. reflexivity. Qed.

Example sub_title_ex :
  sub Release.ticket_prefix nothing `"220519A00-My A-title 12A3-x A-" = `"My title x ".
Proof. vm_compute. reflexivity. Qed.

(** ** Strings and the matcher *)

Lemma ascii_eqb_true (a b : ascii) : Ascii.eqb a b = true <-> a = b.
Proof. apply Ascii.eqb_eq. Qed.

Lemma str_eqb_eq (a b : str) : str_eqb a b = true <-> a = b.
Proof.
  revert b; induction a as [|x a IH]; intros [|y b]; simpl; split;
    try discriminate; try reflexivity.
  - intros H. apply andb_true_iff in H as [H1 H2].
    apply Ascii.eqb_eq in H1. apply IH in H2. congruence.
  - intros H. injection H as -> ->. apply andb_true_iff. split.
    + apply Ascii.eqb_refl.
    + now apply IH.
Qed.

Lemma strip_prefix_app (p t : str) : strip_prefix p (p ++ t) = Some t.
Proof.
  induction p as [|x p IH]; simpl; [reflexivity|].
  now rewrite Ascii.eqb_refl.
Qed.

Lemma strip_prefix_Some (p s t : str) : strip_prefix p s = Some t -> s = p ++ t.
Proof.
  revert s; induction p as [|x p IH]; simpl; intros s H.
  - congruence.
  - destruct s as [|y s]; [discriminate|].
    destruct (Ascii.eqb x y) eqn:Exy; [|discriminate].
    apply Ascii.eqb_eq in Exy. subst y. f_equal. now apply IH.
Qed.

Lemma starts_with_strip (p s : str) :
  starts_with p s <-> exists t, strip_prefix p s = Some t.
Proof.
  split; intros [t H]; exists t.
  - subst s. apply strip_prefix_app.
  - now apply strip_prefix_Some.
Qed.

Section Star.

Variable R : Type.
Variable c : cls.
Variable k : nat -> str -> option R.

(** A greedy star whose continuation succeeds after the longest run takes
    that run. *)
Lemma star_take (run rest : str) (pos : nat) (r : R) :
  Forall (fun a => cls_in c a = true) run ->
  (rest = [] \/ exists a rest', rest = a :: rest' /\ cls_in c a = false) ->
  k (pos + length run) rest = Some r ->
  star c k pos (run ++ rest) = Some r.
Proof.
  intros Hrun Hrest. revert pos.
  induction Hrun as [|a run Ha Hrun IH]; intros pos Hk; simpl in *.
  - rewrite Nat.add_0_r in Hk.
    destruct Hrest as [->|(a & rest' & -> & Ha)]; simpl; [assumption|].
    now rewrite Ha.
  - rewrite Ha. rewrite IH; [reflexivity|].
    now replace (S pos + length run) with (pos + S (length run)) by lia.
Qed.

(** When every longer run fails, the star gives characters back down to
    the first length at which the continuation succeeds. *)
Lemma star_backtrack (run : str) (d : ascii) (tail : str) (pos : nat) (r : R) :
  Forall (fun a => cls_in c a = true) run ->
  cls_in c d = true ->
  star c k (S (pos + length run)) tail = None ->
  k (pos + length run) (d :: tail) = Some r ->
  star c k pos (run ++ d :: tail) = Some r.
Proof.
  intros Hrun Hd. revert pos.
  induction Hrun as [|a run Ha Hrun IH]; intros pos Hnone Hk; simpl in *.
  - rewrite Nat.add_0_r in *. now rewrite Hd, Hnone.
  - rewrite Ha. rewrite IH; [reflexivity| |].
    + now replace (S pos + length run) with (pos + S (length run)) by lia.
    + now replace (S pos + length run) with (pos + S (length run)) by lia.
Qed.

Lemma star_fail (s : str) :
  (forall pos u t, s = u ++ t -> k pos t = None) ->
  forall pos, star c k pos s = None.
Proof.
  induction s as [|a s IH]; intros Hk pos; simpl.
  - now apply (Hk pos []).
  - assert (Hhere : k pos (a :: s) = None) by now apply (Hk pos []).
    destruct (cls_in c a); [|assumption].
    rewrite IH; [assumption|].
    intros p u t ->. now apply (Hk p (a :: u)).
Qed.

End Star.

(** ** No pattern of the program matches the empty string *)

Lemma star_reaches R (c : cls) (k : nat -> str -> option R) (s : str) :
  forall pos res,
    star c k pos s = Some res ->
    exists pos' s', k pos' s' = Some res /\ pos <= pos'.
Proof.
  induction s as [|a s IH]; intros pos res H; simpl in H.
  - now exists pos, [].
  - destruct (cls_in c a); [|now exists pos, (a :: s)].
    destruct (star c k (S pos) s) as [r|] eqn:Hs.
    + injection H as ->. destruct (IH _ _ Hs) as (pos' & s' & Hk & Hle).
      exists pos', s'. split; [assumption|lia].
    + now exists pos, (a :: s).
Qed.

Lemma matchk_reaches R (r : re) :
  forall (k : cont R) pos s caps res,
    matchk r k pos s caps = Some res ->
    exists pos' s' caps',
      k pos' s' caps' = Some res /\ pos <= pos' /\ (consumes r = true -> pos < pos').
Proof.
  induction r as [|c|c|l|r1 IH1 r2 IH2|r1 IH1]; intros k pos s caps res H;
    cbn [matchk consumes] in *.
  - destruct (pos =? 0); [|discriminate].
    exists pos, s, caps. repeat split; [assumption|lia|discriminate].
  - destruct s as [|a s]; [discriminate|]. destruct (cls_in c a); [|discriminate].
    exists (S pos), s, caps. repeat split; [assumption|lia|lia].
  - apply star_reaches in H as (pos' & s' & Hk & Hle).
    exists pos', s', caps. repeat split; [assumption|lia|discriminate].
  - destruct (strip_prefix l s) as [s'|]; [|discriminate].
    exists (pos + length l), s', caps. repeat split; [assumption|lia|].
    destruct l; [discriminate|simpl; lia].
  - apply IH1 in H as (p1 & s1 & c1 & H & Hle1 & Hlt1).
    apply IH2 in H as (p2 & s2 & c2 & H & Hle2 & Hlt2).
    exists p2, s2, c2. repeat split; [assumption|lia|].
    intros Hc. apply orb_true_iff in Hc as [Hc|Hc]; [apply Hlt1 in Hc|apply Hlt2 in Hc]; lia.
  - apply IH1 in H as (p1 & s1 & c1 & H & Hle1 & Hlt1).
    eexists p1, s1, _. repeat split; [exact H|lia|assumption].
Qed.

(** A match of a consuming pattern is never empty, so the empty-match
    branch of [sub_from] is not taken for it. *)
Lemma match_at_consumes (r : re) (pos : nat) (s : str) (e : nat) (caps : list str) :
  consumes r = true -> match_at r pos s = Some (e, caps) -> pos < e.
Proof.
  intros Hc H. unfold match_at in H.
  apply matchk_reaches in H as (pos' & s' & caps' & H & _ & Hlt).
  injection H as -> _. now apply Hlt.
Qed.

Lemma program_patterns_consume (part : str) :
  consumes (pattern_upto part) = true /\
  consumes (pattern_last part) = true /\
  consumes Release.ticket_prefix = true.
Proof. repeat split; simpl; now rewrite ?orb_true_r. Qed.

(** ** [re.sub] when the pattern matches all of the subject, or nothing *)

Lemma sub_from_skip_all (r : re) (repl : list str -> str) (s : str) :
  forall pos,
    match_at r (pos + length s) [] = None ->
    sub_from r repl (length s) pos s = [].
Proof.
  induction s as [|a s IH]; intros pos H; simpl in *.
  - rewrite Nat.add_0_r in H. now rewrite H.
  - apply IH. now replace (S pos + length s) with (pos + S (length s)) by lia.
Qed.

Lemma sub_whole (r : re) (repl : list str -> str) (s : str) (caps : list str) :
  s <> [] ->
  match_at r 0 s = Some (length s, caps) ->
  match_at r (length s) [] = None ->
  sub r repl s = repl caps.
Proof.
  intros Hne Hm Hend. unfold sub.
  destruct s as [|a s]; [congruence|].
  simpl sub_from. rewrite Hm. simpl length. simpl Nat.sub. cbv iota.
  rewrite sub_from_skip_all by exact Hend.
  apply app_nil_r.
Qed.

Lemma sub_from_no_match (r : re) (repl : list str -> str) (s : str) :
  (forall pos u t, s = u ++ t -> match_at r pos t = None) ->
  forall pos, sub_from r repl 0 pos s = s.
Proof.
  induction s as [|a s IH]; intros H pos; simpl.
  - now rewrite (H pos [] []).
  - rewrite (H pos [] (a :: s)) by reflexivity. f_equal.
    apply IH. intros p u t ->. now apply (H p (a :: u)).
Qed.

(** ** The two patterns of [u_parse_xlr_id] *)

Lemma needs_prefix_lit (part : str) (r : re) : needs_prefix part (Seq (Lit part) r).
Proof. intros R k pos s caps H. simpl. now rewrite H. Qed.

Lemma needs_prefix_group (part : str) (r r' : re) :
  needs_prefix part (Seq (Group (Seq (Lit part) r)) r').
Proof. intros R k pos s caps H. simpl. now rewrite H. Qed.

Lemma is_delim_not_LF (d : ascii) : is_delim d = true -> cls_in Dot d = true.
Proof.
  unfold is_delim, mem, delims. simpl. intros H.
  destruct (Ascii.eqb d LF) eqn:E; [|reflexivity].
  apply Ascii.eqb_eq in E. subst d. discriminate.
Qed.

Lemma delim_then_part_none R (part : str) (r : re) (k : cont R) pos s caps :
  needs_prefix part r ->
  (forall d v, s = d :: part ++ v -> is_delim d = false) ->
  matchk (Seq (Chr (OneOf delims)) r) k pos s caps = None.
Proof.
  intros Hr H. cbn [matchk cls_in]. destruct s as [|a s]; [reflexivity|].
  destruct (mem a delims) eqn:Ha; [|reflexivity].
  destruct (strip_prefix part s) as [t|] eqn:Hp.
  - apply strip_prefix_Some in Hp. subst s.
    specialize (H a t eq_refl). unfold is_delim in H. congruence.
  - now apply Hr.
Qed.

Lemma dot_star_no_occurrence R (part : str) (r : re) (k : cont R) caps s :
  needs_prefix part r ->
  ~ occurs part s ->
  forall pos,
    star Dot (fun p t => matchk (Seq (Chr (OneOf delims)) r) k p t caps) pos s = None.
Proof.
  intros Hr Hno. apply star_fail.
  intros pos u t ->. apply delim_then_part_none with (part := part); [assumption|].
  intros d v ->. destruct (is_delim d) eqn:Hd; [|reflexivity].
  exfalso. apply Hno. now exists u, d, v.
Qed.

Lemma occurs_suffix (part u t : str) : occurs part t -> occurs part (u ++ t).
Proof.
  intros (x & d & v & -> & Hd). exists (u ++ x), d, v.
  now rewrite <- app_assoc.
Qed.

Lemma pattern_last_no_match (part s : str) :
  ~ occurs part s -> forall pos u t, s = u ++ t -> match_at (pattern_last part) pos t = None.
Proof.
  intros Hno pos u t ->. unfold match_at, pattern_last.
  apply (@dot_star_no_occurrence _ part
           (Seq (Group (Seq (Lit part) (Star (NoneOf delims)))) (Star Dot))
           (fun pos' _ caps => Some (pos', caps)) [] t).
  - apply needs_prefix_group.
  - intros H. apply Hno. now apply occurs_suffix.
Qed.

Lemma pattern_upto_no_match (part s : str) :
  ~ occurs part s -> forall pos u t, s = u ++ t -> match_at (pattern_upto part) pos t = None.
Proof.
  intros Hno pos u t ->. unfold match_at, pattern_upto.
  change (matchk (Seq Bol ?r) ?k pos t [])
    with (if pos =? 0 then matchk r k pos t [] else None).
  destruct (pos =? 0); [|reflexivity].
  apply (@dot_star_no_occurrence _ part (Seq (Lit part) (Star (NoneOf delims)))
           (fun pos' s' caps' =>
              matchk (Star Dot) (fun pos'' _ caps => Some (pos'', caps))
                     pos' s' (caps' ++ [firstn (pos' - pos) t])) [] t).
  - apply needs_prefix_lit.
  - intros H. apply Hno. now apply occurs_suffix.
Qed.

Lemma pattern_last_at_end (part : str) pos : match_at (pattern_last part) pos [] = None.
Proof. reflexivity. Qed.

Lemma pattern_upto_at_end (part : str) pos : match_at (pattern_upto part) pos [] = None.
Proof. unfold match_at, pattern_upto. cbn. now destruct (pos =? 0). Qed.

Lemma firstn_length_app {A} (a b : list A) : firstn (length a) (a ++ b) = a.
Proof. induction a as [|x a IH]; simpl; [reflexivity|now rewrite IH]. Qed.

(** The end of both patterns: the rest of the segment, then the rest of the
    line. *)
Lemma segment_then_rest R (f : nat -> nat -> R) (body rest : str) (pos : nat) :
  Forall (fun a => is_delim a = false) body ->
  (rest = [] \/ exists a rest', rest = a :: rest' /\ is_delim a = true) ->
  Forall (fun a => cls_in Dot a = true) rest ->
  star (NoneOf delims)
       (fun p s' => star Dot (fun p' _ => Some (f p p')) p s')
       pos (body ++ rest)
  = Some (f (pos + length body) (pos + length body + length rest)).
Proof.
  intros Hbody Hrest Hline.
  apply star_take.
  - eapply Forall_impl; [|exact Hbody].
    intros a Ha. cbn [cls_in]. unfold is_delim in Ha. now rewrite Ha.
  - destruct Hrest as [->|(a & rest' & -> & Ha)]; [now left|right].
    exists a, rest'. split; [reflexivity|].
    cbn [cls_in]. unfold is_delim in Ha. now rewrite Ha.
  - rewrite <- (app_nil_r rest) at 1.
    apply star_take; [assumption|now left|reflexivity].
Qed.

Section Matches.

Variables (part pre body rest : str) (d : ascii).

Let tail := part ++ body ++ rest.
Let subject := pre ++ d :: tail.

Hypothesis pre_line : Forall (fun a => cls_in Dot a = true) pre.
Hypothesis d_delim : is_delim d = true.
Hypothesis body_segment : Forall (fun a => is_delim a = false) body.
Hypothesis rest_delim :
  rest = [] \/ exists a rest', rest = a :: rest' /\ is_delim a = true.
Hypothesis rest_line : Forall (fun a => cls_in Dot a = true) rest.
Hypothesis last_one : ~ occurs part tail.

Lemma subject_length :
  length subject = S (length pre + length part) + length body + length rest.
Proof.
  unfold subject, tail. rewrite length_app. simpl. rewrite !length_app. lia.
Qed.

Lemma pattern_last_match :
  match_at (pattern_last part) 0 subject = Some (length subject, [part ++ body]).
Proof.
  unfold match_at, pattern_last.
  apply (@star_backtrack _ Dot
           (fun p t =>
              matchk (Seq (Chr (OneOf delims))
                          (Seq (Group (Seq (Lit part) (Star (NoneOf delims))))
                               (Star Dot)))
                     (fun pos' _ caps => Some (pos', caps)) p t [])
           pre d tail 0).
  - exact pre_line.
  - now apply is_delim_not_LF.
  - apply dot_star_no_occurrence with (part := part);
      [apply needs_prefix_group|exact last_one].
  - cbn [matchk cls_in]. unfold is_delim in d_delim. rewrite d_delim.
    unfold tail at 1. rewrite strip_prefix_app.
    rewrite (@segment_then_rest _
               (fun p p' => (p', [] ++ [firstn (p - S (0 + length pre)) tail])))
      by assumption.
    f_equal. f_equal.
    + rewrite subject_length. lia.
    + cbn [app]. f_equal.
      unfold tail. rewrite app_assoc.
      match goal with
      | |- firstn ?n _ = _ =>
          replace n with (length (part ++ body)) by (rewrite length_app; lia)
      end.
      apply firstn_length_app.
Qed.

Lemma pattern_upto_match :
  match_at (pattern_upto part) 0 subject
  = Some (length subject, [pre ++ d :: part ++ body]).
Proof.
  unfold match_at, pattern_upto.
  change (matchk (Seq Bol ?r) ?k 0 subject [])
    with (matchk r k 0 subject []).
  apply (@star_backtrack _ Dot
           (fun p t =>
              matchk (Seq (Chr (OneOf delims))
                          (Seq (Lit part) (Star (NoneOf delims))))
                     (fun pos' s' caps' =>
                        matchk (Star Dot) (fun pos'' _ caps => Some (pos'', caps))
                               pos' s' (caps' ++ [firstn (pos' - 0) subject]))
                     p t [])
           pre d tail 0).
  - exact pre_line.
  - now apply is_delim_not_LF.
  - apply dot_star_no_occurrence with (part := part);
      [apply needs_prefix_lit|exact last_one].
  - cbn [matchk cls_in]. unfold is_delim in d_delim. rewrite d_delim.
    unfold tail at 1. rewrite strip_prefix_app.
    rewrite (@segment_then_rest _
               (fun p p' => (p', [] ++ [firstn (p - 0) subject])))
      by assumption.
    f_equal. f_equal.
    + rewrite subject_length. lia.
    + cbn [app]. f_equal.
      unfold subject, tail.
      replace (pre ++ d :: part ++ body ++ rest)
        with ((pre ++ d :: part ++ body) ++ rest)
        by (rewrite <- app_assoc; simpl; now rewrite <- app_assoc).
      match goal with
      | |- firstn ?n _ = _ =>
          replace n with (length (pre ++ d :: part ++ body))
            by (rewrite length_app; simpl; rewrite length_app; lia)
      end.
      apply firstn_length_app.
Qed.

Lemma subject_nonempty : subject <> [].
Proof. unfold subject. now destruct pre. Qed.

Lemma sub_pattern_last : sub (pattern_last part) group1 subject = part ++ body.
Proof.
  rewrite (@sub_whole (pattern_last part) group1 subject _
             subject_nonempty pattern_last_match);
    [reflexivity|apply pattern_last_at_end].
Qed.

Lemma sub_pattern_upto :
  sub (pattern_upto part) group1 subject = pre ++ d :: part ++ body.
Proof.
  rewrite (@sub_whole (pattern_upto part) group1 subject _
             subject_nonempty pattern_upto_match);
    [reflexivity|apply pattern_upto_at_end].
Qed.

End Matches.

(** ** Segments *)

Lemma segments_nonempty (s : str) : segments s <> [].
Proof.
  destruct s as [|a s]; simpl; [discriminate|].
  destruct (is_delim a); [discriminate|].
  destruct (segments s); discriminate.
Qed.

Lemma segments_app_delim (u v : str) (d : ascii) :
  is_delim d = true -> segments (u ++ d :: v) = segments u ++ segments v.
Proof.
  intros Hd. induction u as [|a u IH]; simpl.
  - now rewrite Hd.
  - destruct (is_delim a); [now rewrite IH|].
    rewrite IH. destruct (segments u) as [|x l] eqn:Eu; [|reflexivity].
    now apply segments_nonempty in Eu.
Qed.

Lemma segments_nodelim_app (p v : str) :
  Forall (fun a => is_delim a = false) p ->
  segments (p ++ v) =
  match segments v with
  | x :: l => (p ++ x) :: l
  | [] => [p]
  end.
Proof.
  intros Hp. induction Hp as [|a p Ha Hp IH]; simpl.
  - destruct (segments v) as [|x l] eqn:Ev; [|reflexivity].
    now apply segments_nonempty in Ev.
  - rewrite Ha, IH. now destruct (segments v).
Qed.

Lemma segments_nodelim (p : str) :
  Forall (fun a => is_delim a = false) p -> segments p = [p].
Proof.
  intros Hp. rewrite <- (app_nil_r p) at 1.
  rewrite segments_nodelim_app by assumption. simpl. now rewrite app_nil_r.
Qed.

Lemma segments_cons_inv (s x : str) (l : list str) :
  segments s = x :: l ->
  Forall (fun a => is_delim a = false) x /\
  ((l = [] /\ s = x) \/
   (exists d s', s = x ++ d :: s' /\ is_delim d = true /\ segments s' = l)).
Proof.
  revert x l. induction s as [|a s IH]; simpl; intros x l H.
  - injection H as <- <-. split; [constructor|now left].
  - destruct (is_delim a) eqn:Ha.
    + injection H as <- <-. split; [constructor|right].
      now exists a, s.
    + destruct (segments s) as [|x' l'] eqn:Es; [now apply segments_nonempty in Es|].
      injection H as <- <-.
      destruct (IH x' l' eq_refl) as [Hx' Hcase]. split; [now constructor|].
      destruct Hcase as [[-> ->]|(d & s' & -> & Hd & Hs')]; [now left|right].
      now exists d, s'.
Qed.

(** A segment that is not the first one sits between a delimiter and either
    the end of the id or the next delimiter. *)
Lemma segments_split (front : list str) :
  front <> [] ->
  forall (s r : str) (back : list str),
    segments s = front ++ r :: back ->
    exists pre d rest,
      s = pre ++ d :: r ++ rest /\
      is_delim d = true /\
      Forall (fun a => is_delim a = false) r /\
      segments (r ++ rest) = r :: back /\
      (rest = [] \/ exists a rest', rest = a :: rest' /\ is_delim a = true).
Proof.
  induction front as [|f front IH]; [congruence|]. intros _ s r back H.
  simpl in H. apply segments_cons_inv in H as [_ [[Hnil _]|(d & s' & -> & Hd & Hs')]].
  - now destruct front.
  - destruct front as [|f' front].
    + simpl in Hs'. pose proof Hs' as Hs''.
      apply segments_cons_inv in Hs'' as [Hr [[-> ->]|(d' & s'' & -> & Hd' & Hb)]].
      * exists f, d, []. rewrite app_nil_r.
        repeat split; try assumption. now left.
      * exists f, d, (d' :: s''). repeat split; try assumption.
        right. now exists d', s''.
    + destruct (IH ltac:(discriminate) s' r back Hs')
        as (pre & d1 & rest & -> & Hd1 & Hr & Hseg & Hrest).
      exists (f ++ d :: pre), d1, rest. repeat split; try assumption.
      now rewrite <- app_assoc.
Qed.

Lemma occurs_segment (part s : str) :
  Forall (fun a => is_delim a = false) part ->
  occurs part s ->
  Exists (starts_with part) (tl (segments s)).
Proof.
  intros Hp (u & d & v & -> & Hd).
  rewrite segments_app_delim by assumption.
  rewrite (segments_nodelim_app v Hp).
  destruct (segments u) as [|y ys] eqn:Eu; [now apply segments_nonempty in Eu|].
  simpl. apply Exists_app. right.
  destruct (segments v) as [|x l]; apply Exists_cons_hd.
  - exists []. now rewrite app_nil_r.
  - now exists x.
Qed.

Lemma no_occurrence (part s : str) :
  Forall (fun a => is_delim a = false) part ->
  Forall (fun x => ~ starts_with part x) (tl (segments s)) ->
  ~ occurs part s.
Proof.
  intros Hp Hall Hocc. apply (occurs_segment Hp) in Hocc.
  apply Exists_exists in Hocc as (x & Hin & Hx).
  rewrite Forall_forall in Hall. exact (Hall x Hin Hx).
Qed.

(** ** The recognized part names *)

Lemma recognized_cases (part : str) :
  str_in part recognized_parts = true ->
  part = `"Release" \/ part = `"Phase" \/ part = `"Task".
Proof.
  unfold str_in, recognized_parts. simpl. intros H.
  apply orb_true_iff in H as [H|H]; [left; now apply str_eqb_eq|].
  apply orb_true_iff in H as [H|H]; [right; left; now apply str_eqb_eq|].
  apply orb_true_iff in H as [H|H]; [right; right; now apply str_eqb_eq|discriminate].
Qed.

Lemma recognized_nodelim (part : str) :
  str_in part recognized_parts = true ->
  Forall (fun a => is_delim a = false) part /\ part <> [].
Proof.
  intros H. apply recognized_cases in H as [ -> | [ -> | -> ] ];
    (split; [repeat constructor|discriminate]).
Qed.

Lemma sentinel_delim (id : str) : is_delim (sentinel id) = true.
Proof. unfold sentinel. now destruct (0 <? find_char "-" id)%Z. Qed.

Lemma single_line_dot (s : str) :
  single_line s -> Forall (fun a => cls_in Dot a = true) s.
Proof.
  intros H. eapply Forall_impl; [|exact H].
  intros a Ha. cbn [cls_in]. destruct (Ascii.eqb a LF) eqn:E; [|reflexivity].
  now apply Ascii.eqb_eq in E.
Qed.

(** ** [u_parse_xlr_id] on an id with and without a matching segment *)

Lemma u_parse_recognized (id part : str) (last : bool) (w : world) :
  str_in part recognized_parts = true ->
  u_parse_xlr_id id part last w =
  (w, Val (if last then sub (pattern_last part) group1 (id ++ [sentinel id])
           else sub (pattern_upto part) group1 (id ++ [sentinel id]))).
Proof.
  intros H. unfold u_parse_xlr_id. rewrite H. simpl. unfold ret.
  now destruct last.
Qed.

(** With no delimiter followed by the part name, neither pattern matches and
    [re.sub] hands back its subject: the id with the sentinel. *)
Lemma u_parse_no_match (id part : str) (last : bool) (w : world) :
  str_in part recognized_parts = true ->
  Forall (fun x => ~ starts_with part x) (tl (segments id)) ->
  u_parse_xlr_id id part last w = (w, Val (id ++ [sentinel id])).
Proof.
  intros Hpart Hseg. rewrite u_parse_recognized by assumption.
  destruct (recognized_nodelim _ Hpart) as [Hnd Hne].
  assert (Hno : ~ occurs part (id ++ [sentinel id])).
  { apply no_occurrence; [assumption|].
    rewrite segments_app_delim by apply sentinel_delim. simpl.
    destruct (segments id) as [|x l] eqn:Es; [now apply segments_nonempty in Es|].
    simpl in *. apply Forall_app. split; [assumption|].
    constructor; [|constructor].
    intros [t Ht]. destruct part; [congruence|discriminate]. }
  do 2 f_equal. destruct last; unfold sub; apply sub_from_no_match.
  - now apply pattern_last_no_match.
  - now apply pattern_upto_no_match.
Qed.

(** On a one-line id, the last segment after a delimiter that starts with
    the part name is what the second pattern keeps, and the first pattern
    keeps the id up to the end of that segment. *)
Lemma u_parse_last_segment (id part r : str) (front back : list str) (w : world) :
  str_in part recognized_parts = true ->
  single_line id ->
  segments id = front ++ r :: back ->
  front <> [] ->
  starts_with part r ->
  Forall (fun x => ~ starts_with part x) back ->
  exists pre d rest,
    id = pre ++ d :: r ++ rest /\
    is_delim d = true /\
    (rest = [] <-> back = []) /\
    u_parse_xlr_id id part false w = (w, Val (pre ++ d :: r)) /\
    u_parse_xlr_id id part true w = (w, Val r).
Proof.
  intros Hpart Hline Hseg Hfront [body ->] Hback.
  destruct (recognized_nodelim _ Hpart) as [Hnd Hne].
  destruct (@segments_split front Hfront id (part ++ body) back Hseg)
    as (pre & d & rest & Hid & Hd & Hr & Htail & Hrest).
  exists pre, d, rest. split; [assumption|]. split; [assumption|].
  assert (Hiff : rest = [] <-> back = []).
  { split.
    - intros ->. rewrite app_nil_r in Htail.
      rewrite segments_nodelim in Htail by assumption. congruence.
    - intros ->. destruct Hrest as [->|(a & rest' & -> & Ha)]; [reflexivity|].
      rewrite segments_app_delim in Htail by assumption.
      rewrite segments_nodelim in Htail by assumption.
      simpl in Htail. injection Htail as Htail.
      now apply segments_nonempty in Htail. }
  split; [assumption|].
  assert (Hbody : Forall (fun a => is_delim a = false) body)
    by (apply Forall_app in Hr; tauto).
  set (rest' := rest ++ [sentinel id]).
  assert (Hsubj : id ++ [sentinel id] = pre ++ d :: part ++ body ++ rest').
  { rewrite Hid at 1. unfold rest'.
    rewrite <- !app_assoc. simpl. now rewrite <- !app_assoc. }
  assert (Hline' : Forall (fun a => cls_in Dot a = true) (pre ++ d :: (part ++ body) ++ rest))
    by (apply single_line_dot; now rewrite <- Hid).
  apply Forall_app in Hline' as [Hpre Hline']. inversion Hline' as [|? ? _ Hline'']. subst.
  apply Forall_app in Hline'' as [_ Hrl].
  assert (Hrest' : rest' = [] \/ exists a t, rest' = a :: t /\ is_delim a = true).
  { right. unfold rest'. destruct Hrest as [->|(a & t & -> & Ha)].
    - exists (sentinel (pre ++ d :: (part ++ body) ++ [])), []. split; [reflexivity|].
      apply sentinel_delim.
    - now exists a, (t ++ [sentinel (pre ++ d :: (part ++ body) ++ a :: t)]). }
  assert (Hrl' : Forall (fun a => cls_in Dot a = true) rest').
  { unfold rest'. apply Forall_app. split; [assumption|].
    constructor; [|constructor]. apply is_delim_not_LF, sentinel_delim. }
  assert (Hlast : ~ occurs part (part ++ body ++ rest')).
  { apply no_occurrence; [assumption|].
    unfold rest'. rewrite !app_assoc.
    rewrite segments_app_delim by apply sentinel_delim.
    rewrite Htail. simpl. apply Forall_app. split; [assumption|].
    constructor; [|constructor].
    intros [t Ht]. destruct part; [congruence|discriminate]. }
  split.
  - rewrite u_parse_recognized by assumption. rewrite Hsubj.
    rewrite sub_pattern_upto by assumption. reflexivity.
  - rewrite u_parse_recognized by assumption. rewrite Hsubj.
    rewrite sub_pattern_last by assumption. reflexivity.
Qed.

Lemma str_in_In (x : str) (l : list str) : str_in x l = true <-> In x l.
Proof.
  unfold str_in. rewrite existsb_exists. split.
  - intros (y & Hin & Heq). apply str_eqb_eq in Heq. now subst.
  - intros Hin. exists x. split; [assumption|now apply str_eqb_eq].
Qed.

(** ** IdentifierParser: the properties *)

(** C2, as amended.  For every one-line composite id in which a segment
    after the first one starts with "Release", the parser called with part
    "Release" and [last_part_only=True] returns exactly the last such
    segment, whatever segments (Phase, Task or other) follow it. *)
Theorem parse_release_last_segment
        (id r : str) (front back : list str) (w : world) :
  single_line id ->
  segments id = front ++ r :: back ->
  front <> [] ->
  starts_with `"Release" r ->
  Forall (fun x => ~ starts_with `"Release" x) back ->
  u_parse_xlr_id id `"Release" true w = (w, Val r).
Proof.
  intros Hline Hseg Hfront Hr Hback.
  destruct (@u_parse_last_segment id `"Release" r front back w)
    as (pre & d & rest & _ & _ & _ & _ & H); try assumption.
  reflexivity.
Qed.

Lemma parse_release_last_segment_witness :
  u_parse_xlr_id `"Applications/Folder1/Release1/Phase2/Task3/Task4" `"Release" true w0
  = (w0, Val `"Release1").
Proof.
  apply (@parse_release_last_segment
           `"Applications/Folder1/Release1/Phase2/Task3/Task4" `"Release1"
           [`"Applications"; `"Folder1"] [`"Phase2"; `"Task3"; `"Task4"] w0).
  - repeat constructor; discriminate.
  - reflexivity.
  - discriminate.
  - now exists `"1".
  - repeat constructor; intros [t Ht]; discriminate.
Defined.

(** C2 as stated fails: when the only "Release" segment is the first segment
    of the id, no delimiter stands before it and the parser returns the whole
    id with the sentinel; and on an id of several lines the parser returns
    text that is no segment of the id. *)
Lemma parse_release_first_segment_counterexample :
  (segments `"Release1/Phase2" = [`"Release1"; `"Phase2"] /\
   u_parse_xlr_id `"Release1/Phase2" `"Release" true w0
   = (w0, Val `"Release1/Phase2/") /\
   `"Release1/Phase2/" <> `"Release1") /\
  (segments (`"a/Release1" ++ [LF] ++ `"b/Release2")
   = [`"a"; `"Release1" ++ [LF] ++ `"b"; `"Release2"] /\
   u_parse_xlr_id (`"a/Release1" ++ [LF] ++ `"b/Release2") `"Release" true w0
   = (w0, Val (`"Release1" ++ [LF] ++ `"b")) /\
   `"Release1" ++ [LF] ++ `"b" <> `"Release2").
Proof. repeat split; try reflexivity; discriminate. Qed.

(** C3, as amended.  For every input id and recognized part name such that
    no segment of the id starts with that part name, the parser returns the
    id with the sentinel delimiter appended (['-'] when the first hyphen of
    the id is not its first character, that is when [id.find("-") > 0];
    ['/'] otherwise, also for an id that starts with a hyphen): neither
    pattern matches and the substitution leaves its subject, which already
    carries the sentinel, as it is. *)
Theorem parse_no_segment_returns_id_with_sentinel
        (id part : str) (last_part_only : bool) (w : world) :
  In part recognized_parts ->
  Forall (fun x => ~ starts_with part x) (segments id) ->
  u_parse_xlr_id id part last_part_only w = (w, Val (id ++ [sentinel id])).
Proof.
  intros Hpart Hseg. apply u_parse_no_match.
  - now apply str_in_In.
  - destruct (segments id); [constructor|]. now inversion Hseg.
Qed.

Lemma parse_no_segment_returns_id_with_sentinel_witness :
  u_parse_xlr_id `"Applications/Folder1-x" `"Task" false w0
  = (w0, Val `"Applications/Folder1-x-").
Proof.
  apply (@parse_no_segment_returns_id_with_sentinel
           `"Applications/Folder1-x" `"Task" false w0).
  - simpl. tauto.
  - repeat constructor; intros [t Ht]; discriminate.
Defined.

(** C3 as stated fails: the id comes back with the sentinel appended, not
    unmodified. *)
Lemma parse_no_segment_counterexample :
  In `"Release" recognized_parts /\
  Forall (fun x => ~ starts_with `"Release" x) (segments `"abc") /\
  u_parse_xlr_id `"abc" `"Release" false w0 = (w0, Val `"abc/") /\
  u_parse_xlr_id `"abc" `"Release" false w0 <> (w0, Val `"abc").
Proof.
  split; [simpl; tauto|]. split.
  - repeat constructor; intros [t Ht]; discriminate.
  - split; [reflexivity|discriminate].
Qed.

(** C7, as amended.  For every one-line id and recognized part name for
    which a segment after the first one starts with the part name, the result
    with [last_part_only=False] ends with the result with
    [last_part_only=True]: the latter is the last matching segment, the former
    is the id from its start up to and including that segment. *)
Theorem parse_upto_ends_with_last
        (id part r : str) (front back : list str) (w : world) :
  In part recognized_parts ->
  single_line id ->
  segments id = front ++ r :: back ->
  front <> [] ->
  starts_with part r ->
  Forall (fun x => ~ starts_with part x) back ->
  exists pre rest,
    u_parse_xlr_id id part true w = (w, Val r) /\
    u_parse_xlr_id id part false w = (w, Val (pre ++ r)) /\
    id = (pre ++ r) ++ rest.
Proof.
  intros Hpart Hline Hseg Hfront Hr Hback. apply str_in_In in Hpart.
  destruct (@u_parse_last_segment id part r front back w)
    as (pre & d & rest & Hid & _ & _ & Hupto & Hlast); try assumption.
  exists (pre ++ [d]), rest.
  rewrite <- !app_assoc. simpl. now repeat split.
Qed.

Lemma parse_upto_ends_with_last_witness :
  exists pre rest,
    u_parse_xlr_id `"Applications/Release1/Phase2/Task3/Task4" `"Task" true w0
    = (w0, Val `"Task4") /\
    u_parse_xlr_id `"Applications/Release1/Phase2/Task3/Task4" `"Task" false w0
    = (w0, Val (pre ++ `"Task4")) /\
    `"Applications/Release1/Phase2/Task3/Task4" = (pre ++ `"Task4") ++ rest.
Proof.
  apply (@parse_upto_ends_with_last
           `"Applications/Release1/Phase2/Task3/Task4" `"Task" `"Task4"
           [`"Applications"; `"Release1"; `"Phase2"; `"Task3"] [] w0).
  - simpl. tauto.
  - repeat constructor; discriminate.
  - reflexivity.
  - discriminate.
  - now exists `"4".
  - constructor.
Defined.

(** C7 as stated fails on an id of several lines: the anchored first
    pattern cannot reach a segment on a later line and leaves the id as it
    is, while the second pattern finds the segment there.  And when the only
    segment that starts with the part name is the first segment of the id,
    the result without [last_part_only] is the whole id with the sentinel, not
    the id up to the end of that segment. *)
Lemma parse_upto_ends_with_last_counterexample :
  (segments ([LF] ++ `"/Task1") = [[LF]; `"Task1"] /\
   u_parse_xlr_id ([LF] ++ `"/Task1") `"Task" false w0
   = (w0, Val ([LF] ++ `"/Task1/")) /\
   u_parse_xlr_id ([LF] ++ `"/Task1") `"Task" true w0
   = (w0, Val ([LF] ++ `"Task1")) /\
   ~ exists pre, [LF] ++ `"/Task1/" = pre ++ [LF] ++ `"Task1")
  /\
  (segments `"Release1/Phase2" = [`"Release1"; `"Phase2"] /\
   u_parse_xlr_id `"Release1/Phase2" `"Release" false w0
   = (w0, Val `"Release1/Phase2/") /\
   `"Release1/Phase2/" <> `"Release1").
Proof.
  split; [|repeat split; discriminate].
  repeat split. intros [pre H].
  assert (Hrev : rev ([LF] ++ `"/Task1/") = rev (pre ++ [LF] ++ `"Task1"))
    by now rewrite H.
  rewrite (rev_app_distr pre) in Hrev. simpl in Hrev. discriminate.
Qed.

(** C9.  For every part name that is not one of the three recognized kinds,
    the parser logs an error and ends the process by [sys.exit(1)], a non-zero
    status; it returns no value. *)
Theorem parse_unknown_part_exits
        (id part : str) (last_part_only : bool) (w : world) :
  ~ In part recognized_parts ->
  u_parse_xlr_id id part last_part_only w
  = ({| clock := clock w;
        trace := trace w ++
                 [Log ERROR (`"(I am) unable to get " ++ part ++
                             `" from id: it's not implemented.")] |},
     Exit 1)
  /\ (1 <> 0)%Z.
Proof.
  intros Hpart. split; [|discriminate].
  unfold u_parse_xlr_id.
  destruct (str_in part recognized_parts) eqn:E.
  - exfalso. apply Hpart. now apply str_in_In.
  - reflexivity.
Qed.

Lemma parse_unknown_part_exits_witness :
  u_parse_xlr_id `"Applications/Release1" `"Folder" true w0
  = ({| clock := 0;
        trace := [Log ERROR `"(I am) unable to get Folder from id: it's not implemented."] |},
     Exit 1)
  /\ (1 <> 0)%Z.
Proof.
  apply (@parse_unknown_part_exits `"Applications/Release1" `"Folder" true w0).
  simpl. intros [H|[H|[H|[]]]]; discriminate.
Defined.

(** ** EntityModel: the Release constructor *)

Lemma Release_init_inv (E : env) (j : release_json) (w w' : world) (r : Release.t) :
  Release.init E j w = (w', Val r) ->
  Release.id_long r = rj_id j /\
  u_parse_xlr_id (rj_id j) `"Release" true w = (w, Val (Release.id r)) /\
  Release.currentPhase r = rj_currentPhase j.
Proof.
  unfold Release.init, bind.
  rewrite u_parse_recognized by reflexivity.
  destruct (Release.get_active_tasks E _ w) as [w1 [ts| | |]];
    intros H; inversion H; subst.
  split; [reflexivity|]. split; reflexivity.
Qed.

(** C4, as amended.  For every Release constructed from a one-line long id
    in which a segment after the first one starts with "Release", the short
    id is the last such segment and a strict substring of [id_long], where a
    delimiter stands before it; it is a strict suffix of [id_long] when no
    segment follows it. *)
Theorem release_id_within_id_long
        (E : env) (j : release_json) (w w' : world) (r : Release.t)
        (seg : str) (front back : list str) :
  Release.init E j w = (w', Val r) ->
  single_line (rj_id j) ->
  segments (rj_id j) = front ++ seg :: back ->
  front <> [] ->
  starts_with `"Release" seg ->
  Forall (fun x => ~ starts_with `"Release" x) back ->
  Release.id r = seg /\
  (exists pre d rest,
      is_delim d = true /\ Release.id_long r = pre ++ d :: Release.id r ++ rest) /\
  (back = [] -> strict_suffix (Release.id r) (Release.id_long r)).
Proof.
  intros Hinit Hline Hseg Hfront Hstart Hback.
  apply Release_init_inv in Hinit as (Hlong & Hid & _).
  destruct (@u_parse_last_segment (rj_id j) `"Release" seg front back w)
    as (pre & d & rest & Hsplit & Hd & Hrest & _ & Hparse); try assumption;
    [reflexivity|].
  rewrite Hparse in Hid. injection Hid as Hid. rewrite <- Hid, Hlong.
  split; [reflexivity|]. split.
  - now exists pre, d, rest.
  - intros Hb. apply Hrest in Hb. subst rest. rewrite app_nil_r in Hsplit.
    exists (pre ++ [d]). split; [now destruct pre|].
    now rewrite <- app_assoc.
Qed.

Lemma release_id_within_id_long_witness :
  exists w' r,
    Release.init (paging_server [] 0) (release_json_ex `"Applications/Folder1/Release1") w0
    = (w', Val r) /\
    Release.id r = `"Release1" /\
    strict_suffix (Release.id r) (Release.id_long r).
Proof.
  eexists. eexists. split; [reflexivity|].
  destruct (@release_id_within_id_long
              (paging_server [] 0) (release_json_ex `"Applications/Folder1/Release1")
              w0 _ _ `"Release1" [`"Applications"; `"Folder1"] [] eq_refl)
    as (Hid & _ & Hsuf).
  - repeat constructor; discriminate.
  - reflexivity.
  - discriminate.
  - now exists `"1".
  - constructor.
  - split; [exact Hid|exact (Hsuf eq_refl)].
Defined.

(** C4 as stated fails: from a long id without a "Release" segment after a
    delimiter the short id is the long id with the sentinel appended, which
    is longer than the long id; a short id followed by further segments is
    inside the long id but not at its end; and from a long id of several
    lines the short id keeps the lines before the match and is no substring
    of the long id. *)
Lemma release_id_counterexample :
  (exists w' r,
      Release.init (paging_server [] 0) (release_json_ex `"abc") w0 = (w', Val r) /\
      Release.id_long r = `"abc" /\ Release.id r = `"abc/" /\
      ~ substring (Release.id r) (Release.id_long r) /\
      ~ strict_suffix (Release.id r) (Release.id_long r)) /\
  (exists w' r,
      Release.init (paging_server [] 0)
                   (release_json_ex `"Applications/Release1/Phase2") w0 = (w', Val r) /\
      Release.id r = `"Release1" /\
      ~ strict_suffix (Release.id r) (Release.id_long r)) /\
  (exists w' r,
      Release.init (paging_server [] 0)
                   (release_json_ex (`"x" ++ [LF] ++ `"a/Release1")) w0 = (w', Val r) /\
      Release.id r = `"x" ++ [LF] ++ `"Release1" /\
      ~ substring (Release.id r) (Release.id_long r)).
Proof.
  split; [|split].
  - eexists. eexists. split; [reflexivity|]. simpl.
    split; [reflexivity|]. split; [reflexivity|]. split.
    + intros (u & v & H). apply (f_equal (@length ascii)) in H.
      rewrite !length_app in H. simpl in H. lia.
    + intros (u & _ & H). apply (f_equal (@length ascii)) in H.
      rewrite !length_app in H. simpl in H. lia.
  - eexists. eexists. split; [reflexivity|]. simpl.
    split; [reflexivity|].
    intros (u & _ & H). apply (f_equal (@rev ascii)) in H.
    rewrite rev_app_distr in H. simpl in H. discriminate.
  - eexists. eexists. split; [reflexivity|]. simpl.
    split; [reflexivity|].
    intros (u & v & H).
    destruct u as [|a1 [|a2 [|a3 u]]]; simpl in H; try discriminate.
    apply (f_equal (@length ascii)) in H.
    simpl in H. rewrite !length_app in H. simpl in H. lia.
Qed.

(** ** ReportBuilder: the properties *)

Lemma active_cells_last (earlier : list Task.t) (last : Task.t) :
  Release.active_cells (earlier ++ [last])
  = (Phase.title (Task.phase last), Task.title last, Task.type last).
Proof. unfold Release.active_cells. now rewrite fold_left_app. Qed.

(** C6.  For every release with active tasks [earlier] followed by [last]
    (two or more when [earlier] is not empty), the row generated for it holds
    the phase title, task title and task type of [last] only: each turn of
    the loop overwrites the three cells, so the row is the one of the same
    release with [last] as its single active task and does not depend on the
    earlier tasks. *)
Theorem row_shows_last_active_task
        (release : Release.t) (earlier : list Task.t) (last : Task.t) :
  Release.active_tasks release = earlier ++ [last] ->
  Release.row release
  = [`" [" ++ sub Release.ticket_prefix nothing (Release.title release) ++ `"](" ++
     Release.url release ++ `")";
     Release.status release;
     Phase.title (Task.phase last);
     Task.title last;
     Task.type last]
  /\ Release.row release = Release.row (with_active_tasks [last] release).
Proof.
  intros H. unfold Release.row. rewrite H, active_cells_last. simpl.
  split; reflexivity.
Qed.

Lemma row_shows_last_active_task_witness :
  Release.row (release_ex [task_ex `"TaskA" `"xlrelease.Task" `"Build";
                           task_ex `"TaskB" `"xlrelease.GateTask" `"Deploy"])
  = [`" [Rollout](https://xlrelease.rbgooe.at/#/releases/Applications/Release1)";
     `"failed"; `"Deploy"; `"TaskB"; `"xlrelease.GateTask"].
Proof.
  destruct (@row_shows_last_active_task
              (release_ex [task_ex `"TaskA" `"xlrelease.Task" `"Build";
                           task_ex `"TaskB" `"xlrelease.GateTask" `"Deploy"])
              [task_ex `"TaskA" `"xlrelease.Task" `"Build"]
              (task_ex `"TaskB" `"xlrelease.GateTask" `"Deploy") eq_refl) as [H _].
  exact H.
Defined.

Lemma lines_nonempty (s : str) : lines s <> [].
Proof.
  destruct s as [|a s]; simpl; [discriminate|].
  destruct (Ascii.eqb a LF); [discriminate|].
  destruct (lines s); discriminate.
Qed.

Lemma lines_app_LF (u v : str) : lines (u ++ LF :: v) = lines u ++ lines v.
Proof.
  induction u as [|a u IH]; simpl; [reflexivity|].
  destruct (Ascii.eqb a LF); [now rewrite IH|].
  rewrite IH. destruct (lines u) as [|x l] eqn:Eu; [|reflexivity].
  now apply lines_nonempty in Eu.
Qed.

Lemma lines_single_line (s : str) : single_line s -> lines s = [s].
Proof.
  induction 1 as [|a s Ha Hs IH]; simpl; [reflexivity|].
  destruct (Ascii.eqb a LF) eqn:E; [now apply Ascii.eqb_eq in E|].
  now rewrite IH.
Qed.

Lemma lines_cons_hd (p s : str) :
  single_line p -> lines (p ++ s) = (p ++ hd [] (lines s)) :: tl (lines s).
Proof.
  induction 1 as [|a p Ha Hp IH]; simpl.
  - destruct (lines s) as [|x l] eqn:Es; [now apply lines_nonempty in Es|reflexivity].
  - destruct (Ascii.eqb a LF) eqn:E; [now apply Ascii.eqb_eq in E|].
    now rewrite IH.
Qed.

(** C8, as amended.  For the empty release list the section is the header
    line followed by the line "No releases found." and an empty line, with no
    table; for every non-empty list the section is the header line followed
    by the rendered table (the header row and one row per release) and a line
    feed.  The code then appends no "No releases found." line of its own: the
    section holds such a line exactly when the title has it as a line after
    its first, or the rendered table has it as a line. *)
Theorem section_of_releases (E : env) (title : str) :
  Release.get_md_from_releases E [] title
  = `"## " ++ title ++ [LF] ++ `"No releases found." ++ [LF; LF]
  /\
  forall releases : list Release.t,
    releases <> [] ->
    let table :=
      generate_markdown E (Release.header_row :: map Release.row releases) in
    Release.get_md_from_releases E releases title
    = `"## " ++ title ++ [LF] ++ table ++ [LF]
    /\
    (In `"No releases found." (lines (Release.get_md_from_releases E releases title))
     <-> In `"No releases found." (tl (lines title)) \/
         In `"No releases found." (lines table)).
Proof.
  split.
  - unfold Release.get_md_from_releases. simpl. now rewrite <- !app_assoc.
  - intros releases Hne table.
    assert (Heq : Release.get_md_from_releases E releases title
                  = `"## " ++ title ++ [LF] ++ table ++ [LF]).
    { unfold Release.get_md_from_releases.
      destruct releases as [|r l]; [congruence|].
      simpl. now rewrite <- !app_assoc. }
    split; [exact Heq|].
    rewrite Heq.
    change (`"## " ++ title ++ [LF] ++ table ++ [LF])
      with (`"## " ++ title ++ LF :: table ++ [LF]).
    rewrite app_assoc, lines_app_LF, lines_app_LF.
    rewrite lines_cons_hd by (repeat constructor; discriminate).
    cbn [lines]. split.
    + intros [Hin|Hin]; [discriminate|].
      apply in_app_or in Hin as [Hin|Hin]; [now left|].
      apply in_app_or in Hin as [Hin|[Hin|[]]]; [now right|discriminate].
    + intros [Hin|Hin]; right; apply in_or_app; [now left|right].
      apply in_or_app. now left.
Qed.

Lemma section_of_releases_witness :
  Release.get_md_from_releases (paging_server [] 0) [] `"Failed items with tag: [release]"
  = `"## Failed items with tag: [release]" ++ [LF] ++ `"No releases found." ++ [LF; LF]
  /\
  Release.get_md_from_releases (paging_server [] 0) [release_ex []]
                               `"Failed items with tag: [release]"
  = `"## Failed items with tag: [release]" ++ [LF] ++
    `"|Release|Status|Active Phase|Active task|Task type|" ++ [LF] ++
    `"| [Rollout](https://xlrelease.rbgooe.at/#/releases/Applications/Release1)|failed|-|-|-|"
    ++ [LF]
  /\
  ~ In `"No releases found."
       (lines (Release.get_md_from_releases (paging_server [] 0) [release_ex []]
                                            `"Failed items with tag: [release]")).
Proof.
  destruct (section_of_releases (paging_server [] 0) `"Failed items with tag: [release]")
    as [Hempty Hfull].
  split; [exact Hempty|].
  destruct (Hfull [release_ex []] ltac:(discriminate)) as [Heq Hno].
  split; [exact Heq|].
  intros Hin. apply Hno in Hin. vm_compute in Hin.
  destruct Hin as [[]|[Hin|[Hin|[]]]]; discriminate.
Defined.

(** C8 as stated fails for a non-empty list: whatever the renderer, a title
    of two lines whose second is "No releases found." puts that line into the
    section. *)
Lemma section_of_releases_counterexample :
  [release_ex []] <> [] /\
  In `"No releases found."
     (lines (Release.get_md_from_releases
               (paging_server [] 0) [release_ex []]
               (`"Failed items" ++ [LF] ++ `"No releases found."))).
Proof.
  split; [discriminate|]. vm_compute. right. left. reflexivity.
Qed.

(** ** The monad and the trace *)

Lemma bind_val {A B} (m : M A) (f : A -> M B) (w w' : world) (a : A) :
  m w = (w', Val a) -> bind m f w = f a w'.
Proof. intros H. unfold bind. now rewrite H. Qed.

Arguments bind_val {A B m} f {w w' a} _.

Lemma search_pages_of_app (tr tr' : list event) :
  search_pages_of (tr ++ tr') = search_pages_of tr ++ search_pages_of tr'.
Proof.
  induction tr as [|e tr IH]; simpl; [reflexivity|].
  destruct e as [| |[]| | |]; simpl; now rewrite IH.
Qed.

Lemma quiet_refl (w : world) : quiet w w.
Proof. reflexivity. Qed.

Lemma quiet_trans (w1 w2 w3 : world) : quiet w1 w2 -> quiet w2 w3 -> quiet w1 w3.
Proof. unfold quiet. congruence. Qed.

Lemma http_ok {A} (r : request) (ans : Z -> reply A) (w : world) (a : A) :
  body (ans (clock w)) = Some a ->
  http r ans w
  = ({| clock := (clock w + took (ans (clock w)))%Z; trace := trace w ++ [Http r] |},
     Val a).
Proof. intros H. unfold http. now rewrite H. Qed.

Arguments http_ok {A} r ans w {a} _.

Lemma logger_quiet (lv : level) (msg : str) (w : world) :
  exists w', logger lv msg w = (w', Val tt) /\ quiet w w'.
Proof.
  eexists. split; [reflexivity|]. unfold quiet. simpl.
  rewrite search_pages_of_app. simpl. apply app_nil_r.
Qed.

Lemma map_m_ok {A B} (f : A -> M B) (Q : A -> B -> Prop) (l : list A) :
  (forall x w, exists w' y, f x w = (w', Val y) /\ quiet w w' /\ Q x y) ->
  forall w, exists w' ys, map_m f l w = (w', Val ys) /\ quiet w w' /\ Forall2 Q l ys.
Proof.
  intros Hf. induction l as [|x l IH]; intros w; simpl.
  - exists w, []. repeat split. constructor.
  - destruct (Hf x w) as (w1 & y & Hy & Hq1 & HQ).
    destruct (IH w1) as (w2 & ys & Hys & Hq2 & HQs).
    exists w2, (y :: ys). split.
    + rewrite (bind_val _ Hy). rewrite (bind_val _ Hys). reflexivity.
    + split; [now apply quiet_trans with w1|now constructor].
Qed.

Lemma filter_all {A} (f : A -> bool) (l : list A) :
  Forall (fun x => f x = true) l -> filter f l = l.
Proof. induction 1 as [|x l Hx _ IH]; simpl; [reflexivity|now rewrite Hx, IH]. Qed.

(** ** EntityModel: hydration goes through when the server answers *)

Section Hydration.

Variable E : env.
Hypothesis server_ok : hydration_ok E.

Lemma get_phase_by_id_ok (i : str) (w : world) :
  exists w' p, Phase.get_phase_by_id E i w = (w', Val p) /\ quiet w w'.
Proof.
  destruct server_ok as [_ Hphase].
  destruct (body (srv_phase E (clock w) i)) as [p|] eqn:Hb;
    [|now apply Hphase in Hb].
  eexists. exists (Phase.init p). split.
  - unfold Phase.get_phase_by_id.
    rewrite (bind_val _ (http_ok (PhaseById i) (fun now => srv_phase E now i) w Hb)).
    reflexivity.
  - unfold quiet. simpl. rewrite search_pages_of_app. simpl. apply app_nil_r.
Qed.

Lemma Task_init_ok (j : task_json) (w : world) :
  exists w' t, Task.init E j w = (w', Val t) /\ quiet w w' /\ True.
Proof.
  unfold Task.init.
  rewrite (bind_val _ (u_parse_recognized (tj_id j) `"Task" false w eq_refl)).
  rewrite (bind_val _ (u_parse_recognized (tj_id j) `"Phase" false w eq_refl)).
  rewrite (bind_val _ (u_parse_recognized (tj_id j) `"Release" true w eq_refl)).
  match goal with
  | |- context [Phase.get_phase_by_id E ?i] =>
      destruct (get_phase_by_id_ok i w) as (w' & p & Hp & Hq)
  end.
  rewrite (bind_val _ Hp). eexists. eexists. split; [reflexivity|]. now split.
Qed.

Lemma get_active_tasks_ok (i : str) (w : world) :
  exists w' ts, Release.get_active_tasks E i w = (w', Val ts) /\ quiet w w'.
Proof.
  destruct server_ok as [Htasks _].
  destruct (body (srv_active_tasks E (clock w) i)) as [js|] eqn:Hb;
    [|now apply Htasks in Hb].
  unfold Release.get_active_tasks.
  rewrite (bind_val _ (http_ok (ActiveTasks i)
                               (fun now => srv_active_tasks E now i) w Hb)).
  match goal with
  | |- context [map_m ?f js ?w1] =>
      destruct (map_m_ok f (fun _ _ => True) js Task_init_ok w1)
        as (w' & ts & Hts & Hq & _)
  end.
  exists w', ts. split; [assumption|].
  eapply quiet_trans; [|exact Hq].
  unfold quiet. simpl. rewrite search_pages_of_app. simpl. apply app_nil_r.
Qed.

Lemma Release_init_ok (j : release_json) (w : world) :
  exists w' r, Release.init E j w = (w', Val r) /\ quiet w w' /\ built_from j r.
Proof.
  unfold Release.init.
  rewrite (bind_val _ (u_parse_recognized (rj_id j) `"Release" true w eq_refl)).
  match goal with
  | |- context [Release.get_active_tasks E ?i] =>
      destruct (get_active_tasks_ok i w) as (w' & ts & Hts & Hq)
  end.
  rewrite (bind_val _ Hts). eexists. eexists.
  split; [reflexivity|]. split; [assumption|]. now split.
Qed.

End Hydration.

(** ** SearchAggregator: pagination *)

Section Pagination.

Variable E : env.
Variable items : list release_json.
Variable k : nat.
Variable exceptPhases : list str.
Variable data : search_data.

Let N := Release.resultsPerPage.
Let slice (page : nat) := firstn N (skipn (page * N) items).

Hypothesis server_ok : hydration_ok E.
Hypothesis paging : serves E items.
Hypothesis full_pages : length items = N * k.
Hypothesis none_excluded :
  forall x, In x items -> str_in (rj_currentPhase x) exceptPhases = false.

Lemma slice_full (page : nat) : page < k -> length (slice page) = N.
Proof.
  intros H. unfold slice. rewrite length_firstn, length_skipn, full_pages.
  unfold N, Release.resultsPerPage in *. nia.
Qed.

Lemma slice_last : slice k = [].
Proof.
  unfold slice. rewrite skipn_all2; [now rewrite firstn_nil|].
  rewrite full_pages. lia.
Qed.

Lemma slice_next (page : nat) :
  skipn (page * N) items = slice page ++ skipn (S page * N) items.
Proof.
  unfold slice. replace (S page * N) with (N + page * N) by lia.
  rewrite <- skipn_skipn. symmetry. apply firstn_skipn.
Qed.

Lemma slice_in (page : nat) (x : release_json) : In x (slice page) -> In x items.
Proof.
  unfold slice. intros H.
  rewrite <- (firstn_skipn (page * N) items). apply in_or_app. right.
  rewrite <- (firstn_skipn N (skipn (page * N) items)). apply in_or_app. now left.
Qed.

Lemma kept_all (cis : list release_json) (rs : list Release.t) :
  (forall x, In x cis -> In x items) ->
  Forall2 built_from cis rs ->
  filter (fun x => negb (str_in (Release.currentPhase x) exceptPhases)) rs = rs.
Proof.
  intros Hsub H. apply filter_all.
  induction H as [|j r cis rs [_ Hph] _ IH]; constructor.
  - rewrite Hph, none_excluded; [reflexivity|]. apply Hsub. now left.
  - apply IH. intros x Hx. apply Hsub. now right.
Qed.

(** From page [page] on, the loop asks for the [n + 1] pages up to page
    [k] and appends the releases of the items from that page on. *)
Lemma search_pages_from (n : nat) :
  forall page acc w fuel,
    page + n = k ->
    n < fuel ->
    exists w' rs,
      Release.search_pages E fuel data exceptPhases acc page w
      = (w', Val (acc ++ rs)) /\
      Forall2 built_from (skipn (page * N) items) rs /\
      search_pages_of (trace w') = search_pages_of (trace w) ++ seq page (S n).
Proof.
  induction n as [|n IH]; intros page acc w fuel Hk Hfuel;
    (destruct fuel as [|fuel]; [lia|]); cbn [Release.search_pages];
    pose proof (paging (clock w) page N data) as Hpage; fold (slice page) in Hpage;
    rewrite (bind_val _ (http_ok (Search page Release.resultsPerPage false data)
                                 (fun now => srv_search E now page
                                               Release.resultsPerPage data)
                                 w Hpage)).
  - assert (page = k) by lia. subst page. rewrite slice_last.
    cbn [map_m]. rewrite (bind_val _ eq_refl). cbn [length Nat.eqb].
    exists {| clock := (clock w + took (srv_search E (clock w) k
                                          Release.resultsPerPage data))%Z;
              trace := trace w ++
                       [Http (Search k Release.resultsPerPage false data)] |}, [].
    rewrite app_nil_r. split; [reflexivity|]. split.
    + rewrite skipn_all2; [constructor|]. rewrite full_pages. fold N. lia.
    + simpl. rewrite search_pages_of_app. reflexivity.
  - assert (Hlt : page < k) by lia.
    match goal with
    | |- context [bind (map_m (Release.init E) (slice page)) _ ?w1] =>
        destruct (map_m_ok (Release.init E) built_from (slice page)
                           (Release_init_ok server_ok) w1)
          as (w2 & rs1 & Hrs1 & Hq & Hbuilt);
        set (w1' := w1) in *
    end.
    rewrite (bind_val _ Hrs1).
    assert (Hlen : length rs1 = N)
      by (rewrite <- (Forall2_length Hbuilt); now apply slice_full).
    rewrite (kept_all (cis := slice page)); [|apply slice_in|assumption].
    rewrite Hlen. change (N =? 0) with false. cbv iota.
    rewrite Nat.eqb_refl. cbn [negb].
    destruct (logger_quiet INFO (str_of_nat N ++ `" found.") w2)
      as (w3 & Hw3 & Hq3).
    rewrite (bind_val _ Hw3). rewrite (bind_val _ (eq_refl : ret tt w3 = (w3, Val tt))).
    destruct (IH (S page) (acc ++ rs1) w3 fuel ltac:(lia) ltac:(lia))
      as (w' & rs2 & Hloop & Hbuilt2 & Hpages).
    exists w', (rs1 ++ rs2). split; [now rewrite app_assoc|]. split.
    + rewrite slice_next. now apply Forall2_app.
    + rewrite Hpages. unfold quiet in Hq3, Hq. rewrite Hq3, Hq.
      unfold w1'. simpl. rewrite search_pages_of_app. simpl.
      now rewrite <- app_assoc.
Qed.

End Pagination.

Lemma built_from_ids (cis : list release_json) (rs : list Release.t) :
  Forall2 built_from cis rs -> map Release.id_long rs = map rj_id cis.
Proof.
  induction 1 as [|j r cis rs [Hid _] _ IH]; simpl; [reflexivity|].
  now rewrite Hid, IH.
Qed.

(** C5.  When the server holds exactly [resultsPerPage * k] matching items,
    serves them page by page, and no item is in an excluded phase,
    [search_releases] returns (with fuel for [k + 1] turns of its loop) after
    asking for exactly the pages [0, 1, ..., k] in this order; the pages below
    [k] come back full, page [k] comes back empty and ends the loop; the
    result holds one release per item, in the order of the items:
    [resultsPerPage * k] releases, without duplicates when the items have
    distinct ids. *)
Theorem search_releases_paginates
        (E : env) (items : list release_json) (k fuel : nat)
        (title : str) (tags : list str) (statuses : status_dict)
        (exceptPhases : list str) (w : world) :
  hydration_ok E ->
  serves E items ->
  length items = Release.resultsPerPage * k ->
  (forall x, In x items -> str_in (rj_currentPhase x) exceptPhases = false) ->
  k < fuel ->
  exists w' releases,
    Release.search_releases E fuel title tags statuses exceptPhases w
    = (w', Val releases) /\
    search_pages_of (trace w') = search_pages_of (trace w) ++ seq 0 (k + 1) /\
    (forall now data page,
        page < k ->
        exists cis,
          body (srv_search E now page Release.resultsPerPage data) = Some cis /\
          length cis = Release.resultsPerPage) /\
    (forall now data,
        body (srv_search E now k Release.resultsPerPage data) = Some []) /\
    map Release.id_long releases = map rj_id items /\
    length releases = Release.resultsPerPage * k /\
    (NoDup (map rj_id items) -> NoDup releases).
Proof.
  intros Hok Hserves Hlen Hphases Hfuel.
  unfold Release.search_releases.
  rewrite (bind_val _ (eq_refl : time_now w = (w, Val (clock w)))).
  match goal with
  | |- context [bind (logger INFO ?msg) _ w] =>
      destruct (logger_quiet INFO msg w) as (w1 & Hw1 & Hq1)
  end.
  rewrite (bind_val _ Hw1).
  match goal with
  | |- context [Release.search_pages E fuel ?data exceptPhases [] 0] =>
      destruct (@search_pages_from E items k exceptPhases data Hok Hserves Hlen
                                   Hphases k 0 [] w1 fuel eq_refl Hfuel)
        as (w2 & rs & Hloop & Hbuilt & Hpages)
  end.
  rewrite (bind_val _ Hloop).
  rewrite (bind_val _ (eq_refl : time_now w2 = (w2, Val (clock w2)))).
  change ([] ++ rs) with rs in *.
  change (skipn (0 * Release.resultsPerPage) items) with items in Hbuilt.
  match goal with
  | |- context [bind ?m _ w2] =>
      assert (Hlog : exists w3, m w2 = (w3, Val tt) /\ quiet w2 w3)
        by (destruct (length rs =? 0); [|destruct (length rs =? 1)];
            apply logger_quiet)
  end.
  destruct Hlog as (w3 & Hw3 & Hq3).
  rewrite (bind_val _ Hw3).
  eexists. eexists. split; [reflexivity|].
  assert (Hids : map Release.id_long rs = map rj_id items)
    by now apply built_from_ids.
  split; [|split; [|split; [|split; [|split]]]].
  - unfold quiet in Hq3, Hq1. rewrite Hq3, Hpages, Hq1.
    now rewrite Nat.add_1_r.
  - intros now data page Hpage. eexists. split; [apply Hserves|].
    now apply slice_full with (k := k).
  - intros now data. rewrite Hserves. f_equal. now apply slice_last.
  - rewrite map_map. simpl. exact Hids.
  - rewrite length_map. transitivity (length (map Release.id_long rs)).
    + symmetry. apply length_map.
    + now rewrite Hids, length_map.
  - intros Hnodup. apply NoDup_map_inv with (f := Release.id_long).
    rewrite map_map. change (NoDup (map Release.id_long rs)). now rewrite Hids.
Qed.

Lemma search_releases_paginates_witness :
  exists w' releases,
    Release.search_releases (paging_server items_ex 1) 3 `"220519A00"
                            [`"drb"; `"release"] STATUS_ONLY_FAILED [] w0
    = (w', Val releases) /\
    search_pages_of (trace w') = [0; 1; 2] /\
    length releases = 30.
Proof.
  destruct (@search_releases_paginates
              (paging_server items_ex 1) items_ex 2 3 `"220519A00"
              [`"drb"; `"release"] STATUS_ONLY_FAILED [] w0)
    as (w' & rs & Hrun & Hpages & _ & _ & _ & Hlen & _).
  - split; intros now i; discriminate.
  - intros now page n data. reflexivity.
  - reflexivity.
  - intros x _. reflexivity.
  - lia.
  - exists w', rs. split; [exact Hrun|]. split; [exact Hpages|exact Hlen].
Defined.

(** ** PollLoop *)

(** What one turn of the loop does when the report is written and neither
    [break] is taken: it sleeps exactly when the report was finished after
    the scheduled tick, for as long as it was late, and logs the warning
    otherwise. *)
Lemma poll_cycle_continue
      (E : env) (fuel : nat) (a : args) (run_end : fvalue) (w w1 : world) :
  gt_end (clock w) run_end = false ->
  generate_report E fuel (release_title a) (out_dir a) (keep_files a) w = (w1, Val tt) ->
  gt_end (clock w + call_every_min a * 60) run_end = false ->
  let late := (clock w1 - (clock w + call_every_min a * 60))%Z in
  poll_cycle E fuel a run_end w =
  if (0 <? late)%Z then
    ({| clock := (clock w1 + late)%Z;
        trace := (trace w1 ++
                  [Log INFO (`"Waiting " ++ str_of_Z late ++ `" seconds...")]) ++
                 [Sleep late] |},
     Val true)
  else
    ({| clock := clock w1;
        trace := trace w1 ++
                 [Log WARNING (`"Wait time too low. (" ++ str_of_Z late ++ `")")] |},
     Val true).
Proof.
  intros Hnow Hgen Hnext late. unfold poll_cycle.
  rewrite (bind_val _ (eq_refl : time_now w = (w, Val (clock w)))).
  rewrite (bind_val _ (eq_refl : time_now w = (w, Val (clock w)))).
  rewrite Hnow. rewrite (bind_val _ Hgen).
  rewrite (bind_val _ (eq_refl : time_now w1 = (w1, Val (clock w1)))).
  rewrite Hnext. fold late.
  destruct (0 <? late)%Z; reflexivity.
Qed.

(** C1, on the code.  A turn of the loop that is not the last, with an
    interval of three minutes.  When the report takes 30 seconds the turn logs
    the warning "Wait time too low. (-150)" and does not sleep: the next turn
    starts at once, 150 seconds before the scheduled tick.  When the report
    takes 210 seconds, 30 more than the interval, the turn logs "Waiting 30
    seconds..." and sleeps 30 seconds.  The sign of [sleep_time_s] is the
    opposite of the one the two log records and the name [next_run] are
    written for. *)
Theorem poll_cycle_sleep_is_inverted :
  (let (w', r) := poll_cycle (paging_server [] 10) 5 args_hour
                               (inject_Z 1000 + 3600)%Q (at_clock 1000) in
   r = Val true /\
   clock w' = 1030%Z /\
   sleeps_of (trace w') = [] /\
   logged_at WARNING (trace w') = [`"Wait time too low. (-150)"])
  /\
  (let (w', r) := poll_cycle (paging_server [] 70) 5 args_hour
                               (inject_Z 1000 + 3600)%Q (at_clock 1000) in
   r = Val true /\
   clock w' = 1240%Z /\
   sleeps_of (trace w') = [30%Z] /\
   logged_at WARNING (trace w') = [] /\
   In `"Waiting 30 seconds..." (logged_at INFO (trace w'))).
Proof.
  split.
  - vm_compute. repeat split.
  - vm_compute. repeat split. tauto.
Qed.

(** ** The script *)

Lemma log_run_parameters_val (a : args) (w : world) :
  log_run_parameters a w = (fst (log_run_parameters a w), Val tt).
Proof. reflexivity. Qed.

(** * Further properties of the code *)

(** ** What a computation may add to the trace *)

Lemma emits_only_weaken {A} (P Q : event -> Prop) (m : M A) :
  (forall e, P e -> Q e) -> emits_only P m -> emits_only Q m.
Proof.
  intros HPQ Hm w. destruct (Hm w) as (tr & Htr & HP).
  exists tr. split; [assumption|]. eapply Forall_impl; [exact HPQ|exact HP].
Qed.

Lemma emits_only_silent {A} (P : event -> Prop) (m : M A) :
  (forall w, trace (fst (m w)) = trace w) -> emits_only P m.
Proof.
  intros H w. exists []. rewrite app_nil_r. split; [apply H|constructor].
Qed.

Lemma emits_only_ret {A} (P : event -> Prop) (a : A) : emits_only P (ret a).
Proof. now apply emits_only_silent. Qed.

Lemma emits_only_emit (P : event -> Prop) (e : event) : P e -> emits_only P (emit e).
Proof. intros He w. exists [e]. split; [reflexivity|now constructor]. Qed.

Lemma emits_only_bind {A B} (P : event -> Prop) (m : M A) (f : A -> M B) :
  emits_only P m -> (forall a, emits_only P (f a)) -> emits_only P (bind m f).
Proof.
  intros Hm Hf w. destruct (Hm w) as (tr1 & Htr1 & HP1). unfold bind.
  destruct (m w) as [w1 [a| | |]]; simpl in Htr1;
    try (exists tr1; now split).
  destruct (Hf a w1) as (tr2 & Htr2 & HP2).
  exists (tr1 ++ tr2). split.
  - now rewrite Htr2, Htr1, app_assoc.
  - now apply Forall_app.
Qed.

Lemma emits_only_http {A} (P : event -> Prop) (r : request) (ans : Z -> reply A) :
  P (Http r) -> emits_only P (http r ans).
Proof.
  intros Hr w. exists [Http r]. unfold http.
  destruct (body (ans (clock w))); (split; [reflexivity|now constructor]).
Qed.

Lemma emits_only_map_m {A B} (P : event -> Prop) (f : A -> M B) (l : list A) :
  (forall x, emits_only P (f x)) -> emits_only P (map_m f l).
Proof.
  intros Hf. induction l as [|x l IH]; simpl.
  - apply emits_only_ret.
  - apply emits_only_bind; [apply Hf|]. intros y.
    apply emits_only_bind; [exact IH|]. intros ys. apply emits_only_ret.
Qed.

Lemma emits_only_u_parse (P : event -> Prop) (id part : str) (last : bool) :
  str_in part recognized_parts = true ->
  emits_only P (u_parse_xlr_id id part last).
Proof.
  intros Hpart. apply emits_only_silent. intros w.
  now rewrite u_parse_recognized.
Qed.

Section Emissions.

Variable E : env.
Variable P : event -> Prop.
Hypothesis P_tasks : forall i, P (Http (ActiveTasks i)).
Hypothesis P_phase : forall i, P (Http (PhaseById i)).

Lemma emits_only_Task_init (j : task_json) : emits_only P (Task.init E j).
Proof.
  unfold Task.init.
  repeat (apply emits_only_bind; [now apply emits_only_u_parse|]; intros ?).
  apply emits_only_bind; [|intros ?; apply emits_only_ret].
  unfold Phase.get_phase_by_id.
  apply emits_only_bind; [|intros ?; apply emits_only_ret].
  apply emits_only_http, P_phase.
Qed.

Lemma emits_only_Release_init (j : release_json) : emits_only P (Release.init E j).
Proof.
  unfold Release.init.
  apply emits_only_bind; [now apply emits_only_u_parse|]. intros i.
  apply emits_only_bind; [|intros ?; apply emits_only_ret].
  unfold Release.get_active_tasks.
  apply emits_only_bind; [apply emits_only_http, P_tasks|]. intros js.
  apply emits_only_map_m, emits_only_Task_init.
Qed.

Hypothesis P_info : forall msg, P (Log INFO msg).

Lemma emits_only_search_pages (data : search_data) (ex : list str) (fuel : nat) :
  (forall page, P (Http (Search page Release.resultsPerPage false data))) ->
  forall acc page, emits_only P (Release.search_pages E fuel data ex acc page).
Proof.
  intros P_search. induction fuel as [|fuel IH]; intros acc page; simpl.
  - now apply emits_only_silent.
  - apply emits_only_bind; [apply emits_only_http, P_search|]. intros cis.
    apply emits_only_bind; [apply emits_only_map_m, emits_only_Release_init|].
    intros rs. destruct (length rs =? 0); [apply emits_only_ret|].
    apply emits_only_bind; [apply emits_only_emit, P_info|]. intros _.
    apply emits_only_bind; [|intros _; apply IH].
    destruct (negb _); [apply emits_only_emit, P_info|apply emits_only_ret].
Qed.

Lemma emits_only_search_releases
      (fuel : nat) (title : str) (tags : list str) (statuses : status_dict)
      (ex : list str) :
  (forall page, P (Http (Search page Release.resultsPerPage false
                                (data_of title tags statuses)))) ->
  emits_only P (Release.search_releases E fuel title tags statuses ex).
Proof.
  intros P_search. unfold Release.search_releases.
  apply emits_only_bind; [now apply emits_only_silent|]. intros t0.
  apply emits_only_bind; [apply emits_only_emit, P_info|]. intros _.
  apply emits_only_bind; [now apply emits_only_search_pages|]. intros rs.
  apply emits_only_bind; [now apply emits_only_silent|]. intros t1.
  apply emits_only_bind; [|intros _; apply emits_only_ret].
  destruct (length rs =? 0); [|destruct (length rs =? 1)];
    apply emits_only_emit, P_info.
Qed.

End Emissions.

(** X1.  Whatever the server answers and however the search ends,
    [search_releases] adds to the trace only INFO records, requests for pages
    of 15 results that all carry the same body (the title, the tags and one
    flag per status, [True] for a status the dict lacks), and the two hydration
    requests; it never logs in, sleeps, writes a file or logs a warning or an
    error. *)
Theorem search_releases_emits_only_queries
        (E : env) (fuel : nat) (title : str) (tags : list str)
        (statuses : status_dict) (exceptPhases : list str) :
  emits_only (search_event (data_of title tags statuses))
             (Release.search_releases E fuel title tags statuses exceptPhases).
Proof.
  apply emits_only_search_releases; simpl; auto.
Qed.

Lemma starts_with_app (p t : str) : starts_with p (p ++ t).
Proof. now exists t. Qed.

Lemma report_name_prefix (a : args) (t : str) :
  starts_with (out_dir a ++ `"/" ++ release_title a ++ `"_")
              (out_dir a ++ `"/" ++ release_title a ++ `"_" ++ t).
Proof. exists t. now rewrite <- !app_assoc. Qed.

Lemma failed_only_data (title : str) (tags : list str) :
  failed_only (data_of title tags STATUS_ONLY_FAILED).
Proof. repeat split. Qed.

Section RunEmissions.

Variable E : env.
Variable a : args.

Lemma run_event_search (fuel : nat) (tags ex : list str) :
  emits_only (run_event a)
             (Release.search_releases E fuel (release_title a) tags
                                      STATUS_ONLY_FAILED ex).
Proof.
  apply emits_only_search_releases; simpl; auto.
  intros page. repeat split.
Qed.

Lemma run_event_generate_report (fuel : nat) :
  emits_only (run_event a)
             (generate_report E fuel (release_title a) (out_dir a) (keep_files a)).
Proof.
  unfold generate_report.
  apply emits_only_bind; [now apply emits_only_silent|]. intros t0.
  apply emits_only_bind; [now apply emits_only_silent|]. intros t1.
  apply emits_only_bind.
  { unfold collecting_info.
    repeat (apply emits_only_bind; [apply run_event_search|]; intros ?).
    apply emits_only_ret. }
  intros c.
  apply emits_only_bind;
    [apply emits_only_emit; apply (report_name_prefix a `"LATEST.md")|]. intros _.
  apply emits_only_bind.
  { destruct (keep_files a); [|apply emits_only_ret].
    apply emits_only_emit. split.
    - apply (report_name_prefix a `"LATEST.md").
    - apply (report_name_prefix a). }
  intros _.
  apply emits_only_bind;
    [apply emits_only_emit; apply (report_name_prefix a `"LATEST.md.html")|]. intros _.
  apply emits_only_bind.
  { destruct (keep_files a); [|apply emits_only_ret].
    apply emits_only_emit. split.
    - apply (report_name_prefix a `"LATEST.md.html").
    - apply (report_name_prefix a). }
  intros _.
  apply emits_only_bind; [now apply emits_only_silent|]. intros t2.
  now apply emits_only_emit.
Qed.

Lemma run_event_poll_cycle (fuel : nat) (run_end : fvalue) :
  emits_only (run_event a) (poll_cycle E fuel a run_end).
Proof.
  unfold poll_cycle.
  apply emits_only_bind; [now apply emits_only_silent|]. intros t0.
  apply emits_only_bind; [now apply emits_only_silent|]. intros t1.
  destruct (gt_end t1 run_end); [apply emits_only_ret|].
  apply emits_only_bind; [apply run_event_generate_report|]. intros _.
  apply emits_only_bind; [now apply emits_only_silent|]. intros t2.
  destruct (gt_end _ run_end); [apply emits_only_ret|].
  apply emits_only_bind; [|intros _; apply emits_only_ret].
  destruct (0 <? _)%Z.
  - apply emits_only_bind; [now apply emits_only_emit|]. intros _.
    unfold sleep. apply emits_only_bind; [now apply emits_only_emit|]. intros _.
    now apply emits_only_silent.
  - now apply emits_only_emit.
Qed.

Lemma run_event_poll_loop (fuel turns : nat) (run_end : fvalue) :
  emits_only (run_event a) (poll_loop E fuel turns a run_end).
Proof.
  induction turns as [|turns IH]; simpl.
  - now apply emits_only_silent.
  - apply emits_only_bind; [apply run_event_poll_cycle|].
    intros [|]; [exact IH|apply emits_only_ret].
Qed.

End RunEmissions.

(** X2.  Whatever the server answers, however long the run and however it
    ends, a call of [main] never sends a login request, searches only with the
    title of the run, for failed releases and by pages of 15, and writes or
    copies only files whose names start with [out_dir/release_title_]. *)
Theorem main_emits_only_run_events (E : env) (fuel : nat) (a : args) :
  emits_only (run_event a) (main E fuel a).
Proof.
  unfold main.
  destruct (match release_title a with [] => true | _ => false end).
  - apply emits_only_bind; [now apply emits_only_emit|]. intros _.
    apply emits_only_bind; [now apply emits_only_emit|]. intros _.
    now apply emits_only_silent.
  - destruct (negb (path_exists E (out_dir a))).
    + apply emits_only_bind; [now apply emits_only_emit|]. intros _.
      now apply emits_only_silent.
    + apply emits_only_bind.
      { unfold log_run_parameters.
        repeat (apply emits_only_bind; [now apply emits_only_emit|]; intros _).
        now apply emits_only_emit. }
      intros _.
      apply emits_only_bind; [now apply emits_only_silent|]. intros t0.
      apply run_event_poll_loop.
Qed.

(** ** The script before the poll loop *)

(** X3.  A missing credential ends the script at once.  With [XLR_USER] unset,
    or with [XLR_USER] set and [XLR_PASSWORD] unset, the script logs one error
    that names the missing variable and exits with status 1: no request is
    sent and [main] is not run; the user name is looked up first. *)
Theorem script_missing_credential_exits
        (E : env) (fuel : nat) (a : args) (w : world) :
  (environ E `"XLR_USER" = None ->
   script E fuel a w
   = ({| clock := clock w;
         trace := trace w ++
                  [Log ERROR `"Please set XLR_USER as environment variable. Aborting."] |},
      Exit 1))
  /\
  (forall user,
      environ E `"XLR_USER" = Some user ->
      environ E `"XLR_PASSWORD" = None ->
      script E fuel a w
      = ({| clock := clock w;
            trace := trace w ++
                     [Log ERROR
                          `"Please set XLR_PASSWORD as environment variable. Aborting."] |},
         Exit 1)).
Proof.
  split.
  - intros Hu. unfold script, module_init, get_env_var, bind. now rewrite Hu.
  - intros user Hu Hp. unfold script, module_init, get_env_var, bind.
    now rewrite Hu, Hp.
Qed.

Lemma script_missing_credential_exits_witness :
  snd (script (no_user_env (paging_server [] 10)) 50 args_ex w0) = Exit 1 /\
  requests_of (trace (fst (script (no_user_env (paging_server [] 10)) 50 args_ex w0))) = [].
Proof.
  destruct (script_missing_credential_exits
              (no_user_env (paging_server [] 10)) 50 args_ex w0) as [H _].
  rewrite (H eq_refl). split; reflexivity.
Defined.

(** X4.  A login that the server answers with an error status ends the script
    with the uncaught [HTTPError]: the login is the only request sent,
    "Connection OK." is not logged and [main] is not run. *)
Theorem script_login_error_raises
        (E : env) (fuel : nat) (a : args) (w : world) (user pw : str) :
  environ E `"XLR_USER" = Some user ->
  environ E `"XLR_PASSWORD" = Some pw ->
  body (srv_login E (clock w) user pw) = None ->
  script E fuel a w
  = ({| clock := (clock w + took (srv_login E (clock w) user pw))%Z;
        trace := (trace w ++
                  [Log INFO (`"Connecting to https://xlrelease.rbgooe.at with user " ++
                             user ++ `"...")]) ++
                 [Http (Login user pw)] |},
     Raise HTTPError).
Proof.
  intros Hu Hp Hlogin.
  unfold script, module_init, get_env_var, Server.init, bind, http, logger, emit, ret.
  rewrite Hu, Hp. simpl. now rewrite Hlogin.
Qed.

Lemma script_login_error_raises_witness :
  snd (script (login_refused (paging_server [] 10)) 50 args_ex w0) = Raise HTTPError /\
  requests_of (trace (fst (script (login_refused (paging_server [] 10)) 50 args_ex w0)))
  = [Login `"secret" `"secret"].
Proof.
  rewrite (@script_login_error_raises (login_refused (paging_server [] 10)) 50 args_ex w0
             `"secret" `"secret" eq_refl eq_refl eq_refl).
  split; reflexivity.
Defined.

(** X5.  The arguments are checked only after the login.  With both
    credentials set and a login that succeeds, an empty release title ends
    the script with status 1 after the error record and the usage text, and a
    title with an output directory that does not exist ends it with status 1
    after the error record that names the directory; the title is checked
    first, no search is made, no file is written, and the second call of
    [main] is not reached. *)
Theorem script_bad_arguments_exit_after_login
        (E : env) (fuel : nat) (a : args) (w w1 : world) :
  module_init E w = (w1, Val tt) ->
  (release_title a = [] ->
   script E fuel a w
   = ({| clock := clock w1;
         trace := (trace w1 ++ [Log ERROR `"Release title not given."]) ++
                  [Print `"usage: TODO"] |},
      Exit 1))
  /\
  (release_title a <> [] ->
   path_exists E (out_dir a) = false ->
   script E fuel a w
   = ({| clock := clock w1;
         trace := trace w1 ++
                  [Log ERROR (`"Directory '" ++ out_dir a ++
                              `"' does not exist, aborting.")] |},
      Exit 1)).
Proof.
  intros Hinit. unfold script. rewrite (bind_val _ Hinit). split.
  - intros Ht. unfold bind at 1. unfold main. now rewrite Ht.
  - intros Ht Hdir. unfold bind at 1. unfold main.
    destruct (release_title a); [congruence|]. now rewrite Hdir.
Qed.

Lemma script_bad_arguments_exit_after_login_witness :
  snd (script (no_out_dir (paging_server [] 10)) 50 args_ex w0) = Exit 1 /\
  requests_of (trace (fst (script (no_out_dir (paging_server [] 10)) 50 args_ex w0)))
  = [Login `"secret" `"secret"] /\
  files_of (trace (fst (script (no_out_dir (paging_server [] 10)) 50 args_ex w0))) = [].
Proof.
  destruct (@script_bad_arguments_exit_after_login
              (no_out_dir (paging_server [] 10)) 50 args_ex w0 _ eq_refl) as [_ H].
  rewrite (H ltac:(discriminate) eq_refl). repeat split.
Defined.

(** ** SearchAggregator: what the result holds, and when there is none *)

Lemma bind_inv {A B} (m : M A) (f : A -> M B) (w w' : world) (b : B) :
  bind m f w = (w', Val b) ->
  exists w1 a, m w = (w1, Val a) /\ f a w1 = (w', Val b).
Proof.
  unfold bind. destruct (m w) as [w1 [a| | |]]; intros H; try discriminate.
  now exists w1, a.
Qed.

Lemma search_pages_inv (E : env) (data : search_data) (ex : list str) (fuel : nat) :
  forall acc page w w' rs,
    Release.search_pages E fuel data ex acc page w = (w', Val rs) ->
    exists more,
      rs = acc ++ more /\
      Forall (fun r => str_in (Release.currentPhase r) ex = false) more.
Proof.
  induction fuel as [|fuel IH]; intros acc page w w' rs H; simpl in H;
    [discriminate|].
  apply bind_inv in H as (w1 & cis & _ & H).
  apply bind_inv in H as (w2 & new & _ & H).
  destruct (length new =? 0).
  - injection H as _ <-. exists []. split; [now rewrite app_nil_r|constructor].
  - apply bind_inv in H as (w3 & [] & _ & H).
    apply bind_inv in H as (w4 & [] & _ & H).
    apply IH in H as (more & -> & Hmore).
    eexists. split; [now rewrite <- app_assoc|].
    apply Forall_app. split; [|assumption].
    apply Forall_forall. intros r Hr. apply filter_In in Hr as [_ Hr].
    now destruct (str_in (Release.currentPhase r) ex).
Qed.

Lemma search_releases_inv
      (E : env) (fuel : nat) (title : str) (tags : list str)
      (statuses : status_dict) (ex : list str) (w w' : world) (rs : list Release.t) :
  Release.search_releases E fuel title tags statuses ex w = (w', Val rs) ->
  exists found,
    rs = map (fun release =>
                Release.set_url (server_url ++ `"/#/releases/" ++ Release.id_long release)
                                release) found /\
    Forall (fun r => str_in (Release.currentPhase r) ex = false) found.
Proof.
  unfold Release.search_releases. intros H.
  apply bind_inv in H as (w1 & t0 & _ & H).
  apply bind_inv in H as (w2 & [] & _ & H).
  apply bind_inv in H as (w3 & found & Hfound & H).
  apply bind_inv in H as (w4 & t1 & _ & H).
  apply bind_inv in H as (w5 & [] & _ & H).
  injection H as _ <-. exists found. split; [reflexivity|].
  apply search_pages_inv in Hfound as (more & -> & Hmore). exact Hmore.
Qed.

(** X6.  Whatever the server sends, no release that [search_releases] returns
    is in an excluded phase: the client-side filter is applied to every page
    before it is added to the result. *)
Theorem search_result_has_no_excluded_phase
        (E : env) (fuel : nat) (title : str) (tags : list str)
        (statuses : status_dict) (exceptPhases : list str)
        (w w' : world) (releases : list Release.t) :
  Release.search_releases E fuel title tags statuses exceptPhases w
  = (w', Val releases) ->
  Forall (fun r => ~ In (Release.currentPhase r) exceptPhases) releases.
Proof.
  intros H. apply search_releases_inv in H as (found & -> & Hfound).
  apply Forall_map. eapply Forall_impl; [|exact Hfound].
  intros r Hr Hin. simpl in Hin. apply str_in_In in Hin. congruence.
Qed.

Lemma search_result_has_no_excluded_phase_witness :
  exists w' releases,
    Release.search_releases (paging_server items_mixed 1) 3 `"220519A00"
                            [`"drb"; `"applikationstests"] STATUS_ONLY_FAILED
                            [`"TSTUX"] w0
    = (w', Val releases) /\
    map Release.id releases = [`"Release2"] /\
    Forall (fun r => ~ In (Release.currentPhase r) [`"TSTUX"]) releases.
Proof.
  eexists. eexists. split; [vm_compute; reflexivity|].
  split; [reflexivity|].
  eapply (@search_result_has_no_excluded_phase
            (paging_server items_mixed 1) 3 `"220519A00"
            [`"drb"; `"applikationstests"] STATUS_ONLY_FAILED [`"TSTUX"] w0).
  vm_compute. reflexivity.
Defined.

(** X7.  Every release that [search_releases] returns carries the browsable
    URL built from the server URL and its own long id. *)
Theorem search_result_urls
        (E : env) (fuel : nat) (title : str) (tags : list str)
        (statuses : status_dict) (exceptPhases : list str)
        (w w' : world) (releases : list Release.t) :
  Release.search_releases E fuel title tags statuses exceptPhases w
  = (w', Val releases) ->
  Forall (fun r =>
            Release.url r
            = `"https://xlrelease.rbgooe.at/#/releases/" ++ Release.id_long r)
         releases.
Proof.
  intros H. apply search_releases_inv in H as (found & -> & _).
  apply Forall_map. apply Forall_forall. intros r _. reflexivity.
Qed.

Lemma search_result_urls_witness :
  exists w' releases,
    Release.search_releases (paging_server items_mixed 1) 3 `"220519A00"
                            [`"drb"; `"release"] STATUS_ONLY_FAILED [] w0
    = (w', Val releases) /\
    map Release.url releases
    = [`"https://xlrelease.rbgooe.at/#/releases/Applications/Release1";
       `"https://xlrelease.rbgooe.at/#/releases/Applications/Release2";
       `"https://xlrelease.rbgooe.at/#/releases/Applications/Release3"] /\
    Forall (fun r =>
              Release.url r
              = `"https://xlrelease.rbgooe.at/#/releases/" ++ Release.id_long r)
           releases.
Proof.
  eexists. eexists. split; [vm_compute; reflexivity|].
  split; [reflexivity|].
  eapply (@search_result_urls
            (paging_server items_mixed 1) 3 `"220519A00"
            [`"drb"; `"release"] STATUS_ONLY_FAILED [] w0).
  vm_compute. reflexivity.
Defined.

(** One turn of the search loop on a page that comes back non-empty: the
    loop goes on with the next page, whatever the filter keeps. *)
Lemma search_pages_step
      (E : env) (data : search_data) (ex : list str) (fuel : nat)
      (acc : list Release.t) (page : nat) (w : world) :
  hydration_ok E ->
  (exists cis,
      body (srv_search E (clock w) page Release.resultsPerPage data) = Some cis /\
      cis <> []) ->
  exists acc' w1,
    Release.search_pages E (S fuel) data ex acc page w
    = Release.search_pages E fuel data ex acc' (S page) w1 /\
    search_pages_of (trace w1) = search_pages_of (trace w) ++ [page].
Proof.
  intros Hok (cis & Hcis & Hne). cbn [Release.search_pages].
  rewrite (bind_val _ (http_ok (Search page Release.resultsPerPage false data)
                               (fun now => srv_search E now page
                                             Release.resultsPerPage data)
                               w Hcis)).
  match goal with
  | |- context [bind (map_m (Release.init E) cis) _ ?w1] =>
      destruct (map_m_ok (Release.init E) built_from cis (Release_init_ok Hok) w1)
        as (w2 & rs & Hrs & Hq & Hbuilt)
  end.
  rewrite (bind_val _ Hrs).
  assert (Hlen : (length rs =? 0) = false).
  { apply Nat.eqb_neq. rewrite <- (Forall2_length Hbuilt).
    now destruct cis. }
  rewrite Hlen.
  match goal with
  | |- context [bind (logger INFO ?msg) _ w2] =>
      destruct (logger_quiet INFO msg w2) as (w3 & Hw3 & Hq3)
  end.
  rewrite (bind_val _ Hw3).
  match goal with
  | |- context [bind ?m _ w3] =>
      assert (Hlog : exists w4, m w3 = (w4, Val tt) /\ quiet w3 w4)
        by (destruct (negb _); [apply logger_quiet|exists w3; now split])
  end.
  destruct Hlog as (w4 & Hw4 & Hq4). rewrite (bind_val _ Hw4).
  eexists. exists w4. split; [reflexivity|].
  unfold quiet in *. rewrite Hq4, Hq3, Hq. simpl.
  rewrite search_pages_of_app. reflexivity.
Qed.

Lemma search_releases_run
      (E : env) (fuel : nat) (title : str) (tags : list str)
      (statuses : status_dict) (ex : list str) (w : world) :
  exists w1,
    quiet w w1 /\ clock w1 = clock w /\
    forall w' (r : res (list Release.t)),
      (forall rs, r <> Val rs) ->
      Release.search_pages E fuel (data_of title tags statuses) ex [] 0 w1 = (w', r) ->
      Release.search_releases E fuel title tags statuses ex w
      = (w', match r with
             | Val _ => OutOfFuel
             | Exit c => Exit c
             | Raise e => Raise e
             | OutOfFuel => OutOfFuel
             end).
Proof.
  unfold Release.search_releases.
  rewrite (bind_val _ (eq_refl : time_now w = (w, Val (clock w)))).
  match goal with
  | |- context [bind (logger INFO ?msg) _ w] =>
      destruct (logger_quiet INFO msg w) as (w1 & Hw1 & Hq1)
  end.
  exists w1. split; [assumption|]. split.
  - unfold logger, emit in Hw1. now injection Hw1 as <-.
  - intros w' r Hr Hrun. rewrite (bind_val _ Hw1).
    unfold bind at 1. unfold data_of in Hrun. rewrite Hrun.
    destruct r as [rs| | |]; [now destruct (Hr rs)|reflexivity..].
Qed.

Section EndlessOrBroken.

Variable E : env.
Variable data : search_data.
Variable ex : list str.
Hypothesis server_ok : hydration_ok E.

Lemma search_pages_endless :
  (forall now page,
      exists cis,
        body (srv_search E now page Release.resultsPerPage data) = Some cis /\
        cis <> []) ->
  forall fuel acc page w,
    exists w',
      Release.search_pages E fuel data ex acc page w = (w', OutOfFuel) /\
      search_pages_of (trace w') = search_pages_of (trace w) ++ seq page fuel.
Proof.
  intros Hpages. induction fuel as [|fuel IH]; intros acc page w.
  - exists w. split; [reflexivity|]. simpl. now rewrite app_nil_r.
  - destruct (@search_pages_step E data ex fuel acc page w server_ok (Hpages _ _))
      as (acc' & w1 & Hstep & Hp1).
    destruct (IH acc' (S page) w1) as (w' & Hrun & Hp).
    exists w'. split; [now rewrite Hstep|].
    rewrite Hp, Hp1, <- app_assoc. reflexivity.
Qed.

Lemma search_pages_broken (j : nat) :
  (forall now page,
      page < j ->
      exists cis,
        body (srv_search E now page Release.resultsPerPage data) = Some cis /\
        cis <> []) ->
  (forall now, body (srv_search E now j Release.resultsPerPage data) = None) ->
  forall n page acc w fuel,
    page + n = j ->
    n < fuel ->
    exists w',
      Release.search_pages E fuel data ex acc page w = (w', Raise HTTPError) /\
      search_pages_of (trace w') = search_pages_of (trace w) ++ seq page (S n).
Proof.
  intros Hpages Herr. induction n as [|n IH]; intros page acc w fuel Hj Hfuel;
    (destruct fuel as [|fuel]; [lia|]).
  - assert (page = j) by lia. subst page.
    cbn [Release.search_pages]. unfold bind at 1. unfold http. rewrite Herr.
    eexists. split; [reflexivity|]. simpl. now rewrite search_pages_of_app.
  - destruct (@search_pages_step E data ex fuel acc page w server_ok
                                 (Hpages _ page ltac:(lia)))
      as (acc' & w1 & Hstep & Hp1).
    destruct (IH (S page) acc' w1 fuel ltac:(lia) ltac:(lia)) as (w' & Hrun & Hp).
    exists w'. split; [now rewrite Hstep|].
    rewrite Hp, Hp1, <- app_assoc. reflexivity.
Qed.

End EndlessOrBroken.

(** X8.  The search loop has no bound of its own.  Against a server that
    answers every page request with a non-empty page (one that ignores the
    page index, say), [search_releases] never returns: whatever the number of
    turns allowed, the loop is still running after it, having asked for the
    pages [0, 1, 2, ...] one after the other. *)
Theorem search_never_ends_without_empty_page
        (E : env) (title : str) (tags : list str) (statuses : status_dict)
        (exceptPhases : list str) (w : world) :
  hydration_ok E ->
  (forall now page,
      exists cis,
        body (srv_search E now page Release.resultsPerPage
                         (data_of title tags statuses)) = Some cis /\
        cis <> []) ->
  forall fuel,
    exists w',
      Release.search_releases E fuel title tags statuses exceptPhases w
      = (w', OutOfFuel) /\
      search_pages_of (trace w') = search_pages_of (trace w) ++ seq 0 fuel.
Proof.
  intros Hok Hpages fuel.
  destruct (search_releases_run E fuel title tags statuses exceptPhases w)
    as (w1 & Hq & _ & Hrun).
  destruct (@search_pages_endless E (data_of title tags statuses) exceptPhases
                                  Hok Hpages fuel [] 0 w1)
    as (w' & Hloop & Hp).
  exists w'. split.
  - apply (Hrun w' OutOfFuel); [discriminate|assumption].
  - unfold quiet in Hq. now rewrite Hp, Hq.
Qed.

Lemma search_never_ends_without_empty_page_witness :
  exists w',
    Release.search_releases (same_page_server items_mixed) 4 `"220519A00"
                            [`"drb"; `"release"] STATUS_ONLY_FAILED [] w0
    = (w', OutOfFuel) /\
    search_pages_of (trace w') = [0; 1; 2; 3].
Proof.
  apply (@search_never_ends_without_empty_page
           (same_page_server items_mixed) `"220519A00" [`"drb"; `"release"]
           STATUS_ONLY_FAILED [] w0).
  - split; intros now i; discriminate.
  - intros now page. exists items_mixed. split; [reflexivity|discriminate].
Defined.

(** X9.  An error status on a later page loses the pages already fetched.
    When the pages below [j] come back non-empty and page [j] comes back with
    an error status, [search_releases] ends with the uncaught [HTTPError]
    after asking for the pages [0, ..., j]: it returns no release at all. *)
Theorem search_error_keeps_no_partial_result
        (E : env) (title : str) (tags : list str) (statuses : status_dict)
        (exceptPhases : list str) (j fuel : nat) (w : world) :
  hydration_ok E ->
  (forall now page,
      page < j ->
      exists cis,
        body (srv_search E now page Release.resultsPerPage
                         (data_of title tags statuses)) = Some cis /\
        cis <> []) ->
  (forall now,
      body (srv_search E now j Release.resultsPerPage
                       (data_of title tags statuses)) = None) ->
  j < fuel ->
  exists w',
    Release.search_releases E fuel title tags statuses exceptPhases w
    = (w', Raise HTTPError) /\
    search_pages_of (trace w') = search_pages_of (trace w) ++ seq 0 (S j).
Proof.
  intros Hok Hpages Herr Hfuel.
  destruct (search_releases_run E fuel title tags statuses exceptPhases w)
    as (w1 & Hq & _ & Hrun).
  destruct (@search_pages_broken E (data_of title tags statuses) exceptPhases
                                 Hok j Hpages Herr j 0 [] w1 fuel eq_refl Hfuel)
    as (w' & Hloop & Hp).
  exists w'. split.
  - apply (Hrun w' (Raise HTTPError)); [discriminate|assumption].
  - unfold quiet in Hq. now rewrite Hp, Hq.
Qed.

Lemma search_error_keeps_no_partial_result_witness :
  exists w',
    Release.search_releases (breaks_at_page 2 items_mixed) 5 `"220519A00"
                            [`"drb"; `"release"] STATUS_ONLY_FAILED [] w0
    = (w', Raise HTTPError) /\
    search_pages_of (trace w') = [0; 1; 2].
Proof.
  apply (@search_error_keeps_no_partial_result
           (breaks_at_page 2 items_mixed) `"220519A00" [`"drb"; `"release"]
           STATUS_ONLY_FAILED [] 2 5 w0).
  - split; intros now i; discriminate.
  - intros now page Hpage. exists items_mixed. split; [|discriminate].
    simpl. destruct page as [|[|page]]; [reflexivity|reflexivity|exfalso; lia].
  - intros now. reflexivity.
  - lia.
Defined.

(** ** ReportBuilder: rows and titles *)

Lemma row_length (release : Release.t) : length (Release.row release) = 5.
Proof.
  unfold Release.row. now destruct (Release.active_cells _) as [[v3 v4] v5].
Qed.

(** X10.  The table handed to the renderer is rectangular: the header row and
    one row per release, in the order of the releases, each of five cells;
    and a release without active task has "-" in its three task cells. *)
Theorem table_rows_are_rectangular (releases : list Release.t) :
  length (Release.header_row :: map Release.row releases) = S (length releases) /\
  Forall (fun cells => length cells = length Release.header_row)
         (Release.header_row :: map Release.row releases) /\
  forall release,
    Release.active_tasks release = [] ->
    skipn 1 (Release.row release) = [Release.status release; `"-"; `"-"; `"-"].
Proof.
  split; [simpl; now rewrite length_map|]. split.
  - constructor; [reflexivity|]. apply Forall_map, Forall_forall.
    intros r _. apply row_length.
  - intros release H. unfold Release.row. now rewrite H.
Qed.

Lemma sub_from_skip (r : re) (repl : list str -> str) (u v : str) :
  forall pos,
    sub_from r repl (length u) pos (u ++ v) = sub_from r repl 0 (pos + length u) v.
Proof.
  induction u as [|a u IH]; intros pos; simpl.
  - now rewrite Nat.add_0_r.
  - rewrite IH. f_equal. lia.
Qed.

Lemma sub_from_match (r : re) (repl : list str -> str) (m v : str) (pos : nat)
      (caps : list str) :
  m <> [] ->
  match_at r pos (m ++ v) = Some (pos + length m, caps) ->
  sub_from r repl 0 pos (m ++ v) = repl caps ++ sub_from r repl 0 (pos + length m) v.
Proof.
  intros Hm H. destruct m as [|a m]; [congruence|].
  simpl app in *. cbn [sub_from]. rewrite H. simpl length.
  replace (pos + S (length m) - pos) with (S (length m)) by lia.
  rewrite sub_from_skip. do 2 f_equal. lia.
Qed.

Lemma sub_from_copy (r : re) (repl : list str -> str) (u v : str) :
  Forall (fun c => forall pos t, match_at r pos (c :: t) = None) u ->
  forall pos,
    sub_from r repl 0 pos (u ++ v) = u ++ sub_from r repl 0 (pos + length u) v.
Proof.
  induction 1 as [|c u Hc _ IH]; intros pos; simpl.
  - now rewrite Nat.add_0_r.
  - rewrite Hc, IH. do 3 f_equal. lia.
Qed.

Lemma ticket_prefix_needs_A (t : str) (pos : nat) :
  ~ In "A"%char t -> match_at Release.ticket_prefix pos t = None.
Proof.
  intros Hno. unfold match_at, Release.ticket_prefix. cbn [matchk].
  apply star_fail. intros p u t' ->.
  destruct t' as [|c t']; [reflexivity|]. cbn [strip_prefix list_ascii_of_string].
  destruct (Ascii.eqb "A" c) eqn:Ec; [|reflexivity].
  apply Ascii.eqb_eq in Ec. subst c. exfalso. apply Hno.
  apply in_or_app. right. now left.
Qed.

Lemma ticket_prefix_at_other (c : ascii) (t : str) (pos : nat) :
  is_digit c = false -> c <> "A"%char ->
  match_at Release.ticket_prefix pos (c :: t) = None.
Proof.
  intros Hd Hc. unfold match_at, Release.ticket_prefix. cbn [matchk star cls_in].
  rewrite Hd. cbn [strip_prefix list_ascii_of_string].
  destruct (Ascii.eqb "A" c) eqn:Ec; [|reflexivity].
  apply Ascii.eqb_eq in Ec. congruence.
Qed.

Lemma ticket_prefix_match (d1 d2 v : str) (pos : nat) :
  digits d1 -> digits d2 ->
  match_at Release.ticket_prefix pos ((d1 ++ `"A" ++ d2 ++ `"-") ++ v)
  = Some (pos + length (d1 ++ `"A" ++ d2 ++ `"-"), []).
Proof.
  intros H1 H2. unfold match_at, Release.ticket_prefix. cbn [matchk].
  rewrite <- !app_assoc. simpl app.
  apply star_take; [exact H1|right; eexists; eexists; split; reflexivity|].
  cbn [strip_prefix list_ascii_of_string]. rewrite Ascii.eqb_refl.
  apply star_take; [exact H2|right; eexists; eexists; split; reflexivity|].
  cbn [strip_prefix list_ascii_of_string]. rewrite Ascii.eqb_refl.
  f_equal. f_equal. rewrite !length_app. simpl. rewrite length_app. simpl. lia.
Qed.

(** X11.  What the title pattern removes.  In a title made of ASCII text
    without digit and without capital A, then digits from 0 to 9, a capital A,
    digits from 0 to 9 and a hyphen (the digits may be missing on either
    side), then text without capital A, the substitution removes the run from
    the first digit to the hyphen and keeps the rest: a ticket number at the
    start of the title is stripped, and so is a bare "A-" in the middle of a
    title. *)
Theorem title_ticket_number_removed (u d1 d2 v : str) :
  Forall (fun c => is_ascii c = true /\ is_digit c = false /\ c <> "A"%char) u ->
  digits d1 ->
  digits d2 ->
  ~ In "A"%char v ->
  sub Release.ticket_prefix nothing (u ++ (d1 ++ `"A" ++ d2 ++ `"-") ++ v) = u ++ v.
Proof.
  intros Hu H1 H2 Hv. unfold sub.
  rewrite sub_from_copy.
  - f_equal.
    rewrite (@sub_from_match Release.ticket_prefix nothing
               (d1 ++ `"A" ++ d2 ++ `"-") v _ []).
    + simpl. apply sub_from_no_match.
      intros pos x t ->. apply ticket_prefix_needs_A.
      intros Hin. apply Hv. apply in_or_app. now right.
    + now destruct d1.
    + now apply ticket_prefix_match.
  - eapply Forall_impl; [|exact Hu].
    intros c (_ & Hd & Hc) pos t. now apply ticket_prefix_at_other.
Qed.

Lemma title_ticket_number_removed_witness :
  sub Release.ticket_prefix nothing `"220519A00-Rollout to prod" = `"Rollout to prod" /\
  sub Release.ticket_prefix nothing `"Rollout PA-Launch" = `"Rollout PLaunch".
Proof.
  split.
  - apply (@title_ticket_number_removed [] `"220519" `"00" `"Rollout to prod").
    + constructor.
    + repeat constructor.
    + repeat constructor.
    + simpl. intros H. repeat (destruct H as [H|H]; [discriminate|]). exact H.
  - apply (@title_ticket_number_removed `"Rollout P" [] [] `"Launch").
    + repeat constructor; discriminate.
    + constructor.
    + constructor.
    + simpl. intros H. repeat (destruct H as [H|H]; [discriminate|]). exact H.
Defined.

(** ** IdentifierParser: the sentinel and the ids of a task *)

Lemma find_char_range (c : ascii) (s : str) :
  (In c s -> (0 <= find_char c s)%Z) /\ (~ In c s -> find_char c s = (-1)%Z).
Proof.
  induction s as [|x s [IHin IHout]]; simpl.
  - split; [intros []|reflexivity].
  - destruct (Ascii.eqb x c) eqn:Exc.
    + apply Ascii.eqb_eq in Exc. subst x. split; [lia|]. intros H. exfalso. apply H. now left.
    + assert (Hne : x <> c) by (intros ->; now rewrite Ascii.eqb_refl in Exc).
      split.
      * intros [H|H]; [congruence|]. apply IHin in H.
        destruct (find_char c s <? 0)%Z eqn:E; [apply Z.ltb_lt in E; lia|lia].
      * intros H. rewrite IHout by (intros Hin; apply H; now right). reflexivity.
Qed.

(** X12.  Which sentinel is appended.  The test is [id.find("-") > 0], not
    [>= 0]: the sentinel is a hyphen exactly when the id holds a hyphen and
    does not start with one; an id that starts with a hyphen gets a slash,
    like an id without hyphen and like the empty id. *)
Theorem sentinel_is_hyphen_iff (id : str) :
  (sentinel id = "-"%char <->
   exists c rest, id = c :: rest /\ c <> "-"%char /\ In "-"%char rest) /\
  (sentinel id <> "-"%char -> sentinel id = "/"%char).
Proof.
  unfold sentinel. split.
  - destruct id as [|c rest]; simpl.
    + split; [discriminate|]. now intros (c & rest & H & _).
    + destruct (Ascii.eqb c "-") eqn:Ec.
      * apply Ascii.eqb_eq in Ec. subst c. simpl.
        split; [discriminate|]. intros (c & r & H & Hc & _). congruence.
      * assert (Hne : c <> "-"%char) by (intros ->; now rewrite Ascii.eqb_refl in Ec).
        destruct (find_char_range "-" rest) as [Hin Hout].
        destruct (find_char "-" rest <? 0)%Z eqn:E.
        -- simpl. split; [discriminate|]. intros (c' & r & H & _ & Hr).
           injection H as <- <-. apply Hin in Hr. apply Z.ltb_lt in E. lia.
        -- apply Z.ltb_ge in E.
           assert (H0 : (0 <? find_char "-" rest + 1)%Z = true) by (apply Z.ltb_lt; lia).
           rewrite H0. split; [|reflexivity]. intros _.
           exists c, rest. repeat split; [assumption|].
           destruct (in_dec ascii_dec "-"%char rest) as [H|H]; [assumption|].
           apply Hout in H. lia.
  - destruct (0 <? find_char "-" id)%Z; [congruence|reflexivity].
Qed.

Lemma starts_with_differ (p q x : str) (a b : ascii) (p' q' : str) :
  p = a :: p' -> q = b :: q' -> a <> b ->
  starts_with p x -> ~ starts_with q x.
Proof.
  intros -> -> Hab [t ->] [t' H]. simpl in H. congruence.
Qed.

Lemma task_not_phase (x : str) : starts_with `"Task" x -> ~ starts_with `"Phase" x.
Proof. apply (@starts_with_differ `"Task" `"Phase" x "T" "P" `"ask" `"hase"); try reflexivity. discriminate. Qed.

Lemma task_not_release (x : str) : starts_with `"Task" x -> ~ starts_with `"Release" x.
Proof. apply (@starts_with_differ `"Task" `"Release" x "T" "R" `"ask" `"elease"); try reflexivity. discriminate. Qed.

Lemma phase_not_release (x : str) : starts_with `"Phase" x -> ~ starts_with `"Release" x.
Proof. apply (@starts_with_differ `"Phase" `"Release" x "P" "R" `"hase" `"elease"); try reflexivity. discriminate. Qed.

Lemma get_phase_by_id_val (E : env) (i : str) (w : world) (p : phase_json) :
  body (srv_phase E (clock w) i) = Some p ->
  Phase.get_phase_by_id E i w
  = ({| clock := (clock w + took (srv_phase E (clock w) i))%Z;
        trace := trace w ++ [Http (PhaseById i)] |},
     Val (Phase.init p)).
Proof.
  intros Hp. unfold Phase.get_phase_by_id.
  rewrite (bind_val _ (http_ok (PhaseById i) (fun now => srv_phase E now i) w Hp)).
  reflexivity.
Qed.

(** X13.  The ids a task derives from its long id.  For a one-line long id
    whose segments end with a "Release" segment, a "Phase" segment and one or
    more "Task" segments, and a phase endpoint that answers, the constructor
    keeps the whole long id as the task id, takes the "Release" segment as the
    release id and the long id cut after the "Phase" segment as the phase id,
    and sends one request, for the phase with that id, whose answer becomes
    the phase of the task. *)
Theorem task_init_ids
        (E : env) (j : task_json) (w : world)
        (front tasks : list str) (rel ph tk : str) :
  (forall i, body (srv_phase E (clock w) i) <> None) ->
  single_line (tj_id j) ->
  segments (tj_id j) = front ++ rel :: ph :: tasks ++ [tk] ->
  front <> [] ->
  starts_with `"Release" rel ->
  starts_with `"Phase" ph ->
  Forall (starts_with `"Task") (tasks ++ [tk]) ->
  exists w' t,
    Task.init E j w = (w', Val t) /\
    Task.id_long t = tj_id j /\
    Task.id t = tj_id j /\
    Task.release_id t = rel /\
    (exists pre rest, Task.phase_id t = pre ++ ph /\ tj_id j = Task.phase_id t ++ rest) /\
    trace w' = trace w ++ [Http (PhaseById (Task.phase_id t))] /\
    body (srv_phase E (clock w) (Task.phase_id t))
    = Some {| pj_id := Phase.id (Task.phase t); pj_title := Phase.title (Task.phase t) |}.
Proof.
  intros Hphase Hline Hseg Hfront Hrel Hph Htasks.
  assert (Htk : starts_with `"Task" tk)
    by (apply Forall_app in Htasks as [_ H]; now inversion H).
  destruct (@u_parse_last_segment (tj_id j) `"Task" tk
                                  (front ++ rel :: ph :: tasks) [] w eq_refl Hline)
    as (pre1 & d1 & rest1 & Hid1 & _ & Hrest1 & Hup1 & _);
    [now rewrite <- app_assoc|now destruct front|assumption|constructor|].
  assert (rest1 = []) by now apply Hrest1. subst rest1. rewrite app_nil_r in Hid1.
  destruct (@u_parse_last_segment (tj_id j) `"Phase" ph
                                  (front ++ [rel]) (tasks ++ [tk]) w eq_refl Hline)
    as (pre2 & d2 & rest2 & Hid2 & _ & _ & Hup2 & _);
    [now rewrite <- app_assoc|now destruct front|assumption| |].
  { eapply Forall_impl; [|exact Htasks]. apply task_not_phase. }
  destruct (@u_parse_last_segment (tj_id j) `"Release" rel
                                  front (ph :: tasks ++ [tk]) w eq_refl Hline)
    as (pre3 & d3 & rest3 & _ & _ & _ & _ & Hlast3);
    [assumption|assumption|assumption| |].
  { constructor; [now apply phase_not_release|].
    eapply Forall_impl; [|exact Htasks]. apply task_not_release. }
  destruct (body (srv_phase E (clock w) (pre2 ++ d2 :: ph))) as [p|] eqn:Hp;
    [|now apply Hphase in Hp].
  unfold Task.init.
  rewrite (bind_val _ Hup1), (bind_val _ Hup2), (bind_val _ Hlast3).
  rewrite (bind_val _ (get_phase_by_id_val E (pre2 ++ d2 :: ph) w Hp)).
  eexists. eexists. split; [reflexivity|]. simpl.
  split; [reflexivity|]. split; [now rewrite Hid1|]. split; [reflexivity|].
  split.
  - exists (pre2 ++ [d2]), rest2. split; [now rewrite <- app_assoc|].
    rewrite Hid2 at 1. now rewrite <- app_assoc.
  - split; [reflexivity|]. rewrite Hp. now destruct p.
Qed.

Lemma task_init_ids_witness :
  exists w' t,
    Task.init (paging_server [] 1)
              (task_json_ex `"Applications/Folder1/Release1/Phase2/Task3/Task4") w0
    = (w', Val t) /\
    Task.id t = `"Applications/Folder1/Release1/Phase2/Task3/Task4" /\
    Task.release_id t = `"Release1" /\
    Task.phase_id t = `"Applications/Folder1/Release1/Phase2" /\
    requests_of (trace w') = [PhaseById `"Applications/Folder1/Release1/Phase2"].
Proof.
  destruct (@task_init_ids
              (paging_server [] 1)
              (task_json_ex `"Applications/Folder1/Release1/Phase2/Task3/Task4") w0
              [`"Applications"; `"Folder1"] [`"Task3"] `"Release1" `"Phase2" `"Task4")
    as (w' & t & Hinit & _).
  - intros i. discriminate.
  - repeat constructor; discriminate.
  - reflexivity.
  - discriminate.
  - now exists `"1".
  - now exists `"2".
  - repeat constructor; eexists; reflexivity.
  - exists w', t. split; [exact Hinit|].
    vm_compute in Hinit. injection Hinit as <- <-. repeat split.
Defined.

(** ** EntityModel: one phase request per active task *)

Lemma requests_of_app (tr tr' : list event) :
  requests_of (tr ++ tr') = requests_of tr ++ requests_of tr'.
Proof.
  induction tr as [|e tr IH]; simpl; [reflexivity|].
  destruct e; simpl; now rewrite ?IH.
Qed.

Lemma Task_init_request (E : env) (j : task_json) (w : world) :
  (forall now i, body (srv_phase E now i) <> None) ->
  exists w' t,
    Task.init E j w = (w', Val t) /\
    Task.id_long t = tj_id j /\
    trace w' = trace w ++ [Http (PhaseById (Task.phase_id t))].
Proof.
  intros Hphase. unfold Task.init.
  rewrite (bind_val _ (u_parse_recognized (tj_id j) `"Task" false w eq_refl)).
  rewrite (bind_val _ (u_parse_recognized (tj_id j) `"Phase" false w eq_refl)).
  rewrite (bind_val _ (u_parse_recognized (tj_id j) `"Release" true w eq_refl)).
  match goal with
  | |- context [Phase.get_phase_by_id E ?i] =>
      destruct (body (srv_phase E (clock w) i)) as [p|] eqn:Hp;
        [rewrite (bind_val _ (get_phase_by_id_val E i w Hp))
        |now apply Hphase in Hp]
  end.
  eexists. eexists. split; [reflexivity|]. split; reflexivity.
Qed.

Lemma map_m_Task_init (E : env) (js : list task_json) :
  (forall now i, body (srv_phase E now i) <> None) ->
  forall w,
    exists w' ts,
      map_m (Task.init E) js w = (w', Val ts) /\
      map Task.id_long ts = map tj_id js /\
      trace w' = trace w ++ map (fun t => Http (PhaseById (Task.phase_id t))) ts.
Proof.
  intros Hphase. induction js as [|j js IH]; intros w; simpl.
  - exists w, []. repeat split. simpl. now rewrite app_nil_r.
  - destruct (Task_init_request E j w Hphase) as (w1 & t & Ht & Hid & Htr1).
    destruct (IH w1) as (w2 & ts & Hts & Hids & Htr2).
    exists w2, (t :: ts). rewrite (bind_val _ Ht), (bind_val _ Hts).
    split; [reflexivity|]. split; [simpl; now rewrite Hid, Hids|].
    rewrite Htr2, Htr1, <- app_assoc. reflexivity.
Qed.

(** X14.  Nothing is cached.  When the active-tasks endpoint answers with a list
    of tasks and the phase endpoint answers, [get_active_tasks] builds one
    task per entry, in order, and sends one phase request per task right after
    the active-tasks request, in the order of the tasks: two tasks of the same
    phase fetch that phase twice. *)
Theorem active_tasks_fetch_one_phase_each
        (E : env) (release_id : str) (w : world) (js : list task_json) :
  body (srv_active_tasks E (clock w) release_id) = Some js ->
  (forall now i, body (srv_phase E now i) <> None) ->
  exists w' ts,
    Release.get_active_tasks E release_id w = (w', Val ts) /\
    map Task.id_long ts = map tj_id js /\
    requests_of (trace w')
    = requests_of (trace w) ++
      ActiveTasks release_id :: map (fun t => PhaseById (Task.phase_id t)) ts.
Proof.
  intros Hjs Hphase. unfold Release.get_active_tasks.
  rewrite (bind_val _ (http_ok (ActiveTasks release_id)
                               (fun now => srv_active_tasks E now release_id) w Hjs)).
  match goal with
  | |- context [map_m (Task.init E) js ?w1] =>
      destruct (map_m_Task_init E js Hphase w1) as (w' & ts & Hts & Hids & Htr)
  end.
  exists w', ts. split; [assumption|]. split; [assumption|].
  rewrite Htr. simpl. rewrite !requests_of_app. simpl.
  rewrite <- app_assoc. simpl. do 2 f_equal.
  clear. induction ts as [|t ts IH]; simpl; [reflexivity|now rewrite IH].
Qed.

Lemma active_tasks_fetch_one_phase_each_witness :
  exists w' ts,
    Release.get_active_tasks two_tasks_server `"Release1" w0 = (w', Val ts) /\
    requests_of (trace w')
    = [ActiveTasks `"Release1";
       PhaseById `"Applications/Release1/Phase2";
       PhaseById `"Applications/Release1/Phase2"].
Proof.
  destruct (@active_tasks_fetch_one_phase_each
              two_tasks_server `"Release1" w0
              [task_json_ex `"Applications/Release1/Phase2/Task3";
               task_json_ex `"Applications/Release1/Phase2/Task4"] eq_refl)
    as (w' & ts & Hrun & _ & _).
  - intros now i. discriminate.
  - exists w', ts. split; [exact Hrun|].
    vm_compute in Hrun. injection Hrun as <- <-. reflexivity.
Defined.

(** ** ReportBuilder and ReportWriter: the files of one report *)

Lemma files_of_app (tr tr' : list event) :
  files_of (tr ++ tr') = files_of tr ++ files_of tr'.
Proof.
  induction tr as [|e tr IH]; simpl; [reflexivity|].
  destruct e; simpl; now rewrite ?IH.
Qed.

Lemma files_of_none (tr : list event) :
  Forall (fun e => files_of [e] = []) tr -> files_of tr = [].
Proof.
  induction 1 as [|e tr He _ IH]; [reflexivity|].
  change (e :: tr) with ([e] ++ tr). now rewrite files_of_app, He, IH.
Qed.

Lemma requests_of_none (tr : list event) :
  Forall (fun e => requests_of [e] = []) tr -> requests_of tr = [].
Proof.
  induction 1 as [|e tr He _ IH]; [reflexivity|].
  change (e :: tr) with ([e] ++ tr). now rewrite requests_of_app, He, IH.
Qed.

Lemma collecting_info_writes_nothing (E : env) (fuel : nat) (title : str) :
  emits_only (fun e => files_of [e] = []) (collecting_info E fuel title).
Proof.
  unfold collecting_info.
  repeat (apply emits_only_bind;
          [apply emits_only_search_releases; intros; reflexivity|]; intros ?).
  apply emits_only_ret.
Qed.

Lemma app_four {A} (F a b c d : list A) :
  ((((F ++ a) ++ b) ++ c) ++ d) ++ [] = F ++ a ++ b ++ c ++ d.
Proof. now rewrite app_nil_r, <- !app_assoc. Qed.

Lemma app_two {A} (F a c : list A) :
  ((F ++ a) ++ c) ++ [] = F ++ a ++ [] ++ c ++ [].
Proof. simpl. now rewrite !app_nil_r, <- app_assoc. Qed.

(** Once the three searches are done, the report is written without any
    further request. *)
Lemma generate_report_after_collecting
      (E : env) (fuel : nat) (title dir : str) (keep : bool)
      (w w1 : world) (c : collected) :
  collecting_info E fuel title w = (w1, Val c) ->
  exists w',
    generate_report E fuel title dir keep w = (w', Val tt) /\
    files_of (trace w')
    = files_of (trace w1) ++
      report_files E title dir keep (report_md E title c (clock w)) (clock w) /\
    requests_of (trace w') = requests_of (trace w1) /\
    clock w' = clock w1.
Proof.
  intros Hc. unfold generate_report.
  rewrite (bind_val _ (eq_refl : time_now w = (w, Val (clock w)))).
  rewrite (bind_val _ (eq_refl : time_now w = (w, Val (clock w)))).
  rewrite (bind_val _ Hc).
  destruct keep; (eexists; split; [reflexivity|]);
    cbn [fst trace clock]; rewrite ?files_of_app, ?requests_of_app;
    cbn [files_of requests_of];
    (split; [|split; [now rewrite !app_nil_r|reflexivity]]).
  - exact (app_four _ _ _ _ _).
  - exact (app_two _ _ _).
Qed.

(** X15.  The files of one report.  Whenever [generate_report] returns, its
    three searches have returned, for the tags "release", "rollout" and
    "applikationstests" in this order, and it has written the Markdown text to
    [out_dir/title_LATEST.md] and the same text followed by a line feed and the
    viewer footer to [out_dir/title_LATEST.md.html], in this order and each
    followed by a copy under a time-stamped name exactly when old files are
    kept.  The text holds the results of the three searches, in the sections
    release, applikationstests and rollout; the searches write nothing, and
    the time stamp and the "Time of generation" line are those of the clock
    when the report was started. *)
Theorem generate_report_files
        (E : env) (fuel : nat) (title dir : str) (keep : bool) (w w' : world) :
  generate_report E fuel title dir keep w = (w', Val tt) ->
  exists w1 w2 w3 r1 r2 r3,
    Release.search_releases E fuel title [`"drb"; `"release"]
                            STATUS_ONLY_FAILED [] w = (w1, Val r1) /\
    Release.search_releases E fuel title [`"drb"; `"rollout"]
                            STATUS_ONLY_FAILED [`"tstux - Qualitycheck"] w1
    = (w2, Val r2) /\
    Release.search_releases E fuel title [`"drb"; `"applikationstests"]
                            STATUS_ONLY_FAILED [`"TSTUX"] w2 = (w3, Val r3) /\
    files_of (trace w')
    = files_of (trace w) ++
      report_files E title dir keep
        (report_md E title
                   {| releases_tag_release := r1;
                      releases_tag_rollout := r2;
                      releases_tag_applikationstests := r3 |}
                   (clock w))
        (clock w).
Proof.
  intros H. pose proof H as Hrun. unfold generate_report in H.
  apply bind_inv in H as (w0' & t0 & Ht0 & H). injection Ht0 as <- <-.
  apply bind_inv in H as (w0' & t1 & Ht1 & H). injection Ht1 as <- <-.
  apply bind_inv in H as (wc & c & Hc & _).
  destruct (generate_report_after_collecting E fuel title dir keep w Hc)
    as (w2' & Hrun2 & Hfiles & _).
  rewrite Hrun in Hrun2. injection Hrun2 as <-.
  pose proof Hc as Hc'. unfold collecting_info in Hc'.
  apply bind_inv in Hc' as (w1 & r1 & H1 & Hc').
  apply bind_inv in Hc' as (w2 & r2 & H2 & Hc').
  apply bind_inv in Hc' as (w3 & r3 & H3 & Hc').
  injection Hc' as <- <-.
  exists w1, w2, w3, r1, r2, r3.
  split; [exact H1|]. split; [exact H2|]. split; [exact H3|].
  rewrite Hfiles. f_equal.
  destruct (collecting_info_writes_nothing E fuel title w) as (tr & Htr & Hnone).
  rewrite Hc in Htr. simpl in Htr. rewrite Htr, files_of_app.
  rewrite (files_of_none Hnone). apply app_nil_r.
Qed.

Lemma generate_report_files_witness :
  exists w' r1 r2 r3,
    generate_report (paging_server items_mixed 1) 3 `"220519A00" `"out" true w0
    = (w', Val tt) /\
    map (fun e => match e with
                  | WriteFile n _ => n
                  | CopyFile _ n => n
                  | _ => []
                  end) (files_of (trace w'))
    = [`"out/220519A00_LATEST.md"; `"out/220519A00_2022.05.19 10:00.md";
       `"out/220519A00_LATEST.md.html"; `"out/220519A00_2022.05.19 10:00.md.html"] /\
    (length r1, length r2, length r3) = (3, 3, 1) /\
    files_of (trace w')
    = report_files (paging_server items_mixed 1) `"220519A00" `"out" true
                   (report_md (paging_server items_mixed 1) `"220519A00"
                              {| releases_tag_release := r1;
                                 releases_tag_rollout := r2;
                                 releases_tag_applikationstests := r3 |} 0) 0.
Proof.
  assert (Hrun : { w' | generate_report (paging_server items_mixed 1) 3
                                        `"220519A00" `"out" true w0 = (w', Val tt) }).
  { eexists. vm_compute. reflexivity. }
  destruct Hrun as [w' Hrun].
  destruct (@generate_report_files (paging_server items_mixed 1) 3
                                   `"220519A00" `"out" true w0 w' Hrun)
    as (w1 & w2 & w3 & r1 & r2 & r3 & H1 & H2 & H3 & Hfiles).
  exists w', r1, r2, r3. split; [exact Hrun|]. split; [|split; [|exact Hfiles]].
  - vm_compute in Hrun. injection Hrun as <-. reflexivity.
  - vm_compute in H1. injection H1 as <- <-.
    vm_compute in H2. injection H2 as <- <-.
    vm_compute in H3. injection H3 as <- <-.
    reflexivity.
Defined.

Lemma search_pages_empty_page
      (E : env) (fuel : nat) (data : search_data) (ex : list str)
      (acc : list Release.t) (page : nat) (w : world) :
  body (srv_search E (clock w) page Release.resultsPerPage data) = Some [] ->
  Release.search_pages E (S fuel) data ex acc page w
  = ({| clock := (clock w + took (srv_search E (clock w) page
                                             Release.resultsPerPage data))%Z;
        trace := trace w ++ [Http (Search page Release.resultsPerPage false data)] |},
     Val acc).
Proof.
  intros Hempty. cbn [Release.search_pages].
  rewrite (bind_val _ (http_ok (Search page Release.resultsPerPage false data)
                               (fun now => srv_search E now page
                                             Release.resultsPerPage data)
                               w Hempty)).
  reflexivity.
Qed.

Lemma search_releases_nothing
      (E : env) (fuel : nat) (title : str) (tags : list str)
      (statuses : status_dict) (ex : list str) (w : world) :
  (forall now,
      body (srv_search E now 0 Release.resultsPerPage (data_of title tags statuses))
      = Some []) ->
  exists w',
    Release.search_releases E (S fuel) title tags statuses ex w = (w', Val []) /\
    requests_of (trace w')
    = requests_of (trace w) ++
      [Search 0 Release.resultsPerPage false (data_of title tags statuses)] /\
    clock w'
    = (clock w + took (srv_search E (clock w) 0 Release.resultsPerPage
                                  (data_of title tags statuses)))%Z.
Proof.
  intros Hempty. unfold Release.search_releases.
  rewrite (bind_val _ (eq_refl : time_now w = (w, Val (clock w)))).
  match goal with
  | |- context [bind (logger INFO ?msg) _ w] =>
      rewrite (bind_val _ (eq_refl : logger INFO msg w
                                     = ({| clock := clock w;
                                           trace := trace w ++ [Log INFO msg] |},
                                        Val tt)))
  end.
  match goal with
  | |- context [bind (Release.search_pages E (S fuel) ?data ex [] 0) _ ?w1] =>
      rewrite (bind_val _ (search_pages_empty_page E fuel data ex [] 0 w1
                                                   (Hempty (clock w))))
  end.
  eexists. split; [reflexivity|].
  cbn [fst trace clock]. split; [|reflexivity].
  rewrite !requests_of_app. cbn [requests_of].
  now rewrite !app_nil_r.
Qed.



(** ** SearchAggregator: statuses the dict does not mention *)

Lemma dict_get_true (d : status_dict) (key : str) :
  (forall k, ~ In (k, false) d) -> dict_get d key true = true.
Proof.
  induction d as [|[k v] d IH]; intros H; simpl; [reflexivity|].
  destruct (str_eqb k key).
  - destruct v; [reflexivity|]. exfalso. apply (H k). now left.
  - apply IH. intros k' Hin. apply (H k'). now right.
Qed.

(** X17.  A status that the dict lacks is searched for.  When the dict maps no
    status to [False] (the empty dict, for one), every page request of
    [search_releases] carries the body of a search over all six statuses. *)
Theorem search_defaults_to_all_statuses
        (E : env) (fuel : nat) (title : str) (tags : list str)
        (statuses : status_dict) (exceptPhases : list str) :
  (forall k, ~ In (k, false) statuses) ->
  emits_only (search_event (data_of title tags STATUS_ALL))
             (Release.search_releases E fuel title tags statuses exceptPhases).
Proof.
  intros H.
  assert (Hdata : data_of title tags STATUS_ALL = data_of title tags statuses).
  { unfold data_of. now rewrite !(fun key => @dict_get_true statuses key H). }
  rewrite Hdata. apply emits_only_search_releases; simpl; auto.
Qed.

Lemma search_defaults_to_all_statuses_witness :
  emits_only (search_event (data_of `"220519A00" [`"drb"] STATUS_ALL))
             (Release.search_releases (paging_server items_mixed 1) 3 `"220519A00"
                                      [`"drb"] [(`"failed", true)] []).
Proof.
  apply (@search_defaults_to_all_statuses
           (paging_server items_mixed 1) 3 `"220519A00" [`"drb"] [(`"failed", true)] []).
  intros k [H|[]]. discriminate.
Defined.

(** ** PollLoop: the turns of the loop *)

Lemma poll_cycle_break_before
      (E : env) (fuel : nat) (a : args) (run_end : fvalue) (w : world) :
  gt_end (clock w) run_end = true ->
  poll_cycle E fuel a run_end w = (w, Val false).
Proof.
  intros H. unfold poll_cycle.
  rewrite (bind_val _ (eq_refl : time_now w = (w, Val (clock w)))).
  rewrite (bind_val _ (eq_refl : time_now w = (w, Val (clock w)))).
  now rewrite H.
Qed.

Lemma poll_cycle_break_after
      (E : env) (fuel : nat) (a : args) (run_end : fvalue) (w w1 : world) :
  gt_end (clock w) run_end = false ->
  generate_report E fuel (release_title a) (out_dir a) (keep_files a) w = (w1, Val tt) ->
  gt_end (clock w + call_every_min a * 60) run_end = true ->
  poll_cycle E fuel a run_end w = (w1, Val false).
Proof.
  intros Hnow Hgen Hnext. unfold poll_cycle.
  rewrite (bind_val _ (eq_refl : time_now w = (w, Val (clock w)))).
  rewrite (bind_val _ (eq_refl : time_now w = (w, Val (clock w)))).
  rewrite Hnow. rewrite (bind_val _ Hgen).
  rewrite (bind_val _ (eq_refl : time_now w1 = (w1, Val (clock w1)))).
  now rewrite Hnext.
Qed.





Lemma table_rows_are_rectangular_witness :
  skipn 1 (Release.row (release_ex [])) = [`"failed"; `"-"; `"-"; `"-"] /\
  length (Release.header_row :: map Release.row [release_ex []; release_ex []]) = 3.
Proof.
  destruct (table_rows_are_rectangular [release_ex []; release_ex []])
    as (Hlen & _ & Hdash).
  split; [exact (Hdash (release_ex []) eq_refl)|exact Hlen].
Defined.

Lemma sentinel_is_hyphen_iff_witness :
  sentinel `"Applications-Release1" = "-"%char /\
  sentinel `"-Applications-Release1" = "/"%char.
Proof.
  split.
  - apply (proj1 (sentinel_is_hyphen_iff `"Applications-Release1")).
    exists "A"%char, `"pplications-Release1".
    split; [reflexivity|]. split; [discriminate|].
    simpl. tauto.
  - apply (proj2 (sentinel_is_hyphen_iff `"-Applications-Release1")).
    intros H. apply (proj1 (sentinel_is_hyphen_iff `"-Applications-Release1")) in H.
    destruct H as (c & rest & H & Hc & _). injection H as <- _. now apply Hc.
Defined.

(** ** PollLoop and CLI: the end time and the whole script *)

(** A call of [main] with a title and an existing output directory is its
    poll loop, run after the run parameters are logged and bounded by the end
    time computed from the clock at that call. *)
Lemma main_valid
      (E : env) (fuel : nat) (a : args) (w : world) :
  release_title a <> [] ->
  path_exists E (out_dir a) = true ->
  main E fuel a w
  = poll_loop E fuel fuel a (run_end_at (clock w) (run_hours a))
              (fst (log_run_parameters a w)).
Proof.
  intros Ht Hdir. unfold main. destruct (release_title a) eqn:Et; [congruence|].
  rewrite Hdir. cbn [negb].
  rewrite (bind_val _ (log_run_parameters_val a w)). reflexivity.
Qed.

Lemma module_init_ok (E : env) (user pw : str) (w : world) :
  environ E `"XLR_USER" = Some user ->
  environ E `"XLR_PASSWORD" = Some pw ->
  body (srv_login E (clock w) user pw) = Some tt ->
  exists w1,
    module_init E w = (w1, Val tt) /\
    clock w1 = (clock w + took (srv_login E (clock w) user pw))%Z.
Proof.
  intros Hu Hp Hlogin.
  unfold module_init, get_env_var, Server.init, bind, http, logger, emit, ret.
  rewrite Hu, Hp. simpl. rewrite Hlogin. eexists. split; reflexivity.
Qed.

(** Every clock beyond the integer part of a finite end time is past it. *)
Lemma gt_end_beyond (run_end : fvalue) :
  endless run_end = false ->
  exists B : Z, forall z : Z, (B < z)%Z -> gt_end z run_end = true.
Proof.
  destruct run_end as [q| | |]; cbn; try discriminate; intros _.
  - exists (Qfloor q). intros z Hz.
    destruct (Qle_bool (inject_Z z) q) eqn:E; [|reflexivity].
    apply Qle_bool_iff in E. pose proof (Qlt_floor q) as Hlt.
    assert (Hle : (inject_Z (Qfloor q + 1) <= inject_Z z)%Q)
      by (rewrite <- Zle_Qle; lia).
    exfalso. apply (Qlt_irrefl q).
    eapply Qlt_le_trans; [exact Hlt|]. eapply Qle_trans; eassumption.
  - exists 0%Z. reflexivity.
Qed.

Lemma gt_end_endless (run_end : fvalue) (z : Z) :
  endless run_end = true -> gt_end z run_end = false.
Proof. destruct run_end; cbn; congruence. Qed.

(** With an end time that some clock passes and reports that take time, the
    loop returns once it is given enough turns. *)
Lemma poll_loop_returns
      (E : env) (fuel : nat) (a : args) (run_end : fvalue) (B : Z) :
  (forall z : Z, (B < z)%Z -> gt_end z run_end = true) ->
  (forall w, exists w1,
      generate_report E fuel (release_title a) (out_dir a) (keep_files a) w
      = (w1, Val tt) /\ (clock w < clock w1)%Z) ->
  forall (turns : nat) (w : world),
    (Z.max 0 (B - clock w + 1) < Z.of_nat turns)%Z ->
    exists w', poll_loop E fuel turns a run_end w = (w', Val tt).
Proof.
  intros HB Hgen. induction turns as [|n IH]; intros w Hm; [lia|].
  cbn [poll_loop].
  destruct (gt_end (clock w) run_end) eqn:Hnow.
  - rewrite (bind_val _ (poll_cycle_break_before E fuel a run_end w Hnow)).
    eexists. reflexivity.
  - destruct (Hgen w) as (w1 & Hg & Hclk).
    destruct (gt_end (clock w + call_every_min a * 60) run_end) eqn:Hnext.
    + rewrite (bind_val _ (poll_cycle_break_after E fuel a run_end w Hnow Hg Hnext)).
      eexists. reflexivity.
    + assert (Hle : (clock w <= B)%Z).
      { destruct (Z_lt_le_dec B (clock w)) as [Hlt|Hle]; [|exact Hle].
        rewrite (HB _ Hlt) in Hnow. discriminate. }
      pose proof (poll_cycle_continue E fuel a run_end w Hnow Hg Hnext) as Hc.
      cbv zeta in Hc.
      destruct (0 <? clock w1 - (clock w + call_every_min a * 60))%Z eqn:Elate;
        rewrite (bind_val _ Hc); apply IH; cbn [clock].
      * apply Z.ltb_lt in Elate. lia.
      * lia.
Qed.

(** *** More fuel changes nothing once a computation ends *)

Lemma refines_refl {A} (m : M A) : refines m m.
Proof. intros w w' r H _. exact H. Qed.

Lemma refines_bind {A B} (m m' : M A) (f f' : A -> M B) :
  refines m m' -> (forall a, refines (f a) (f' a)) ->
  refines (bind m f) (bind m' f').
Proof.
  intros Hm Hf w w' r H Hr. unfold bind in *.
  destruct (m w) as [w1 r1] eqn:Em.
  destruct r1 as [a|c|e|].
  - rewrite (Hm _ _ _ Em ltac:(discriminate)). now apply Hf.
  - rewrite (Hm _ _ _ Em ltac:(discriminate)). exact H.
  - rewrite (Hm _ _ _ Em ltac:(discriminate)). exact H.
  - injection H as _ <-. congruence.
Qed.

Lemma search_pages_refines
      (E : env) (data : search_data) (ex : list str) (fuel : nat) :
  forall (fuel' : nat) (acc : list Release.t) (page : nat),
    fuel <= fuel' ->
    refines (Release.search_pages E fuel data ex acc page)
            (Release.search_pages E fuel' data ex acc page).
Proof.
  induction fuel as [|fuel IH]; intros fuel' acc page Hle.
  - intros w w' r H Hr. injection H as _ <-. congruence.
  - destruct fuel' as [|fuel']; [lia|]. cbn [Release.search_pages].
    apply refines_bind; [apply refines_refl|]. intros cis.
    apply refines_bind; [apply refines_refl|]. intros rs.
    destruct (length rs =? 0); [apply refines_refl|].
    apply refines_bind; [apply refines_refl|]. intros _.
    apply refines_bind; [apply refines_refl|]. intros _.
    apply IH. lia.
Qed.

Lemma search_releases_refines
      (E : env) (fuel fuel' : nat) (title : str) (tags : list str)
      (statuses : status_dict) (ex : list str) :
  fuel <= fuel' ->
  refines (Release.search_releases E fuel title tags statuses ex)
          (Release.search_releases E fuel' title tags statuses ex).
Proof.
  intros Hle. unfold Release.search_releases.
  apply refines_bind; [apply refines_refl|]. intros t0.
  apply refines_bind; [apply refines_refl|]. intros _.
  apply refines_bind; [now apply search_pages_refines|]. intros rs.
  apply refines_refl.
Qed.

Lemma generate_report_refines
      (E : env) (fuel fuel' : nat) (title dir : str) (keep : bool) :
  fuel <= fuel' ->
  refines (generate_report E fuel title dir keep)
          (generate_report E fuel' title dir keep).
Proof.
  intros Hle. unfold generate_report.
  apply refines_bind; [apply refines_refl|]. intros t0.
  apply refines_bind; [apply refines_refl|]. intros t1.
  apply refines_bind; [|intros c; apply refines_refl].
  unfold collecting_info.
  repeat (apply refines_bind; [now apply search_releases_refines|]; intros ?).
  apply refines_refl.
Qed.

Lemma poll_cycle_refines
      (E : env) (fuel fuel' : nat) (a : args) (run_end : fvalue) :
  fuel <= fuel' ->
  refines (poll_cycle E fuel a run_end) (poll_cycle E fuel' a run_end).
Proof.
  intros Hle. unfold poll_cycle.
  apply refines_bind; [apply refines_refl|]. intros t0.
  apply refines_bind; [apply refines_refl|]. intros t1.
  destruct (gt_end t1 run_end); [apply refines_refl|].
  apply refines_bind; [now apply generate_report_refines|]. intros _.
  apply refines_refl.
Qed.

Lemma poll_loop_refines
      (E : env) (a : args) (run_end : fvalue) (fuel fuel' : nat) (turns : nat) :
  fuel <= fuel' ->
  forall turns' : nat,
    turns <= turns' ->
    refines (poll_loop E fuel turns a run_end) (poll_loop E fuel' turns' a run_end).
Proof.
  intros Hle. induction turns as [|turns IH]; intros turns' Ht.
  - intros w w' r H Hr. injection H as _ <-. congruence.
  - destruct turns' as [|turns']; [lia|]. cbn [poll_loop].
    apply refines_bind; [now apply poll_cycle_refines|]. intros [|].
    + apply IH. lia.
    + apply refines_refl.
Qed.

Lemma main_refines (E : env) (fuel fuel' : nat) (a : args) :
  fuel <= fuel' -> refines (main E fuel a) (main E fuel' a).
Proof.
  intros Hle. unfold main.
  destruct (match release_title a with [] => true | _ => false end);
    [apply refines_refl|].
  destruct (negb (path_exists E (out_dir a))); [apply refines_refl|].
  apply refines_bind; [apply refines_refl|]. intros _.
  apply refines_bind; [apply refines_refl|]. intros now.
  now apply poll_loop_refines.
Qed.

(** C10, as amended.  Run as a script, the module calls [main()] twice in
    sequence, and the second call is reached when the first returns.  With
    both credentials set, a login that succeeds, a release title, an existing
    output directory, reports that return and take time, and an end time of
    the first call that is neither [inf] nor [nan], the module-level
    statements and the first call of [main] return once the loops are given
    enough turns; the script then goes on with the whole of [main] a second
    time from the world the first call left, and that second call logs the
    run parameters again and is a poll loop of its own, with an end time
    computed anew from its own start.  When that second end time is neither
    [inf] nor [nan] either, the second call returns too, and so does the
    script. *)
Theorem script_runs_main_twice
        (E : env) (a : args) (f0 : nat) (user pw : str) (w : world) :
  environ E `"XLR_USER" = Some user ->
  environ E `"XLR_PASSWORD" = Some pw ->
  body (srv_login E (clock w) user pw) = Some tt ->
  release_title a <> [] ->
  path_exists E (out_dir a) = true ->
  (forall w0 : world,
      exists w1,
        generate_report E f0 (release_title a) (out_dir a) (keep_files a) w0
        = (w1, Val tt) /\ (clock w0 < clock w1)%Z) ->
  endless (run_end_at (clock w + took (srv_login E (clock w) user pw))
                      (run_hours a)) = false ->
  exists (w1 w2 : world) (fuel1 : nat),
    module_init E w = (w1, Val tt) /\
    (forall fuel : nat,
        fuel1 <= fuel ->
        main E fuel a w1 = (w2, Val tt) /\
        script E fuel a w = main E fuel a w2 /\
        main E fuel a w2
        = poll_loop E fuel fuel a (run_end_at (clock w2) (run_hours a))
                    (fst (log_run_parameters a w2))) /\
    (endless (run_end_at (clock w2) (run_hours a)) = false ->
     exists (w3 : world) (fuel2 : nat),
       forall fuel : nat,
         fuel2 <= fuel ->
         main E fuel a w2 = (w3, Val tt) /\
         script E fuel a w = (w3, Val tt)).
Proof.
  intros Hu Hp Hlogin Ht Hdir Hgen Hend.
  destruct (@module_init_ok E user pw w Hu Hp Hlogin) as (w1 & Hinit & Hclk).
  rewrite <- Hclk in Hend.
  assert (Hgen' : forall fuel, f0 <= fuel -> forall w0, exists w1',
               generate_report E fuel (release_title a) (out_dir a) (keep_files a) w0
               = (w1', Val tt) /\ (clock w0 < clock w1')%Z).
  { intros fuel Hle w0. destruct (Hgen w0) as (w1' & Hg & Hc).
    exists w1'. split; [|exact Hc].
    exact (@generate_report_refines E f0 fuel _ _ _ Hle _ _ _ Hg ltac:(discriminate)). }
  assert (Hret : forall ws,
             endless (run_end_at (clock ws) (run_hours a)) = false ->
             exists (we : world) (fuel0 : nat),
               forall fuel, fuel0 <= fuel -> main E fuel a ws = (we, Val tt)).
  { intros ws Hfin. destruct (@gt_end_beyond _ Hfin) as (B & HB).
    pose (fuel0 := Nat.max f0 (S (Z.to_nat (Z.max 0 (B - clock ws + 1))))).
    destruct (@poll_loop_returns E fuel0 a _ B HB
                (Hgen' fuel0 ltac:(unfold fuel0; lia)) fuel0
                (fst (log_run_parameters a ws))) as (we & Hloop).
    { change (clock (fst (log_run_parameters a ws))) with (clock ws).
      unfold fuel0. lia. }
    exists we, fuel0. intros fuel Hle.
    apply (@main_refines E fuel0 fuel a Hle); [|discriminate].
    rewrite main_valid by assumption. exact Hloop. }
  destruct (Hret w1 Hend) as (w2 & fuel1 & Hmain).
  assert (Hscript : forall fuel, fuel1 <= fuel ->
                                 script E fuel a w = main E fuel a w2).
  { intros fuel Hle. unfold script.
    rewrite (bind_val _ Hinit). rewrite (bind_val _ (Hmain fuel Hle)). reflexivity. }
  exists w1, w2, fuel1. split; [exact Hinit|]. split.
  - intros fuel Hle. split; [now apply Hmain|]. split; [now apply Hscript|].
    now apply main_valid.
  - intros Hend2. destruct (Hret w2 Hend2) as (w3 & fuel2 & Hmain2).
    exists w3, (Nat.max fuel1 fuel2). intros fuel Hle.
    assert (H2 : main E fuel a w2 = (w3, Val tt)) by (apply Hmain2; lia).
    split; [exact H2|]. rewrite Hscript by lia. exact H2.
Qed.

(** What a report costs against a server that finds nothing and takes [rtt]
    seconds for each answer. *)
Lemma generate_report_nothing_clock
      (E : env) (fuel : nat) (title dir : str) (keep : bool) (rtt : Z) (w : world) :
  (forall now page n data,
      srv_search E now page n data = {| took := rtt; body := Some [] |}) ->
  exists w',
    generate_report E (S fuel) title dir keep w = (w', Val tt) /\
    clock w' = (clock w + 3 * rtt)%Z.
Proof.
  intros Hsrv.
  assert (Hempty : forall now page n data, body (srv_search E now page n data) = Some [])
    by (intros; now rewrite Hsrv).
  destruct (search_releases_nothing E fuel title [`"drb"; `"release"]
                                    STATUS_ONLY_FAILED [] w (fun now => Hempty _ _ _ _))
    as (w1 & Hs1 & _ & Hc1).
  destruct (search_releases_nothing E fuel title [`"drb"; `"rollout"]
                                    STATUS_ONLY_FAILED [`"tstux - Qualitycheck"] w1
                                    (fun now => Hempty _ _ _ _))
    as (w2 & Hs2 & _ & Hc2).
  destruct (search_releases_nothing E fuel title [`"drb"; `"applikationstests"]
                                    STATUS_ONLY_FAILED [`"TSTUX"] w2
                                    (fun now => Hempty _ _ _ _))
    as (w3 & Hs3 & _ & Hc3).
  assert (Hc : collecting_info E (S fuel) title w
               = (w3, Val {| releases_tag_release := [];
                             releases_tag_rollout := [];
                             releases_tag_applikationstests := [] |})).
  { unfold collecting_info.
    rewrite (bind_val _ Hs1), (bind_val _ Hs2), (bind_val _ Hs3). reflexivity. }
  destruct (generate_report_after_collecting E (S fuel) title dir keep w Hc)
    as (w' & Hrun & _ & _ & Hclk).
  exists w'. split; [exact Hrun|].
  rewrite Hclk, Hc3, Hc2, Hc1, !Hsrv. cbn [took]. lia.
Qed.

Lemma script_runs_main_twice_witness :
  exists (w3 : world) (fuel2 : nat),
    forall fuel : nat,
      fuel2 <= fuel ->
      script (paging_server [] 10) fuel args_ex w0 = (w3, Val tt).
Proof.
  destruct (@script_runs_main_twice (paging_server [] 10) args_ex 1
                                    `"secret" `"secret" w0)
    as (w1 & w2 & fuel1 & Hinit & Hfirst & Hsecond).
  - reflexivity.
  - reflexivity.
  - reflexivity.
  - discriminate.
  - reflexivity.
  - intros w.
    destruct (@generate_report_nothing_clock
                (paging_server [] 10) 0 (release_title args_ex)
                (out_dir args_ex) (keep_files args_ex) 10 w) as (w1 & Hrun & Hclk).
    + intros now page n data. simpl. now rewrite skipn_nil, firstn_nil.
    + exists w1. split; [exact Hrun|lia].
  - vm_compute. reflexivity.
  - assert (E1 : w1 = fst (module_init (paging_server [] 10) w0))
      by now rewrite Hinit.
    subst w1.
    destruct (Hfirst (Nat.max fuel1 50) ltac:(lia)) as (Hmain & _).
    remember (fst (main (paging_server [] 10) 50 args_ex
                        (fst (module_init (paging_server [] 10) w0)))) as x eqn:Ex.
    assert (H50 : main (paging_server [] 10) 50 args_ex
                       (fst (module_init (paging_server [] 10) w0))
                  = (x, Val tt))
      by (rewrite Ex; vm_compute; reflexivity).
    pose proof (@main_refines (paging_server [] 10) 50 (Nat.max fuel1 50) args_ex
                              ltac:(lia) _ _ _ H50 ltac:(discriminate)) as Hmax.
    rewrite Hmax in Hmain. injection Hmain as <-.
    destruct (Hsecond ltac:(rewrite Ex; vm_compute; reflexivity))
      as (w3 & fuel2 & Hboth).
    exists w3, fuel2. intros fuel Hle. now apply Hboth.
Defined.

(** The run of the witness in full: a run of six minutes against a server
    that takes ten seconds for each answer.  Both calls of [main] return, each
    logs the run parameters, and each writes eight reports. *)
Example script_run_in_full_ex :
  exists w1 w2 w3,
    module_init (paging_server [] 10) w0 = (w1, Val tt) /\
    main (paging_server [] 10) 50 args_ex w1 = (w2, Val tt) /\
    main (paging_server [] 10) 50 args_ex w2 = (w3, Val tt) /\
    script (paging_server [] 10) 50 args_ex w0 = (w3, Val tt) /\
    length (filter (str_eqb `"Run parameters:") (logged_at INFO (trace w3))) = 2 /\
    length (files_of (trace w2)) = 16 /\
    length (files_of (trace w3)) = 32.
Proof.
  eexists. eexists. eexists.
  split; [vm_compute; reflexivity|].
  split; [vm_compute; reflexivity|].
  split; [vm_compute; reflexivity|].
  split; [vm_compute; reflexivity|].
  vm_compute. repeat split.
Qed.

(** C10 as stated fails: not every invocation runs [main] twice.  With an
    output directory that does not exist the first call of [main] ends the
    process with status 1: the error record is logged once, the run
    parameters are never logged, and the second call is not reached. *)
Lemma script_runs_main_twice_counterexample :
  let (w', r) := script (no_out_dir (paging_server [] 10)) 50 args_ex w0 in
  r = Exit 1 /\
  logged_at ERROR (trace w') = [`"Directory '.' does not exist, aborting."] /\
  filter (str_eqb `"Run parameters:") (logged_at INFO (trace w')) = [] /\
  requests_of (trace w') = [Login `"secret" `"secret"].
Proof. vm_compute. repeat split. Qed.

(** *** Integers in float arithmetic

    An integer below [2^53] in size is a float, and a sum of two such
    integers that stays below [2^53] is computed exactly. *)

Lemma digits2_pos_iter (v d : positive) :
  digits2_pos (Pos.iter xO v d) = (digits2_pos v + d)%positive.
Proof.
  induction d as [|d IH] using Pos.peano_ind.
  - simpl. lia.
  - rewrite Pos.iter_succ. simpl. rewrite IH. lia.
Qed.

Lemma digits2_shl (v : positive) (s : Z) :
  (0 <= s)%Z -> Z.pos (digits2_pos (shl v s)) = (Z.pos (digits2_pos v) + s)%Z.
Proof.
  intros Hs. destruct s as [|d|d]; simpl; [lia| |lia].
  rewrite digits2_pos_iter. lia.
Qed.

Lemma shl_shl (v : positive) (a : Z) (q : positive) :
  (0 <= a)%Z -> Pos.iter xO (shl v a) q = shl v (a + Z.pos q).
Proof.
  intros Ha. destruct a as [|d|d]; simpl; [reflexivity| |lia].
  now rewrite (Pos.add_comm d q), Pos.iter_add.
Qed.

Lemma shl_value (v : positive) (s : Z) :
  (0 <= s)%Z -> Z.pos (shl v s) = (Z.pos v * 2 ^ s)%Z.
Proof.
  intros Hs. destruct s as [|d|d]; simpl shl; [lia| |lia].
  change (Pos.iter xO v d) with (shift_pos d v).
  rewrite shift_pos_correct, Z.pow_pos_fold. lia.
Qed.

Lemma iter_pos_iter {A} (f : A -> A) (n : positive) :
  forall x, iter_pos f n x = Pos.iter f x n.
Proof.
  induction n as [n IH|n IH|]; intros x; simpl.
  - rewrite !IH. now rewrite <- Pos.iter_swap, <- Pos.iter_swap.
  - now rewrite !IH.
  - reflexivity.
Qed.

Lemma shr_exact (n : positive) :
  forall w : positive,
    iter_pos shr_1 n {| shr_m := Z.pos (Pos.iter xO w n); shr_r := false; shr_s := false |}
    = {| shr_m := Z.pos w; shr_r := false; shr_s := false |}.
Proof.
  intros w. rewrite iter_pos_iter. revert w.
  induction n as [|n IH] using Pos.peano_ind; intros w.
  - reflexivity.
  - rewrite (@Pos.iter_succ n _ xO w), (@Pos.iter_succ_r n _ shr_1).
    simpl shr_1. apply IH.
Qed.

Lemma binary_round_exact (sx : bool) (v : positive) (s : Z) :
  (0 <= s)%Z ->
  (Z.pos (digits2_pos v) <= 53)%Z ->
  binary_round 53 1024 sx (shl v s) (- s)
  = S754_finite sx (shl v (53 - Z.pos (digits2_pos v))) (Z.pos (digits2_pos v) - 53).
Proof.
  intros Hs Hd. set (d := Z.pos (digits2_pos v)) in *.
  assert (Hd1 : (1 <= d)%Z) by (unfold d; lia).
  unfold binary_round.
  rewrite (digits2_shl v Hs). fold d.
  replace (fexp 53 1024 (d + s + - s)) with (d - 53)%Z
    by (unfold fexp, emin; lia).
  assert (Haux : binary_round_aux 53 1024 sx (Z.pos (shl v (53 - d))) (d - 53) loc_Exact
                 = S754_finite sx (shl v (53 - d)) (d - 53)).
  { unfold binary_round_aux, shr_fexp. cbn [Zdigits2 shr_record_of_loc].
    rewrite (@digits2_shl v (53 - d)) by lia. fold d.
    replace (fexp 53 1024 (d + (53 - d) + (d - 53)) - (d - 53))%Z with 0%Z
      by (unfold fexp, emin; lia).
    cbn [shr loc_of_shr_record shr_m shr_r shr_s round_nearest_even].
    cbn [Zdigits2 shr_record_of_loc].
    rewrite (@digits2_shl v (53 - d)) by lia. fold d.
    replace (fexp 53 1024 (d + (53 - d) + (d - 53)) - (d - 53))%Z with 0%Z
      by (unfold fexp, emin; lia).
    cbn [shr shr_m].
    replace (d - 53 <=? 1024 - 53)%Z with true by (symmetry; apply Z.leb_le; lia).
    reflexivity. }
  unfold shl_align.
  destruct (d - 53 - - s)%Z as [|q|q] eqn:Eq.
  - replace s with (53 - d)%Z by lia.
    replace (- (53 - d))%Z with (d - 53)%Z by lia. exact Haux.
  - unfold binary_round_aux, shr_fexp. cbn [Zdigits2 shr_record_of_loc].
    rewrite (digits2_shl v Hs). fold d.
    replace (fexp 53 1024 (d + s + - s) - - s)%Z with (Z.pos q)
      by (unfold fexp, emin; lia).
    cbn [shr].
    replace (shl v s) with (Pos.iter xO (shl v (53 - d)) q)
      by (rewrite shl_shl by lia; f_equal; lia).
    rewrite shr_exact.
    cbn [loc_of_shr_record shr_m shr_r shr_s round_nearest_even].
    cbn [Zdigits2 shr_record_of_loc].
    rewrite (@digits2_shl v (53 - d)) by lia. fold d.
    replace (fexp 53 1024 (d + (53 - d) + (- s + Z.pos q)) - (- s + Z.pos q))%Z with 0%Z
      by (unfold fexp, emin; lia).
    cbn [shr shr_m].
    replace (- s + Z.pos q <=? 1024 - 53)%Z with true by (symmetry; apply Z.leb_le; lia).
    f_equal. lia.
  - rewrite shl_shl by lia.
    replace (s + Z.pos q)%Z with (53 - d)%Z by lia. exact Haux.
Qed.

Lemma digits2_pos_size (p : positive) : digits2_pos p = Pos.size p.
Proof. induction p as [p IH|p IH|]; simpl; now rewrite ?IH. Qed.

Lemma digits2_small (v : positive) :
  (Z.pos v < 2 ^ 53)%Z -> (Z.pos (digits2_pos v) <= 53)%Z.
Proof.
  intros Hv. rewrite digits2_pos_size.
  destruct (Z_le_gt_dec (Z.pos (Pos.size v)) 53) as [H|H]; [exact H|exfalso].
  pose proof (Pos.size_le v) as Hle.
  assert (H2 : (2 ^ Z.pos (Pos.size v) <= Z.pos v~0)%Z).
  { rewrite <- Pos2Z.inj_pow. exact Hle. }
  assert (H3 : (2 ^ 54 <= 2 ^ Z.pos (Pos.size v))%Z)
    by (apply Z.pow_le_mono_r; lia).
  lia.
Qed.

Lemma shl_0 (v : positive) : shl v 0 = v.
Proof. reflexivity. Qed.

Lemma shl_add (v : positive) (a b : Z) :
  (0 <= a)%Z -> (0 <= b)%Z -> shl (shl v a) b = shl v (a + b).
Proof.
  intros Ha Hb. destruct b as [|q|q]; [|now apply shl_shl|lia].
  now rewrite Z.add_0_r.
Qed.

Lemma shl_inj_value (v w : positive) (s : Z) :
  (0 <= s)%Z -> (Z.pos v = Z.pos w * 2 ^ s)%Z -> v = shl w s.
Proof.
  intros Hs H. apply Pos2Z.inj. now rewrite shl_value.
Qed.

(** The float of an integer below [2^53] in size. *)
Lemma float_of_int_pos (v : positive) :
  (Z.pos v < 2 ^ 53)%Z ->
  float_of_int (Z.pos v)
  = S754_finite false (shl v (53 - Z.pos (digits2_pos v))) (Z.pos (digits2_pos v) - 53).
Proof.
  intros Hv. unfold float_of_int. cbn [binary_normalize].
  exact (@binary_round_exact false v 0 ltac:(lia) (digits2_small Hv)).
Qed.

Lemma float_of_int_neg (v : positive) :
  (Z.pos v < 2 ^ 53)%Z ->
  float_of_int (Z.neg v)
  = S754_finite true (shl v (53 - Z.pos (digits2_pos v))) (Z.pos (digits2_pos v) - 53).
Proof.
  intros Hv. unfold float_of_int. cbn [binary_normalize].
  exact (@binary_round_exact true v 0 ltac:(lia) (digits2_small Hv)).
Qed.

Lemma normalize_exact (z : Z) (s : Z) :
  (0 <= s)%Z -> (Z.abs z < 2 ^ 53)%Z ->
  binary_normalize 53 1024 (z * 2 ^ s) (- s) false = float_of_int z.
Proof.
  intros Hs Hz. destruct z as [|v|v].
  - reflexivity.
  - rewrite float_of_int_pos by lia.
    replace (Z.pos v * 2 ^ s)%Z with (Z.pos (shl v s)) by now rewrite shl_value.
    cbn [binary_normalize]. apply binary_round_exact; [exact Hs|].
    apply digits2_small. lia.
  - rewrite float_of_int_neg by lia.
    replace (Z.neg v * 2 ^ s)%Z with (Z.neg (shl v s))
      by (rewrite <- !Pos2Z.opp_pos, shl_value by exact Hs; lia).
    cbn [binary_normalize]. apply binary_round_exact; [exact Hs|].
    apply digits2_small. lia.
Qed.

(** The mantissa and the exponent of the float of a non-zero integer. *)
Lemma float_of_int_finite (z : Z) :
  z <> 0%Z -> (Z.abs z < 2 ^ 53)%Z ->
  exists (m : positive) (e : Z),
    float_of_int z = S754_finite (z <? 0)%Z m e /\
    (e <= 0)%Z /\ (Z.pos m = Z.abs z * 2 ^ (- e))%Z.
Proof.
  intros Hz Hs. destruct z as [|v|v]; [congruence| |].
  - exists (shl v (53 - Z.pos (digits2_pos v))), (Z.pos (digits2_pos v) - 53)%Z.
    pose proof (@digits2_small v ltac:(lia)).
    split; [now apply float_of_int_pos|]. split; [lia|].
    rewrite shl_value by lia. f_equal. f_equal. lia.
  - exists (shl v (53 - Z.pos (digits2_pos v))), (Z.pos (digits2_pos v) - 53)%Z.
    pose proof (@digits2_small v ltac:(lia)).
    split; [now apply float_of_int_neg|]. split; [lia|].
    rewrite shl_value by lia. f_equal. f_equal. lia.
Qed.

Lemma shl_align_value (m : positive) (e ez : Z) :
  (ez <= e)%Z ->
  Z.pos (fst (shl_align m e ez)) = (Z.pos m * 2 ^ (e - ez))%Z.
Proof.
  intros Hle. unfold shl_align.
  destruct (ez - e)%Z as [|q|q] eqn:Eq; cbn [fst]; [| lia |].
  - replace (e - ez)%Z with 0%Z by lia. lia.
  - change (Pos.iter xO m q) with (shl m (Z.pos q)).
    rewrite shl_value by lia. f_equal. f_equal. lia.
Qed.

(** The sum of two integers is exact as long as it stays below [2^53]. *)
Lemma fadd_exact (a b : Z) :
  (Z.abs a < 2 ^ 53)%Z -> (Z.abs b < 2 ^ 53)%Z -> (Z.abs (a + b) < 2 ^ 53)%Z ->
  fadd (float_of_int a) (float_of_int b) = float_of_int (a + b).
Proof.
  intros Ha Hb Hab.
  destruct (Z.eq_dec a 0) as [->|Ha0].
  { change (float_of_int 0) with (S754_zero false). simpl Z.add.
    destruct (Z.eq_dec b 0) as [->|Hb0]; [reflexivity|].
    destruct (@float_of_int_finite b Hb0 Hb) as (m & e & -> & _). reflexivity. }
  destruct (Z.eq_dec b 0) as [->|Hb0].
  { change (float_of_int 0) with (S754_zero false). rewrite Z.add_0_r.
    destruct (@float_of_int_finite a Ha0 Ha) as (m & e & -> & _). reflexivity. }
  destruct (@float_of_int_finite a Ha0 Ha) as (ma & ea & Efa & Hea & Hma).
  destruct (@float_of_int_finite b Hb0 Hb) as (mb & eb & Efb & Heb & Hmb).
  rewrite Efa, Efb. unfold fadd. cbn [SFadd].
  change (IntDef.Z.min ea eb) with (Z.min ea eb).
  set (ez := Z.min ea eb).
  assert (Hez : (ez <= 0)%Z) by (unfold ez; lia).
  rewrite (@shl_align_value ma ea ez) by (unfold ez; lia).
  rewrite (@shl_align_value mb eb ez) by (unfold ez; lia).
  rewrite Hma, Hmb.
  replace (cond_Zopp (a <? 0)%Z (Z.abs a * 2 ^ (- ea) * 2 ^ (ea - ez)) +
           cond_Zopp (b <? 0)%Z (Z.abs b * 2 ^ (- eb) * 2 ^ (eb - ez)))%Z
    with ((a + b) * 2 ^ (- ez))%Z.
  - replace ez with (- - ez)%Z at 2 by lia.
    apply normalize_exact; [lia|exact Hab].
  - rewrite <- !Z.mul_assoc, <- !Z.pow_add_r by lia.
    replace (- ea + (ea - ez))%Z with (- ez)%Z by lia.
    replace (- eb + (eb - ez))%Z with (- ez)%Z by lia.
    unfold cond_Zopp.
    destruct (a <? 0)%Z eqn:Sa; destruct (b <? 0)%Z eqn:Sb;
      rewrite ?Z.ltb_lt, ?Z.ltb_ge in *; nia.
Qed.

Lemma pow2_Q (t : Z) :
  (0 <= t)%Z -> (inject_Z (2 ^ t) * (2 # 1) ^ (- t) == 1)%Q.
Proof.
  intros Ht.
  rewrite Qpower_opp.
  change (2 # 1)%Q with (inject_Z 2).
  rewrite <- Zpower_Qpower by exact Ht.
  apply Qmult_inv_r.
  intros H.
  assert (H2 : (0 < 2 ^ t)%Z) by (apply Z.pow_pos_nonneg; lia).
  unfold Qeq in H. simpl in H. lia.
Qed.

(** The float of an integer below [2^53] in size is worth that integer. *)
Lemma gt_end_float_of_int (z k : Z) :
  (Z.abs k < 2 ^ 53)%Z ->
  gt_end z (value (float_of_int k)) = (k <? z)%Z.
Proof.
  intros Hk.
  assert (Hval : exists q, value (float_of_int k) = Finite q /\ (q == inject_Z k)%Q).
  { destruct (Z.eq_dec k 0) as [->|Hk0].
    - exists 0%Q. split; reflexivity.
    - destruct (@float_of_int_finite k Hk0 Hk) as (m & e & -> & He & Hm).
      eexists. split; [reflexivity|].
      assert (Hc : cond_Zopp (k <? 0)%Z (Z.pos m) = (k * 2 ^ (- e))%Z).
      { rewrite Hm. unfold cond_Zopp.
        destruct (k <? 0)%Z eqn:Sk; rewrite ?Z.ltb_lt, ?Z.ltb_ge in *; nia. }
      rewrite Hc, inject_Z_mult.
      replace e with (- - e)%Z at 2 by lia.
      rewrite <- Qmult_assoc, pow2_Q by lia. ring. }
  destruct Hval as (q & -> & Hq). cbn [gt_end].
  destruct (Qle_bool (inject_Z z) q) eqn:E.
  - apply Qle_bool_iff in E. rewrite Hq, <- Zle_Qle in E.
    symmetry. apply Z.ltb_ge. exact E.
  - symmetry. apply Z.ltb_lt.
    destruct (Z_lt_le_dec k z) as [H|H]; [exact H|exfalso].
    assert (E' : Qle_bool (inject_Z z) q = true).
    { apply Qle_bool_iff. rewrite Hq, <- Zle_Qle. exact H. }
    congruence.
Qed.

(** The end time of a run of a whole number of seconds. *)
Lemma run_end_exact (now k : Z) (h : float) :
  fmul (fmul h (float_of_int 60)) (float_of_int 60) = float_of_int k ->
  (Z.abs now < 2 ^ 53)%Z -> (Z.abs k < 2 ^ 53)%Z -> (Z.abs (now + k) < 2 ^ 53)%Z ->
  forall z : Z, gt_end z (run_end_at now h) = (now + k <? z)%Z.
Proof.
  intros Hk Hn Hk' Hs z. unfold run_end_at. rewrite Hk.
  rewrite fadd_exact by assumption. now apply gt_end_float_of_int.
Qed.

(** A run whose end time is below the clock at its start returns at the
    first test of the loop. *)
Lemma main_past_end
      (E : env) (n : nat) (a : args) (w : world) :
  release_title a <> [] ->
  path_exists E (out_dir a) = true ->
  gt_end (clock w) (run_end_at (clock w) (run_hours a)) = true ->
  main E (S n) a w = (fst (log_run_parameters a w), Val tt).
Proof.
  intros Ht Hdir Hend. rewrite main_valid by assumption.
  cbn [poll_loop].
  rewrite (bind_val _ (@poll_cycle_break_before E (S n) a _
                         (fst (log_run_parameters a w)) Hend)).
  reflexivity.
Qed.

(** A run whose end time is between the clock at its start and the first
    tick returns after one report. *)
Lemma main_short_run
      (E : env) (n : nat) (a : args) (w w1 : world) :
  release_title a <> [] ->
  path_exists E (out_dir a) = true ->
  gt_end (clock w) (run_end_at (clock w) (run_hours a)) = false ->
  gt_end (clock w + call_every_min a * 60) (run_end_at (clock w) (run_hours a)) = true ->
  generate_report E (S n) (release_title a) (out_dir a) (keep_files a)
                  (fst (log_run_parameters a w)) = (w1, Val tt) ->
  main E (S n) a w = (w1, Val tt).
Proof.
  intros Ht Hdir Hnow Hnext Hgen. rewrite main_valid by assumption.
  cbn [poll_loop].
  rewrite (bind_val _ (@poll_cycle_break_after E (S n) a _
                         (fst (log_run_parameters a w)) w1 Hnow Hgen Hnext)).
  reflexivity.
Qed.

(** X19.  A run that is over before it starts.  With a release title, an
    existing output directory and a number of hours that amounts, in float
    arithmetic, to a negative whole number [k] of seconds, [main] started at a
    clock from 0 to [2^53] logs the run parameters and returns at the first
    test of the loop: no request is sent and no file is written.  (A negative
    number of hours that is not worth a second may give a report: the end
    time is rounded.) *)
Theorem main_past_end_reports_nothing
        (E : env) (n : nat) (a : args) (k : Z) (w : world) :
  release_title a <> [] ->
  path_exists E (out_dir a) = true ->
  fmul (fmul (run_hours a) (float_of_int 60)) (float_of_int 60) = float_of_int k ->
  (- 2 ^ 53 < k < 0)%Z ->
  (0 <= clock w < 2 ^ 53)%Z ->
  main E (S n) a w = (fst (log_run_parameters a w), Val tt).
Proof.
  intros Ht Hdir Hk Hneg Hclk. apply main_past_end; [assumption..|].
  rewrite (@run_end_exact (clock w) k (run_hours a) Hk) by lia.
  apply Z.ltb_lt. lia.
Qed.

Lemma main_past_end_reports_nothing_witness :
  snd (main (paging_server [] 10) 5 args_negative (at_clock 1000)) = Val tt /\
  requests_of (trace (fst (main (paging_server [] 10) 5 args_negative (at_clock 1000))))
  = [] /\
  files_of (trace (fst (main (paging_server [] 10) 5 args_negative (at_clock 1000))))
  = [].
Proof.
  rewrite (@main_past_end_reports_nothing (paging_server [] 10) 4
                                          args_negative (-1800) (at_clock 1000));
    [repeat split|discriminate|reflexivity|vm_compute; reflexivity
    |lia|simpl; lia].
Defined.

(** X20.  A run shorter than the interval.  With a release title, an existing
    output directory and a number of hours that amounts, in float arithmetic,
    to a whole number [k] of seconds from 0 to less than the interval, [main]
    started at a clock from 0 to [2^53 - k] generates exactly one report and
    returns when the report does: the second test of the loop ends it before
    any sleep or warning. *)
Theorem main_short_run_reports_once
        (E : env) (n : nat) (a : args) (k : Z) (w w1 : world) :
  release_title a <> [] ->
  path_exists E (out_dir a) = true ->
  fmul (fmul (run_hours a) (float_of_int 60)) (float_of_int 60) = float_of_int k ->
  (0 <= k < call_every_min a * 60)%Z ->
  (0 <= clock w)%Z ->
  (clock w + k < 2 ^ 53)%Z ->
  generate_report E (S n) (release_title a) (out_dir a) (keep_files a)
                  (fst (log_run_parameters a w)) = (w1, Val tt) ->
  main E (S n) a w = (w1, Val tt).
Proof.
  intros Ht Hdir Hk Hshort Hclk Hmax Hgen.
  apply main_short_run; [assumption..| | |assumption].
  - rewrite (@run_end_exact (clock w) k (run_hours a) Hk) by lia.
    apply Z.ltb_ge. lia.
  - rewrite (@run_end_exact (clock w) k (run_hours a) Hk) by lia.
    apply Z.ltb_lt. lia.
Qed.

Lemma main_short_run_reports_once_witness :
  exists w1,
    main (paging_server [] 10) 5 args_short w0 = (w1, Val tt) /\
    length (files_of (trace w1)) = 2 /\
    sleeps_of (trace w1) = [] /\
    logged_at WARNING (trace w1) = [].
Proof.
  eassert (Hgen : generate_report (paging_server [] 10) 5 (release_title args_short)
                                  (out_dir args_short) (keep_files args_short)
                                  (fst (log_run_parameters args_short w0))
                  = (_, Val tt)) by (vm_compute; reflexivity).
  eexists. split.
  - apply (@main_short_run_reports_once (paging_server [] 10) 4 args_short 36 w0 _);
      [discriminate|reflexivity|vm_compute; reflexivity|simpl; lia|simpl; lia
      |simpl; lia|exact Hgen].
  - vm_compute. repeat split.
Defined.

(** X22.  The end time of a run of whole seconds.  When the number of hours
    amounts, in float arithmetic, to a whole number [k] of seconds, and the
    clock at the start, [k] and their sum are below [2^53] in size, the end
    time that [main] computes is the float of the clock plus [k], and an int
    is greater than the end time exactly when it is greater than that sum:
    nothing is lost to rounding. *)
Theorem run_end_of_whole_seconds (now k : Z) (h : float) :
  fmul (fmul h (float_of_int 60)) (float_of_int 60) = float_of_int k ->
  (Z.abs now < 2 ^ 53)%Z ->
  (Z.abs k < 2 ^ 53)%Z ->
  (Z.abs (now + k) < 2 ^ 53)%Z ->
  fadd (float_of_int now) (fmul (fmul h (float_of_int 60)) (float_of_int 60))
  = float_of_int (now + k) /\
  forall z : Z, gt_end z (run_end_at now h) = (now + k <? z)%Z.
Proof.
  intros Hk Hn Hk' Hs. split.
  - rewrite Hk. now apply fadd_exact.
  - now apply run_end_exact.
Qed.

Lemma run_end_of_whole_seconds_witness :
  fadd (float_of_int 1667486000)
       (fmul (fmul (float_of_int 1) (float_of_int 60)) (float_of_int 60))
  = float_of_int 1667489600 /\
  gt_end 1667489600 (run_end_at 1667486000 (float_of_int 1)) = false /\
  gt_end 1667489601 (run_end_at 1667486000 (float_of_int 1)) = true.
Proof.
  destruct (@run_end_of_whole_seconds 1667486000 3600 (float_of_int 1))
    as (Hsum & Hgt).
  - vm_compute. reflexivity.
  - simpl. lia.
  - simpl. lia.
  - simpl. lia.
  - split; [exact Hsum|]. split; rewrite Hgt; reflexivity.
Defined.

(** The end time is rounded.  With [--hours 0.016666666666666666 -w 1] the
    product of the hours by 60 and 60 is the float 60.0, the end time is the
    first tick itself and the second test of the loop does not end the run: a
    second report is written.  With [--hours -1e-17] the sum is the start
    time itself and one report is written. *)
Example hours_rounded_up_to_a_minute :
  let a := {| out_dir := `"."; keep_files := false; release_title := `"220519A00";
              run_hours := decimal 16666666666666666 18; call_every_min := 1 |} in
  fmul (fmul (run_hours a) (float_of_int 60)) (float_of_int 60) = float_of_int 60 /\
  gt_end (1000 + 60) (run_end_at 1000 (run_hours a)) = false /\
  let (w', r) := main (paging_server [] 10) 5 a (at_clock 1000) in
  r = Val tt /\ length (files_of (trace w')) = 4.
Proof. vm_compute. repeat split. Qed.

Example negative_hours_rounded_away :
  let a := {| out_dir := `"."; keep_files := false; release_title := `"220519A00";
              run_hours := decimal (-1) 17; call_every_min := 3 |} in
  run_end_at 1000 (run_hours a) = run_end_at 1000 (float_of_int 0) /\
  gt_end 1000 (run_end_at 1000 (run_hours a)) = false /\
  let (w', r) := main (paging_server [] 10) 5 a (at_clock 1000) in
  r = Val tt /\ length (files_of (trace w')) = 2.
Proof. vm_compute. repeat split. Qed.

Lemma generate_report_file_count
      (E : env) (fuel : nat) (title dir : str) (keep : bool) (w w' : world) :
  generate_report E fuel title dir keep w = (w', Val tt) ->
  length (files_of (trace w'))
  = length (files_of (trace w)) + (if keep then 4 else 2).
Proof.
  intros H. pose proof H as Hrun. unfold generate_report in H.
  apply bind_inv in H as (w0' & t0 & Ht0 & H). injection Ht0 as <- <-.
  apply bind_inv in H as (w0' & t1 & Ht1 & H). injection Ht1 as <- <-.
  apply bind_inv in H as (wc & c & Hc & _).
  destruct (generate_report_after_collecting E fuel title dir keep w Hc)
    as (w2' & Hrun2 & Hfiles & _).
  rewrite Hrun in Hrun2. injection Hrun2 as <-.
  destruct (collecting_info_writes_nothing E fuel title w) as (tr & Htr & Hnone).
  rewrite Hc in Htr. simpl in Htr.
  rewrite Hfiles, Htr, files_of_app, (files_of_none Hnone), app_nil_r, length_app.
  f_equal. unfold report_files. destruct keep; reflexivity.
Qed.

(** With an end time that no clock passes the loop takes every turn it is
    given, and writes a report in each. *)
Lemma poll_loop_endless
      (E : env) (fuel : nat) (a : args) (run_end : fvalue) :
  endless run_end = true ->
  (forall w, exists w1,
      generate_report E fuel (release_title a) (out_dir a) (keep_files a) w
      = (w1, Val tt)) ->
  forall (turns : nat) (w : world),
    exists w',
      poll_loop E fuel turns a run_end w = (w', OutOfFuel) /\
      length (files_of (trace w'))
      = length (files_of (trace w)) + turns * (if keep_files a then 4 else 2).
Proof.
  intros Hend Hgen. induction turns as [|n IH]; intros w.
  - exists w. split; [reflexivity|]. simpl. lia.
  - destruct (Hgen w) as (w1 & Hg).
    pose proof (poll_cycle_continue E fuel a run_end w
                  (@gt_end_endless _ _ Hend) Hg (@gt_end_endless _ _ Hend)) as Hc.
    cbv zeta in Hc. cbn [poll_loop].
    pose proof (@generate_report_file_count _ _ _ _ _ _ _ Hg) as Hcount.
    destruct (0 <? clock w1 - (clock w + call_every_min a * 60))%Z;
      rewrite (bind_val _ Hc);
      match goal with
      | |- context [poll_loop E fuel n a run_end ?w2] =>
          destruct (IH w2) as (w' & Hrun & Hfiles)
      end;
      exists w'; (split; [exact Hrun|]);
      rewrite Hfiles; cbn [trace]; rewrite ?files_of_app; cbn [files_of];
      rewrite ?app_nil_r, Hcount; simpl; lia.
Qed.

Lemma run_end_endless (now : Z) (h : float) :
  h = float_inf \/ h = float_nan -> endless (run_end_at now h) = true.
Proof.
  unfold run_end_at, float_inf, float_nan.
  assert (H60 : float_of_int 60 = S754_finite false 8444249301319680 (-47))
    by (vm_compute; reflexivity).
  rewrite H60.
  intros [-> | ->]; cbn [fmul SFmul xorb]; unfold fadd;
    destruct (float_of_int now) as [s|[|]| |s m e]; reflexivity.
Qed.

Lemma log_run_parameters_files (a : args) (w : world) :
  files_of (trace (fst (log_run_parameters a w))) = files_of (trace w).
Proof.
  unfold log_run_parameters, bind, logger, emit. cbn [fst trace].
  rewrite !files_of_app. cbn [files_of]. now rewrite !app_nil_r.
Qed.

(** X21.  [--hours inf] and [--hours nan], which [float] accepts, give a run
    without end.  With a release title and an existing output directory,
    whenever every report returns, [main] does not return within any number
    of turns of its loop: neither test of the loop ever ends it, and it
    writes a report in every turn it is given. *)
Theorem main_endless_hours
        (E : env) (fuel : nat) (a : args) (w : world) :
  release_title a <> [] ->
  path_exists E (out_dir a) = true ->
  run_hours a = float_inf \/ run_hours a = float_nan ->
  (forall w0, exists w1,
      generate_report E fuel (release_title a) (out_dir a) (keep_files a) w0
      = (w1, Val tt)) ->
  snd (main E fuel a w) = OutOfFuel /\
  length (files_of (trace (fst (main E fuel a w))))
  = length (files_of (trace w)) + fuel * (if keep_files a then 4 else 2).
Proof.
  intros Ht Hdir Hh Hgen. rewrite main_valid by assumption.
  destruct (@poll_loop_endless E fuel a _ (run_end_endless (clock w) Hh) Hgen fuel
                               (fst (log_run_parameters a w)))
    as (w' & Hrun & Hfiles).
  rewrite Hrun. split; [reflexivity|].
  cbn [fst]. now rewrite Hfiles, log_run_parameters_files.
Qed.

Lemma main_endless_hours_witness :
  snd (main (paging_server [] 10) 7
            {| out_dir := `"."; keep_files := true; release_title := `"220519A00";
               run_hours := float_nan; call_every_min := 3 |} w0) = OutOfFuel /\
  length (files_of (trace (fst (main (paging_server [] 10) 7
            {| out_dir := `"."; keep_files := true; release_title := `"220519A00";
               run_hours := float_nan; call_every_min := 3 |} w0)))) = 28.
Proof.
  apply (@main_endless_hours (paging_server [] 10) 7
           {| out_dir := `"."; keep_files := true; release_title := `"220519A00";
              run_hours := float_nan; call_every_min := 3 |} w0).
  - discriminate.
  - reflexivity.
  - right. reflexivity.
  - intros w.
    destruct (@generate_report_nothing_clock
                (paging_server [] 10) 6 `"220519A00" `"." true 10 w) as (w1 & Hrun & _).
    + intros now page n data. simpl. now rewrite skipn_nil, firstn_nil.
    + exists w1. exact Hrun.
Defined.
